(** * NexellCorp/android_hal_hwc: the DRM resource graph and the frame path

    A shallow embedding of [drmresources.cpp], [hwcomposer.cpp], the two
    variants of [renderworker.h] and the buffer importer, and the
    properties of the binding resolver, the blob life cycle, the hotplug
    handler, the frame queue, the atomic-commit builders, the entry points
    of the compositor and the importer that follow from the code.

    Conventions.  A C++ pointer into one of the vectors [crtcs_],
    [encoders_], [connectors_], [planes_] is the index of the element it
    points to ([nat]); a null pointer is [None].  C [int]s and ids are [Z].
    A function that dereferences a pointer returns [option]: [None] is a
    pointer that points outside its vector, which the C++ code never
    builds (see [wf_resources]). *)

From stdpp Require Import base option list gmap.
From Stdlib Require Import ZArith Lia.
From Stdlib Require String.

Local Open Scope Z_scope.

(** ** errno values and libdrm constants *)

Definition ENOENT : Z := 2.
Definition EAGAIN : Z := 11.
Definition ENOMEM : Z := 12.
Definition ENODEV : Z := 19.
Definition EINVAL : Z := 22.

Definition DRM_PLANE_TYPE_OVERLAY : Z := 0.
Definition DRM_PLANE_TYPE_PRIMARY : Z := 1.
Definition DRM_PLANE_TYPE_CURSOR : Z := 2.

Definition DRM_MODE_TYPE_PREFERRED : Z := 8.
Definition DRM_MODE_DPMS_ON : Z := 0.
Definition DRM_MODE_DPMS_OFF : Z := 3.
Definition DRM_MODE_ATOMIC_ALLOW_MODESET : Z := 1024.

Inductive drmModeConnection :=
| DRM_MODE_CONNECTED
| DRM_MODE_DISCONNECTED
| DRM_MODE_UNKNOWNCONNECTION.

Global Instance drmModeConnection_eq_dec : EqDecision drmModeConnection.
Proof. solve_decision. Defined.

(** ** The nodes of the resource graph *)

Record DrmMode := {
  mode_id : Z;
  mode_h_display : Z;
  mode_v_display : Z;
  mode_v_refresh : Z;
  mode_type : Z;
}.

(** [DrmMode()], the default-constructed mode. *)
Definition DrmMode_default : DrmMode :=
  {| mode_id := 0; mode_h_display := 0; mode_v_display := 0;
     mode_v_refresh := 0; mode_type := 0 |}.

(** Modelled from the spec: the fields of a Pipeline-Controller
    (drmcrtc.h and drmcrtc.cpp are not part of src/).  The spec gives it
    an identity, a pipe index used as the bit position of legality masks,
    "the logical display it currently serves (or unbound)" and its
    mode-blob property.  [None] is "unbound". *)
Record DrmCrtc := {
  crtc_id : Z;
  crtc_pipe : nat;
  crtc_display : option Z;
  crtc_mode_property : Z;
}.

Record DrmEncoder := {
  enc_id : Z;
  enc_crtc : option nat;
  enc_possible_crtcs : list nat;
}.

Record DrmConnector := {
  conn_id : Z;
  conn_display : Z;
  conn_encoder : option nat;
  conn_possible_encoders : list nat;
  conn_state : drmModeConnection;
  conn_modes : list DrmMode;
  conn_active_mode : DrmMode;
  conn_crtc_id_property : Z;
  conn_dpms_property : Z;
}.

Record DrmPlane := {
  plane_id : Z;
  plane_type : Z;
  plane_possible_crtcs : Z;
  plane_crtc_property : Z;
  plane_fb_property : Z;
  plane_crtc_x_property : Z;
  plane_crtc_y_property : Z;
  plane_crtc_w_property : Z;
  plane_crtc_h_property : Z;
  plane_src_x_property : Z;
  plane_src_y_property : Z;
  plane_src_w_property : Z;
  plane_src_h_property : Z;
}.

Record DrmResources := {
  crtcs_ : list DrmCrtc;
  encoders_ : list DrmEncoder;
  connectors_ : list DrmConnector;
  planes_ : list DrmPlane;
}.

(** Modelled from the spec: [DrmCrtc::can_bind] (drmcrtc.cpp is not part
    of src/).  Binding step 1 fails with "try next" exactly when the
    controller "is already serving a different display"; a controller
    "serving no display" is free. *)
Definition can_bind (crtc : DrmCrtc) (display : Z) : bool :=
  match crtc_display crtc with
  | None => true
  | Some d => bool_decide (d = display)
  end.

(** Modelled from the spec: [DrmPlane::GetCrtcSupported] (drmplane.cpp is
    not part of src/): the plane may be attached to the controllers whose
    pipe index is a set bit of its possible-crtcs mask, the test that
    [DrmResources::Init] writes as [(1 << crtc->pipe()) & possible_crtcs]. *)
Definition GetCrtcSupported (plane : DrmPlane) (crtc : DrmCrtc) : bool :=
  negb (Z.land (Z.shiftl 1 (Z.of_nat (crtc_pipe crtc)))
               (plane_possible_crtcs plane) =? 0).

(** Setters of the node fields, through the pointer. *)

Definition DrmCrtc_set_display (display : Z) (c : DrmCrtc) : DrmCrtc :=
  {| crtc_id := crtc_id c; crtc_pipe := crtc_pipe c;
     crtc_display := Some display;
     crtc_mode_property := crtc_mode_property c |}.

Definition DrmEncoder_set_crtc (crtc : nat) (e : DrmEncoder) : DrmEncoder :=
  {| enc_id := enc_id e; enc_crtc := Some crtc;
     enc_possible_crtcs := enc_possible_crtcs e |}.

Definition DrmConnector_set_encoder (enc : nat) (c : DrmConnector)
  : DrmConnector :=
  {| conn_id := conn_id c; conn_display := conn_display c;
     conn_encoder := Some enc;
     conn_possible_encoders := conn_possible_encoders c;
     conn_state := conn_state c; conn_modes := conn_modes c;
     conn_active_mode := conn_active_mode c;
     conn_crtc_id_property := conn_crtc_id_property c;
     conn_dpms_property := conn_dpms_property c |}.

Definition DrmConnector_set_active_mode (m : DrmMode) (c : DrmConnector)
  : DrmConnector :=
  {| conn_id := conn_id c; conn_display := conn_display c;
     conn_encoder := conn_encoder c;
     conn_possible_encoders := conn_possible_encoders c;
     conn_state := conn_state c; conn_modes := conn_modes c;
     conn_active_mode := m;
     conn_crtc_id_property := conn_crtc_id_property c;
     conn_dpms_property := conn_dpms_property c |}.

Definition DrmConnector_set_display (display : Z) (c : DrmConnector)
  : DrmConnector :=
  {| conn_id := conn_id c; conn_display := display;
     conn_encoder := conn_encoder c;
     conn_possible_encoders := conn_possible_encoders c;
     conn_state := conn_state c; conn_modes := conn_modes c;
     conn_active_mode := conn_active_mode c;
     conn_crtc_id_property := conn_crtc_id_property c;
     conn_dpms_property := conn_dpms_property c |}.

Definition set_display (crtc : nat) (display : Z) (st : DrmResources)
  : DrmResources :=
  {| crtcs_ := alter (DrmCrtc_set_display display) crtc (crtcs_ st);
     encoders_ := encoders_ st; connectors_ := connectors_ st;
     planes_ := planes_ st |}.

Definition set_crtc (enc crtc : nat) (st : DrmResources) : DrmResources :=
  {| crtcs_ := crtcs_ st;
     encoders_ := alter (DrmEncoder_set_crtc crtc) enc (encoders_ st);
     connectors_ := connectors_ st; planes_ := planes_ st |}.

Definition set_encoder (conn enc : nat) (st : DrmResources) : DrmResources :=
  {| crtcs_ := crtcs_ st; encoders_ := encoders_ st;
     connectors_ :=
       alter (DrmConnector_set_encoder enc) conn (connectors_ st);
     planes_ := planes_ st |}.

Definition set_active_mode (conn : nat) (m : DrmMode) (st : DrmResources)
  : DrmResources :=
  {| crtcs_ := crtcs_ st; encoders_ := encoders_ st;
     connectors_ :=
       alter (DrmConnector_set_active_mode m) conn (connectors_ st);
     planes_ := planes_ st |}.

(** ** drmresources.cpp: queries *)

Fixpoint find_index {A} (p : A → bool) (l : list A) (i : nat) : option nat :=
  match l with
  | [] => None
  | x :: l' => if p x then Some i else find_index p l' (S i)
  end.

Definition GetConnectorForDisplay (st : DrmResources) (display : Z)
  : option nat :=
  find_index (λ conn, bool_decide (conn_display conn = display))
             (connectors_ st) 0.

Definition GetCrtcForDisplay (st : DrmResources) (display : Z) : option nat :=
  find_index (λ crtc, bool_decide (crtc_display crtc = Some display))
             (crtcs_ st) 0.

Definition GetPlane (st : DrmResources) (id : Z) : option nat :=
  find_index (λ plane, bool_decide (plane_id plane = id)) (planes_ st) 0.

(** The loop of [GetPrimaryPlaneForCrtc]: no [break], so a later match
    overwrites [primary_plane]. *)
Fixpoint primary_plane_loop (crtc : DrmCrtc) (planes : list DrmPlane)
    (i : nat) (primary_plane : option nat) : option nat :=
  match planes with
  | [] => primary_plane
  | plane :: rest =>
      primary_plane_loop crtc rest (S i)
        (if (plane_type plane =? DRM_PLANE_TYPE_PRIMARY)
            && GetCrtcSupported plane crtc
         then Some i else primary_plane)
  end.

Definition GetPrimaryPlaneForCrtc (st : DrmResources) (crtc : DrmCrtc)
  : option nat :=
  primary_plane_loop crtc (planes_ st) 0 None.

(** ** drmresources.cpp: the binding resolver *)

(** The [for] loop of [TryEncoderForDisplay] over [enc->possible_crtcs()];
    [ei] is the pointer [enc] and [enc] the encoder it points to, which the
    loop does not change before it returns. *)
Fixpoint try_possible_crtcs (display : Z) (ei : nat) (enc : DrmEncoder)
    (possible : list nat) (st : DrmResources) : option (Z * DrmResources) :=
  match possible with
  | [] => Some (- EAGAIN, st)
  | ci :: rest =>
      if decide (Some ci = enc_crtc enc)
      then try_possible_crtcs display ei enc rest st
      else
        crtc ← crtcs_ st !! ci;
        if can_bind crtc display
        then Some (0, set_display ci display (set_crtc ei ci st))
        else try_possible_crtcs display ei enc rest st
  end.

Definition TryEncoderForDisplay (display : Z) (ei : nat) (st : DrmResources)
  : option (Z * DrmResources) :=
  enc ← encoders_ st !! ei;
  let loop := try_possible_crtcs display ei enc (enc_possible_crtcs enc) st in
  match enc_crtc enc with
  | Some ci =>
      crtc ← crtcs_ st !! ci;
      if can_bind crtc display
      then Some (0, set_display ci display st)
      else loop
  | None => loop
  end.

(** The [for] loop of [CreateDisplayPipe] over
    [connector->possible_encoders()]. *)
Fixpoint try_possible_encoders (display : Z) (ki : nat)
    (possible : list nat) (st : DrmResources) : option (Z * DrmResources) :=
  match possible with
  | [] => Some (- ENODEV, st)
  | ei :: rest =>
      '(ret, st') ← TryEncoderForDisplay display ei st;
      if ret =? 0 then Some (0, set_encoder ki ei st')
      else if negb (ret =? - EAGAIN) then Some (ret, st')
      else try_possible_encoders display ki rest st'
  end.

Definition CreateDisplayPipe (ki : nat) (st : DrmResources)
  : option (Z * DrmResources) :=
  connector ← connectors_ st !! ki;
  let display := conn_display connector in
  let loop st :=
    try_possible_encoders display ki (conn_possible_encoders connector) st in
  match conn_encoder connector with
  | Some ei =>
      '(ret, st') ← TryEncoderForDisplay display ei st;
      if ret =? 0 then Some (0, st')
      else if negb (ret =? - EAGAIN) then Some (ret, st')
      else loop st'
  | None => loop st
  end.

(** ** drmresources.cpp: discovery ([DrmResources::Init]) *)

(** What the kernel lists.  A [None] in a list is a [drmModeGet...] call
    that returned NULL.  The [..._init] fields are the status of the node's
    own [Init()] (property discovery), whose source is not part of src/. *)

Record drmModeCrtc := {
  k_crtc_id : Z;
  k_crtc_init : Z;
  k_crtc_mode_property : Z;
}.

Record drmModeEncoder := {
  k_encoder_id : Z;
  k_enc_crtc_id : Z;
  k_enc_possible_crtcs : Z;
}.

Record drmModeConnector := {
  k_connector_id : Z;
  k_conn_encoder_id : Z;
  k_conn_encoders : list Z;
  k_conn_init : Z;
  k_conn_connection : drmModeConnection;
  k_conn_modes : list DrmMode;
  k_conn_crtc_id_property : Z;
  k_conn_dpms_property : Z;
}.

Record drmModePlane := {
  k_plane : DrmPlane;
  k_plane_init : Z;
}.

Record drmModeRes := {
  res_crtcs : list (option drmModeCrtc);
  res_encoders : list (option drmModeEncoder);
  res_connectors : list (option drmModeConnector);
}.

Record drm_device := {
  dev_open : Z;                      (* open("/dev/dri/card0") *)
  dev_cap_universal_planes : Z;      (* drmSetClientCap, first call *)
  dev_cap_atomic : Z;                (* drmSetClientCap, second call *)
  dev_resources : option drmModeRes; (* drmModeGetResources *)
  dev_plane_resources : option (list (option drmModePlane));
  dev_event_listener_init : Z;       (* event_listener_.Init() *)
}.

Definition no_resources : DrmResources :=
  {| crtcs_ := []; encoders_ := []; connectors_ := []; planes_ := [] |}.

(** [new DrmCrtc(this, c, i)]: pipe [i], bound to no display. *)
Definition new_DrmCrtc (c : drmModeCrtc) (pipe : nat) : DrmCrtc :=
  {| crtc_id := k_crtc_id c; crtc_pipe := pipe; crtc_display := None;
     crtc_mode_property := k_crtc_mode_property c |}.

Fixpoint init_crtcs (l : list (option drmModeCrtc)) (i : nat)
    (crtcs : list DrmCrtc) : Z * list DrmCrtc :=
  match l with
  | [] => (0, crtcs)
  | None :: _ => (- ENODEV, crtcs)
  | Some c :: rest =>
      if negb (k_crtc_init c =? 0) then (k_crtc_init c, crtcs)
      else init_crtcs rest (S i) (crtcs ++ [new_DrmCrtc c i])
  end.

(** The inner loop of the encoder pass, over [crtcs_]; [i] is the pointer
    to the crtc at hand.  [1 << crtc->pipe()] is a shift of a C [int],
    defined for pipes below 31; the model shifts in [Z]. *)
Fixpoint encoder_crtcs (e : drmModeEncoder) (crtcs : list DrmCrtc) (i : nat)
    (possible_crtcs : list nat) (current_crtc : option nat)
  : list nat * option nat :=
  match crtcs with
  | [] => (possible_crtcs, current_crtc)
  | crtc :: rest =>
      encoder_crtcs e rest (S i)
        (if negb (Z.land (Z.shiftl 1 (Z.of_nat (crtc_pipe crtc)))
                         (k_enc_possible_crtcs e) =? 0)
         then possible_crtcs ++ [i] else possible_crtcs)
        (if crtc_id crtc =? k_enc_crtc_id e then Some i else current_crtc)
  end.

Definition new_DrmEncoder (e : drmModeEncoder) (current_crtc : option nat)
    (possible_crtcs : list nat) : DrmEncoder :=
  {| enc_id := k_encoder_id e; enc_crtc := current_crtc;
     enc_possible_crtcs := possible_crtcs |}.

Fixpoint init_encoders (crtcs : list DrmCrtc)
    (l : list (option drmModeEncoder)) (encoders : list DrmEncoder)
  : Z * list DrmEncoder :=
  match l with
  | [] => (0, encoders)
  | None :: _ => (- EINVAL, encoders)
  | Some e :: rest =>
      let '(possible_crtcs, current_crtc) :=
        encoder_crtcs e crtcs 0 [] None in
      init_encoders crtcs rest
        (encoders ++ [new_DrmEncoder e current_crtc possible_crtcs])
  end.

(** The two nested loops of the connector pass: [j] over [c->encoders],
    then every encoder of [encoders_]. *)
Fixpoint connector_encoders_of (c : drmModeConnector) (enc_j : Z)
    (encoders : list DrmEncoder) (i : nat)
    (possible_encoders : list nat) (current_encoder : option nat)
  : list nat * option nat :=
  match encoders with
  | [] => (possible_encoders, current_encoder)
  | encoder :: rest =>
      connector_encoders_of c enc_j rest (S i)
        (if enc_id encoder =? enc_j
         then possible_encoders ++ [i] else possible_encoders)
        (if enc_id encoder =? k_conn_encoder_id c
         then Some i else current_encoder)
  end.

Fixpoint connector_encoders (c : drmModeConnector) (js : list Z)
    (encoders : list DrmEncoder)
    (possible_encoders : list nat) (current_encoder : option nat)
  : list nat * option nat :=
  match js with
  | [] => (possible_encoders, current_encoder)
  | enc_j :: rest =>
      let '(possible_encoders, current_encoder) :=
        connector_encoders_of c enc_j encoders 0
                              possible_encoders current_encoder in
      connector_encoders c rest encoders possible_encoders current_encoder
  end.

Definition new_DrmConnector (c : drmModeConnector)
    (current_encoder : option nat) (possible_encoders : list nat)
  : DrmConnector :=
  {| conn_id := k_connector_id c; conn_display := -1;
     conn_encoder := current_encoder;
     conn_possible_encoders := possible_encoders;
     conn_state := k_conn_connection c; conn_modes := k_conn_modes c;
     conn_active_mode := DrmMode_default;
     conn_crtc_id_property := k_conn_crtc_id_property c;
     conn_dpms_property := k_conn_dpms_property c |}.

Fixpoint init_connectors (encoders : list DrmEncoder)
    (l : list (option drmModeConnector)) (found_primary : bool)
    (display_num : Z) (connectors : list DrmConnector)
  : Z * list DrmConnector :=
  match l with
  | [] => (0, connectors)
  | None :: _ => (- ENODEV, connectors)
  | Some c :: rest =>
      let '(possible_encoders, current_encoder) :=
        connector_encoders c (k_conn_encoders c) encoders [] None in
      let conn := new_DrmConnector c current_encoder possible_encoders in
      if negb (k_conn_init c =? 0) then (k_conn_init c, connectors)
      else if negb found_primary
      then init_connectors encoders rest true display_num
             (connectors ++ [DrmConnector_set_display 0 conn])
      else init_connectors encoders rest found_primary (display_num + 1)
             (connectors ++ [DrmConnector_set_display display_num conn])
  end.

Fixpoint init_planes (l : list (option drmModePlane))
    (planes : list DrmPlane) : Z * list DrmPlane :=
  match l with
  | [] => (0, planes)
  | None :: _ => (- ENODEV, planes)
  | Some p :: rest =>
      if negb (k_plane_init p =? 0) then (k_plane_init p, planes)
      else init_planes rest (planes ++ [k_plane p])
  end.

(** The last loop of [Init]: one [CreateDisplayPipe] per connector, in
    order, stopping at the first failure. *)
Fixpoint create_display_pipes (conns : list nat) (st : DrmResources)
  : option (Z * DrmResources) :=
  match conns with
  | [] => Some (0, st)
  | ki :: rest =>
      '(ret, st') ← CreateDisplayPipe ki st;
      if negb (ret =? 0) then Some (ret, st')
      else create_display_pipes rest st'
  end.

Definition Init (dev : drm_device) : option (Z * DrmResources) :=
  if dev_open dev <? 0 then Some (- ENODEV, no_resources)
  else if negb (dev_cap_universal_planes dev =? 0)
  then Some (dev_cap_universal_planes dev, no_resources)
  else if negb (dev_cap_atomic dev =? 0)
  then Some (dev_cap_atomic dev, no_resources)
  else
    match dev_resources dev with
    | None => Some (- ENODEV, no_resources)
    | Some res =>
        let '(ret, crtcs) := init_crtcs (res_crtcs res) 0 [] in
        let '(ret, encoders) :=
          if ret =? 0 then init_encoders crtcs (res_encoders res) []
          else (ret, []) in
        let '(ret, connectors) :=
          if ret =? 0
          then init_connectors encoders (res_connectors res) false 1 []
          else (ret, []) in
        let st planes :=
          {| crtcs_ := crtcs; encoders_ := encoders;
             connectors_ := connectors; planes_ := planes |} in
        if negb (ret =? 0) then Some (ret, st [])
        else
          match dev_plane_resources dev with
          | None => Some (- ENOENT, st [])
          | Some plane_res =>
              let '(ret, planes) := init_planes plane_res [] in
              if negb (ret =? 0) then Some (ret, st planes)
              else if negb (dev_event_listener_init dev =? 0)
              then Some (dev_event_listener_init dev, st planes)
              else create_display_pipes (seq 0 (length connectors))
                                        (st planes)
          end
    end.

(** ** The binding algorithm in the words of the specification

    First fit: the Output's bound Encoder first, then its legal Encoders in
    listing order; within an Encoder its current controller first, then its
    legal controllers in listing order; the first controller that can serve
    the display wins. *)

Definition usable (st : DrmResources) (display : Z) (ci : nat) : bool :=
  match crtcs_ st !! ci with
  | Some crtc => can_bind crtc display
  | None => false
  end.

Definition encoder_search_order (enc : DrmEncoder) : list nat :=
  option_list (enc_crtc enc) ++ enc_possible_crtcs enc.

Definition connector_search_order (conn : DrmConnector) : list nat :=
  option_list (conn_encoder conn) ++ conn_possible_encoders conn.

Definition first_fit_crtc (st : DrmResources) (display : Z) (ei : nat)
  : option nat :=
  enc ← encoders_ st !! ei;
  List.find (usable st display) (encoder_search_order enc).

Fixpoint first_fit (st : DrmResources) (display : Z) (encs : list nat)
  : option (nat * nat) :=
  match encs with
  | [] => None
  | ei :: rest =>
      match first_fit_crtc st display ei with
      | Some ci => Some (ei, ci)
      | None => first_fit st display rest
      end
  end.

Definition bind_pipe (ki ei ci : nat) (display : Z) (st : DrmResources)
  : DrmResources :=
  set_encoder ki ei (set_display ci display (set_crtc ei ci st)).

Definition first_fit_binding (ki : nat) (st : DrmResources)
  : option (Z * DrmResources) :=
  conn ← connectors_ st !! ki;
  Some match first_fit st (conn_display conn) (connector_search_order conn)
       with
       | Some (ei, ci) => (0, bind_pipe ki ei ci (conn_display conn) st)
       | None => (- ENODEV, st)
       end.

(** ** Invariants of the resource graph *)

(** Every pointer stored in the graph points into its vector. *)
Definition wf_resources (st : DrmResources) : Prop :=
  (∀ ei e, encoders_ st !! ei = Some e →
     (∀ ci, enc_crtc e = Some ci → (ci < length (crtcs_ st))%nat) ∧
     (∀ ci, ci ∈ enc_possible_crtcs e → (ci < length (crtcs_ st))%nat)) ∧
  (∀ ki c, connectors_ st !! ki = Some c →
     (∀ ei, conn_encoder c = Some ei → (ei < length (encoders_ st))%nat) ∧
     (∀ ei, ei ∈ conn_possible_encoders c →
            (ei < length (encoders_ st))%nat)).

(** The current controller of an Encoder is one of its legal controllers,
    and the bound Encoder of an Output one of its legal Encoders. *)
Definition legal_bindings (st : DrmResources) : Prop :=
  (∀ ei e ci, encoders_ st !! ei = Some e → enc_crtc e = Some ci →
     ci ∈ enc_possible_crtcs e) ∧
  (∀ ki c ei, connectors_ st !! ki = Some c → conn_encoder c = Some ei →
     ei ∈ conn_possible_encoders c).

(** No two Outputs share a logical display index. *)
Definition distinct_displays (st : DrmResources) : Prop :=
  ∀ k1 k2 c1 c2,
    connectors_ st !! k1 = Some c1 → connectors_ st !! k2 = Some c2 →
    conn_display c1 = conn_display c2 → k1 = k2.

(** A controller that serves the display of an Output is a legal
    controller of the Encoder bound to that Output, which is one of the
    Output's legal Encoders. *)
Definition pipelines_legal (st : DrmResources) : Prop :=
  ∀ ki conn ci crtc,
    connectors_ st !! ki = Some conn → crtcs_ st !! ci = Some crtc →
    crtc_display crtc = Some (conn_display conn) →
    ∃ ei e, conn_encoder conn = Some ei ∧
            ei ∈ conn_possible_encoders conn ∧
            encoders_ st !! ei = Some e ∧
            ci ∈ enc_possible_crtcs e.

(** A controller serves at most one Output. *)
Definition crtc_serves_one (st : DrmResources) : Prop :=
  ∀ ci crtc k1 k2 c1 c2,
    crtcs_ st !! ci = Some crtc →
    connectors_ st !! k1 = Some c1 → connectors_ st !! k2 = Some c2 →
    crtc_display crtc = Some (conn_display c1) →
    crtc_display crtc = Some (conn_display c2) → k1 = k2.

(** The pipeline of an Output is bound: a controller serves its display. *)
Definition served (st : DrmResources) (conn : DrmConnector) : Prop :=
  ∃ ci crtc, crtcs_ st !! ci = Some crtc ∧
             crtc_display crtc = Some (conn_display conn).

(** A controller that serves a display in [st] still serves it in [st']. *)
Definition keeps_served (st st' : DrmResources) : Prop :=
  ∀ ci crtc d, crtcs_ st !! ci = Some crtc → crtc_display crtc = Some d →
    ∃ crtc', crtcs_ st' !! ci = Some crtc' ∧ crtc_display crtc' = Some d.

Definition binding_inv (st : DrmResources) : Prop :=
  wf_resources st ∧ legal_bindings st ∧ distinct_displays st ∧
  pipelines_legal st.

(** What [Init] needs of the kernel's listing for [legal_bindings] to hold
    of the graph it builds: the crtc an encoder is reported to drive is one
    of its possible crtcs, and the encoder a connector is reported to use
    is one of the encoders listed for it. *)
Definition kernel_consistent (res : drmModeRes) : Prop :=
  (∀ e i c, Some e ∈ res_encoders res →
     res_crtcs res !! i = Some (Some c) →
     k_crtc_id c = k_enc_crtc_id e →
     Z.land (Z.shiftl 1 (Z.of_nat i)) (k_enc_possible_crtcs e) ≠ 0) ∧
  (∀ c e, Some c ∈ res_connectors res → Some e ∈ res_encoders res →
     k_encoder_id e = k_conn_encoder_id c →
     k_conn_encoder_id c ∈ k_conn_encoders c).

(** Binding-resolver calls after initialization (hotplug re-configuration),
    whatever they return. *)
Fixpoint resolver_calls (conns : list nat) (st : DrmResources)
  : option DrmResources :=
  match conns with
  | [] => Some st
  | ki :: rest =>
      '(_, st') ← CreateDisplayPipe ki st;
      resolver_calls rest st'
  end.

(** ** The kernel, the importer and the compositor, as seen by the code

    Every call that leaves the repository is recorded in [calls], oldest
    first.  What a call returns is decided by the [Kernel] of the world
    from the calls issued so far, the one at hand included: [k_ret] is the
    returned status, [k_out] the value written through an out-parameter
    (a blob id, a framebuffer id) or a returned pointer, [k_conn] what
    [drmModeGetConnector] reports. *)

Record hwc_drm_bo := {
  bo_fb_id : Z;
  bo_priv : Z;          (* the buffer handle it was imported from *)
}.

Inductive Call :=
| drmModeAtomicAlloc
| drmModeAtomicAddProperty (pset : Z) (obj prop value : Z)
| drmModeAtomicCommit (pset : Z) (props : list (Z * Z * Z)) (flags : Z)
| drmModeAtomicFree (pset : Z)
| DRM_IOCTL_MODE_CREATEPROPBLOB (mode : DrmMode)
| DRM_IOCTL_MODE_DESTROYPROPBLOB (blob_id : Z)
| drmModeConnectorSetProperty (conn prop value : Z)
| drmModeGetConnector (conn : Z)
| ImportBuffer (handle : Z)
| ReleaseBuffer (bo : hwc_drm_bo)
| sync_wait (fd : Z)
| close (fd : Z)
| hotplug (display : Z) (connected : Z).

Record Kernel := {
  k_ret : list Call → Z;
  k_out : list Call → Z;
  k_conn : list Call → drmModeConnection * list DrmMode;
}.

Record hwc_drm_display := {
  hd_bo : list (option hwc_drm_bo);     (* bo[NUM_FB_BUFFERS] *)
  hd_active_mode : DrmMode;
  hd_needs_modeset : bool;
  hd_blob_id : Z;
  hd_old_blob_id : Z;
}.

Record World := {
  kernel : Kernel;
  calls : list Call;
  displays : gmap Z hwc_drm_display;    (* ctx->displays *)
  drm : DrmResources;                   (* ctx->drm *)
}.

(** A transaction under construction: the pointer [drmModeAtomicAlloc]
    returned and the properties added so far, oldest first. *)
Record drmModeAtomicReq := {
  pset_ptr : Z;
  pset_items : list (Z * Z * Z);
}.

Record hwc_rect := {
  rect_left : Z;
  rect_top : Z;
  rect_right : Z;
  rect_bottom : Z;
}.

Record hwc_layer_1 := {
  layer_handle : Z;                     (* 0 is the null handle *)
  layer_displayFrame : hwc_rect;
  layer_acquireFenceFd : Z;
}.

(** ** A state monad with early [return]

    [Next a] goes on with [a]; [Return r] leaves the function with [r];
    [Undefined] is undefined behaviour of the C++ code (a dangling pointer,
    [front()] of an empty container). *)

Inductive outcome (R A : Type) :=
| Next (a : A)
| Return (r : R)
| Undefined.
Arguments Next {R A} a.
Arguments Return {R A} r.
Arguments Undefined {R A}.

Definition M (R A : Type) : Type := World → outcome R A * World.

Definition pure {R A} (a : A) : M R A := λ w, (Next a, w).

Definition bind {R A B} (m : M R A) (f : A → M R B) : M R B :=
  λ w, match m w with
       | (Next a, w') => f a w'
       | (Return r, w') => (Return r, w')
       | (Undefined, w') => (Undefined, w')
       end.

Definition return_ {R A} (r : R) : M R A := λ w, (Return r, w).

Definition undefined {R A} : M R A := λ w, (Undefined, w).

Global Instance M_ret {R} : MRet (M R) := λ A, pure.
Global Instance M_bind {R} : MBind (M R) := λ A B f m, bind m f.

(** [if (cond) { ...; return r; }]: [m] ends in a [return_]. *)
Definition when {R} (cond : bool) (m : M R unit) : M R unit :=
  if cond then m else pure ().

(** Calling a function of the repository: its [Return r] is the value of
    the call. *)
Definition invoke {R R'} (f : M R R) : M R' R :=
  λ w, match f w with
       | (Next r, w') | (Return r, w') => (Next r, w')
       | (Undefined, w') => (Undefined, w')
       end.

Definition set_calls (h : list Call) (w : World) : World :=
  {| kernel := kernel w; calls := h; displays := displays w; drm := drm w |}.

Definition set_displays (d : gmap Z hwc_drm_display) (w : World) : World :=
  {| kernel := kernel w; calls := calls w; displays := d; drm := drm w |}.

Definition set_drm (st : DrmResources) (w : World) : World :=
  {| kernel := kernel w; calls := calls w; displays := displays w;
     drm := st |}.

(** An external call that returns a status. *)
Definition call {R} (c : Call) : M R Z :=
  λ w, let h := calls w ++ [c] in (Next (k_ret (kernel w) h), set_calls h w).

(** An external call that returns a status and writes an out-parameter. *)
Definition call_out {R} (c : Call) : M R (Z * Z) :=
  λ w, let h := calls w ++ [c] in
       (Next (k_ret (kernel w) h, k_out (kernel w) h), set_calls h w).

Definition get_drm {R} : M R DrmResources := λ w, (Next (drm w), w).

Definition put_drm {R} (st : DrmResources) : M R unit :=
  λ w, (Next (), set_drm st w).

(** [*p] for a pointer into a vector. *)
Definition deref {R A} (l : list A) (p : nat) : M R A :=
  match l !! p with
  | Some x => pure x
  | None => undefined
  end.

(** ** drmresources.cpp: blobs, the mode-set path, DPMS *)

(** [blob_id] is what the caller's [*blob_id] holds before the call; the
    second component of the result is what it holds after. *)
Definition CreatePropertyBlob {R} (mode : DrmMode) (blob_id : Z)
  : M R (Z * Z) :=
  '(ret, id) ← call_out (DRM_IOCTL_MODE_CREATEPROPBLOB mode);
  if negb (ret =? 0) then mret (ret, blob_id) else mret (0, id).

Definition DestroyPropertyBlob (blob_id : Z) : M Z Z :=
  when (blob_id =? 0) (return_ 0);;
  ret ← call (DRM_IOCTL_MODE_DESTROYPROPBLOB blob_id);
  when (negb (ret =? 0)) (return_ ret);;
  return_ 0.

(** [drmModeAtomicAddProperty]: a negative status leaves the transaction
    as it was. *)
Definition AddProperty {R} (pset : drmModeAtomicReq) (obj prop value : Z)
  : M R (Z * drmModeAtomicReq) :=
  ret ← call (drmModeAtomicAddProperty (pset_ptr pset) obj prop value);
  mret (ret,
        if ret <? 0 then pset
        else {| pset_ptr := pset_ptr pset;
                pset_items := pset_items pset ++ [(obj, prop, value)] |}).

Definition AtomicAlloc {R} : M R drmModeAtomicReq :=
  '(_, p) ← call_out drmModeAtomicAlloc;
  mret {| pset_ptr := p; pset_items := [] |}.

Definition AtomicCommit {R} (pset : drmModeAtomicReq) (flags : Z) : M R Z :=
  call (drmModeAtomicCommit (pset_ptr pset) (pset_items pset) flags).

Definition AtomicFree {R} (pset : drmModeAtomicReq) : M R unit :=
  call (drmModeAtomicFree (pset_ptr pset));; mret ().

(** [p = Get...(); if (!p) return r;] *)
Definition or_return {R A} (o : option A) (r : R) : M R A :=
  match o with
  | Some a => mret a
  | None => return_ r
  end.

Definition SetDisplayActiveMode (display : Z) (mode : DrmMode) : M Z Z :=
  st ← get_drm;
  ki ← or_return (GetConnectorForDisplay st display) (- ENODEV);
  connector ← deref (connectors_ st) ki;
  ci ← or_return (GetCrtcForDisplay st display) (- ENODEV);
  crtc ← deref (crtcs_ st) ci;
  pset ← AtomicAlloc;
  when (pset_ptr pset =? 0) (return_ (- ENOMEM));;
  '(ret, id) ← CreatePropertyBlob mode 0;
  (* TODO: DestroyPropertyBlob(id); *)
  when (negb (ret =? 0)) (return_ ret);;
  '(ret1, pset) ← AddProperty pset (crtc_id crtc) (crtc_mode_property crtc) id;
  '(ret, pset) ←
    (if ret1 <? 0 then mret (1, pset)
     else
       '(ret2, pset) ← AddProperty pset (conn_id connector)
                          (conn_crtc_id_property connector) (crtc_id crtc);
       mret (if ret2 <? 0 then 1 else 0, pset));
  when (negb (ret =? 0)) (AtomicFree pset;; return_ ret);;
  ret ← AtomicCommit pset DRM_MODE_ATOMIC_ALLOW_MODESET;
  when (negb (ret =? 0)) (AtomicFree pset;; return_ ret);;
  when (negb (pset_ptr pset =? 0)) (AtomicFree pset);;
  st ← get_drm;
  put_drm (set_active_mode ki mode st);;
  return_ 0.

Definition SetDpmsMode (display : Z) (mode : Z) : M Z Z :=
  st ← get_drm;
  ki ← or_return (GetConnectorForDisplay st display) (- ENODEV);
  conn ← deref (connectors_ st) ki;
  ret ← call (drmModeConnectorSetProperty (conn_id conn)
                (conn_dpms_property conn) mode);
  when (negb (ret =? 0)) (return_ ret);;
  return_ 0.

(** Modelled from the spec: [DrmConnector::UpdateModes] (drmconnector.cpp
    is not part of src/): on hotplug the connection state and the mode list
    of the Output are read again from the kernel. *)
Definition DrmConnector_update (state : drmModeConnection)
    (modes : list DrmMode) (c : DrmConnector) : DrmConnector :=
  {| conn_id := conn_id c; conn_display := conn_display c;
     conn_encoder := conn_encoder c;
     conn_possible_encoders := conn_possible_encoders c;
     conn_state := state; conn_modes := modes;
     conn_active_mode := conn_active_mode c;
     conn_crtc_id_property := conn_crtc_id_property c;
     conn_dpms_property := conn_dpms_property c |}.

Definition update_connector (ki : nat) (state : drmModeConnection)
    (modes : list DrmMode) (st : DrmResources) : DrmResources :=
  {| crtcs_ := crtcs_ st; encoders_ := encoders_ st;
     connectors_ := alter (DrmConnector_update state modes) ki
                          (connectors_ st);
     planes_ := planes_ st |}.

Definition read_connector {R} (ki : nat) : M R unit :=
  λ w, let '(state, modes) := k_conn (kernel w) (calls w) in
       (Next (), set_drm (update_connector ki state modes (drm w)) w).

Definition UpdateModes {R} (ki : nat) : M R Z :=
  st ← get_drm;
  conn ← deref (connectors_ st) ki;
  ret ← call (drmModeGetConnector (conn_id conn));
  if negb (ret =? 0) then mret (- ENODEV)
  else read_connector ki;; mret 0.

(** An [int] passed as the [uint64_t value] of a property. *)
Definition to_u64 (v : Z) : Z := v mod 2 ^ 64.

(** ** hwcomposer.cpp *)

Definition hd_set_bo (bo : list (option hwc_drm_bo)) (hd : hwc_drm_display)
  : hwc_drm_display :=
  {| hd_bo := bo; hd_active_mode := hd_active_mode hd;
     hd_needs_modeset := hd_needs_modeset hd; hd_blob_id := hd_blob_id hd;
     hd_old_blob_id := hd_old_blob_id hd |}.

(** [hd->needs_modeset = true; hd->blob_id = id; hd->active_mode = mode;] *)
Definition hd_request_modeset (id : Z) (mode : DrmMode)
    (hd : hwc_drm_display) : hwc_drm_display :=
  {| hd_bo := hd_bo hd; hd_active_mode := mode; hd_needs_modeset := true;
     hd_blob_id := id; hd_old_blob_id := hd_old_blob_id hd |}.

(** [hd->old_blob_id = hd->blob_id; hd->needs_modeset = false;] *)
Definition hd_modeset_done (hd : hwc_drm_display) : hwc_drm_display :=
  {| hd_bo := hd_bo hd; hd_active_mode := hd_active_mode hd;
     hd_needs_modeset := false; hd_blob_id := hd_blob_id hd;
     hd_old_blob_id := hd_blob_id hd |}.

(** The first loop of the frame path: the slot that holds the buffer
    imported from [handle], if there is one. *)
Fixpoint find_bo (bo : list (option hwc_drm_bo)) (handle : Z)
  : option hwc_drm_bo :=
  match bo with
  | [] => None
  | Some b :: rest =>
      if bo_priv b =? handle then Some b else find_bo rest handle
  | None :: rest => find_bo rest handle
  end.

(** The second loop: [b] goes into the first empty slot, if there is one. *)
Fixpoint insert_bo (bo : list (option hwc_drm_bo)) (b : hwc_drm_bo)
  : list (option hwc_drm_bo) :=
  match bo with
  | [] => []
  | None :: rest => Some b :: rest
  | Some x :: rest => Some x :: insert_bo rest b
  end.

Definition preferred (m : DrmMode) : bool :=
  negb (Z.land (mode_type m) DRM_MODE_TYPE_PREFERRED =? 0).

Section hwcomposer.

(** The number of slots of the frame-buffer cache of a display; the header
    that defines it is not part of src/. *)
Variable NUM_FB_BUFFERS : nat.

(** [ctx->displays[display]]: [std::map::operator[]] creates the entry,
    value-initialised, when the map has none. *)
Definition hwc_drm_display_zero : hwc_drm_display :=
  {| hd_bo := replicate NUM_FB_BUFFERS None;
     hd_active_mode := DrmMode_default; hd_needs_modeset := false;
     hd_blob_id := 0; hd_old_blob_id := 0 |}.

Definition display_at (w : World) (display : Z) : hwc_drm_display :=
  default hwc_drm_display_zero (displays w !! display).

Definition get_hd {R} (display : Z) : M R hwc_drm_display :=
  λ w, let hd := display_at w display in
       (Next hd, set_displays (<[display := hd]> (displays w)) w).

Definition put_hd {R} (display : Z) (hd : hwc_drm_display) : M R unit :=
  λ w, (Next (), set_displays (<[display := hd]> (displays w)) w).

Definition hwc_set_display_active_mode (display : Z) (mode : DrmMode)
  : M Z Z :=
  st ← get_drm;
  ki ← or_return (GetConnectorForDisplay st display) (- ENODEV);
  hd ← get_hd display;
  '(ret, id) ← CreatePropertyBlob mode 0;
  when (negb (ret =? 0)) (return_ ret);;
  put_hd display (hd_request_modeset id mode hd);;
  put_drm (set_active_mode ki mode st);;
  return_ 0.

Fixpoint release_all {R} (bo : list (option hwc_drm_bo))
  : M R (list (option hwc_drm_bo)) :=
  match bo with
  | [] => mret []
  | None :: rest => bo' ← release_all rest; mret (None :: bo')
  | Some b :: rest =>
      call (ReleaseBuffer b);;
      bo' ← release_all rest;
      mret (None :: bo')
  end.

Definition hwc_release_display (display : Z) : M unit unit :=
  hd ← get_hd display;
  bo ← release_all (hd_bo hd);
  put_hd display (hd_set_bo bo hd);;
  return_ ().

(** The frame path.  [hd] is a pointer in the source; the model reads the
    display again after the cache was written.  The [int] coordinates of
    the frame are passed as [uint64_t] property values. *)

Definition Render (id_ : Z) (displayFrame_ : hwc_rect) (handle : Z)
  : M Z Z :=
  hd ← get_hd id_;
  bo ← match find_bo (hd_bo hd) handle with
       | Some bo => mret bo
       | None =>
           '(ret, fb_id) ← call_out (ImportBuffer handle);
           when (negb (ret =? 0)) (return_ ret);;
           let bo := {| bo_fb_id := fb_id; bo_priv := handle |} in
           put_hd id_ (hd_set_bo (insert_bo (hd_bo hd) bo) hd);;
           mret bo
       end;
  st ← get_drm;
  ci ← or_return (GetCrtcForDisplay st id_) (- ENODEV);
  crtc ← deref (crtcs_ st) ci;
  pi ← or_return (GetPrimaryPlaneForCrtc st crtc) (- ENODEV);
  plane ← deref (planes_ st) pi;
  pset ← AtomicAlloc;
  when (pset_ptr pset =? 0) (return_ (- ENOMEM));;
  ki ← or_return (GetConnectorForDisplay st id_) (- ENODEV);
  connector ← deref (connectors_ st) ki;
  hd ← get_hd id_;
  pset ←
    (if hd_needs_modeset hd then
       '(ret, pset) ← AddProperty pset (crtc_id crtc)
                        (crtc_mode_property crtc) (hd_blob_id hd);
       when (ret <? 0) (AtomicFree pset;; return_ ret);;
       '(ret, pset) ← AddProperty pset (conn_id connector)
                        (conn_crtc_id_property connector) (crtc_id crtc);
       when (ret <? 0) (AtomicFree pset;; return_ ret);;
       '(ret, pset) ← AddProperty pset (plane_id plane)
                        (plane_crtc_property plane) (crtc_id crtc);
       when (ret <? 0) (return_ ret);;
       '(ret, pset) ← AddProperty pset (plane_id plane)
                        (plane_crtc_x_property plane)
                        (to_u64 (rect_left displayFrame_));
       when (ret <? 0) (return_ ret);;
       '(ret, pset) ← AddProperty pset (plane_id plane)
                        (plane_crtc_y_property plane)
                        (to_u64 (rect_top displayFrame_));
       when (ret <? 0) (return_ ret);;
       '(ret, pset) ← AddProperty pset (plane_id plane)
                        (plane_crtc_w_property plane)
                        (to_u64 (rect_right displayFrame_
                                 - rect_left displayFrame_));
       when (ret <? 0) (return_ ret);;
       '(ret, pset) ← AddProperty pset (plane_id plane)
                        (plane_crtc_h_property plane)
                        (to_u64 (rect_bottom displayFrame_
                                 - rect_top displayFrame_));
       when (ret <? 0) (return_ ret);;
       '(ret, pset) ← AddProperty pset (plane_id plane)
                        (plane_src_x_property plane)
                        (to_u64 (rect_left displayFrame_));
       when (ret <? 0) (return_ ret);;
       '(ret, pset) ← AddProperty pset (plane_id plane)
                        (plane_src_y_property plane)
                        (to_u64 (rect_top displayFrame_));
       when (ret <? 0) (return_ ret);;
       '(ret, pset) ← AddProperty pset (plane_id plane)
                        (plane_src_w_property plane)
                        (to_u64 (rect_right displayFrame_
                                 - rect_left displayFrame_));
       when (ret <? 0) (return_ ret);;
       '(ret, pset) ← AddProperty pset (plane_id plane)
                        (plane_src_h_property plane)
                        (to_u64 (rect_bottom displayFrame_
                                 - rect_top displayFrame_));
       when (ret <? 0) (return_ ret);;
       mret pset
     else mret pset);
  '(ret, pset) ← AddProperty pset (plane_id plane) (plane_fb_property plane)
                   (bo_fb_id bo);
  when (ret <? 0) (return_ ret);;
  ret ← AtomicCommit pset DRM_MODE_ATOMIC_ALLOW_MODESET;
  when (negb (ret =? 0)) (AtomicFree pset;; return_ ret);;
  AtomicFree pset;;
  if hd_needs_modeset hd then
    ret ← invoke (DestroyPropertyBlob (hd_old_blob_id hd));
    when (negb (ret =? 0)) (return_ ret);;
    st ← get_drm;
    put_drm (set_active_mode ki (hd_active_mode hd) st);;
    put_hd id_ (hd_modeset_done hd);;
    ret ← invoke (SetDpmsMode id_ DRM_MODE_DPMS_ON);
    return_ ret
  else return_ 0.

Definition render_fb (display : Z) (fb_layer : hwc_layer_1) : M Z Z :=
  hd ← get_hd display;
  when (layer_handle fb_layer =? 0) (return_ (- EINVAL));;
  bo ← match find_bo (hd_bo hd) (layer_handle fb_layer) with
       | Some bo => mret bo
       | None =>
           '(ret, fb_id) ← call_out (ImportBuffer (layer_handle fb_layer));
           when (negb (ret =? 0)) (return_ ret);;
           let bo := {| bo_fb_id := fb_id;
                        bo_priv := layer_handle fb_layer |} in
           put_hd display (hd_set_bo (insert_bo (hd_bo hd) bo) hd);;
           mret bo
       end;
  st ← get_drm;
  ci ← or_return (GetCrtcForDisplay st display) (- ENODEV);
  crtc ← deref (crtcs_ st) ci;
  pi ← or_return (GetPrimaryPlaneForCrtc st crtc) (- ENODEV);
  plane ← deref (planes_ st) pi;
  pset ← AtomicAlloc;
  when (pset_ptr pset =? 0) (return_ (- ENOMEM));;
  ki ← or_return (GetConnectorForDisplay st display) (- ENODEV);
  connector ← deref (connectors_ st) ki;
  hd ← get_hd display;
  let frame := layer_displayFrame fb_layer in
  pset ←
    (if hd_needs_modeset hd then
       '(ret, pset) ← AddProperty pset (crtc_id crtc)
                        (crtc_mode_property crtc) (hd_blob_id hd);
       when (ret <? 0) (AtomicFree pset;; return_ ret);;
       '(ret, pset) ← AddProperty pset (conn_id connector)
                        (conn_crtc_id_property connector) (crtc_id crtc);
       when (ret <? 0) (AtomicFree pset;; return_ ret);;
       '(ret, pset) ← AddProperty pset (plane_id plane)
                        (plane_crtc_property plane) (crtc_id crtc);
       when (ret <? 0) (return_ ret);;
       '(ret, pset) ← AddProperty pset (plane_id plane)
                        (plane_crtc_x_property plane)
                        (to_u64 (rect_left frame));
       when (ret <? 0) (return_ ret);;
       '(ret, pset) ← AddProperty pset (plane_id plane)
                        (plane_crtc_y_property plane)
                        (to_u64 (rect_top frame));
       when (ret <? 0) (return_ ret);;
       '(ret, pset) ← AddProperty pset (plane_id plane)
                        (plane_crtc_w_property plane)
                        (to_u64 (rect_right frame - rect_left frame));
       when (ret <? 0) (return_ ret);;
       '(ret, pset) ← AddProperty pset (plane_id plane)
                        (plane_crtc_h_property plane)
                        (to_u64 (rect_bottom frame - rect_top frame));
       when (ret <? 0) (return_ ret);;
       '(ret, pset) ← AddProperty pset (plane_id plane)
                        (plane_src_x_property plane)
                        (to_u64 (rect_left frame));
       when (ret <? 0) (return_ ret);;
       '(ret, pset) ← AddProperty pset (plane_id plane)
                        (plane_src_y_property plane)
                        (to_u64 (rect_top frame));
       when (ret <? 0) (return_ ret);;
       '(ret, pset) ← AddProperty pset (plane_id plane)
                        (plane_src_w_property plane)
                        (to_u64 (rect_right frame - rect_left frame));
       when (ret <? 0) (return_ ret);;
       '(ret, pset) ← AddProperty pset (plane_id plane)
                        (plane_src_h_property plane)
                        (to_u64 (rect_bottom frame - rect_top frame));
       when (ret <? 0) (return_ ret);;
       mret pset
     else mret pset);
  '(ret, pset) ← AddProperty pset (plane_id plane) (plane_fb_property plane)
                   (bo_fb_id bo);
  when (ret <? 0) (return_ ret);;
  when (0 <=? layer_acquireFenceFd fb_layer)
       (call (sync_wait (layer_acquireFenceFd fb_layer));; mret ());;
  ret ← AtomicCommit pset DRM_MODE_ATOMIC_ALLOW_MODESET;
  when (0 <=? layer_acquireFenceFd fb_layer)
       (call (close (layer_acquireFenceFd fb_layer));; mret ());;
  when (negb (ret =? 0)) (AtomicFree pset;; return_ ret);;
  AtomicFree pset;;
  if hd_needs_modeset hd then
    ret ← invoke (DestroyPropertyBlob (hd_old_blob_id hd));
    when (negb (ret =? 0)) (return_ ret);;
    st ← get_drm;
    put_drm (set_active_mode ki (hd_active_mode hd) st);;
    put_hd display (hd_modeset_done hd);;
    ret ← invoke (SetDpmsMode display DRM_MODE_DPMS_ON);
    return_ ret
  else return_ 0.

(** [DrmHotplugHandler::HandleEvent]: the body of the loop for the
    connector [ki], then the rest of the loop. *)
Fixpoint HandleEvent_loop (conns : list nat) : M unit unit :=
  match conns with
  | [] => mret ()
  | ki :: rest =>
      st ← get_drm;
      conn ← deref (connectors_ st) ki;
      let old_state := conn_state conn in
      UpdateModes ki;;
      st ← get_drm;
      conn ← deref (connectors_ st) ki;
      let cur_state := conn_state conn in
      if decide (cur_state = old_state) then HandleEvent_loop rest
      else
        (if decide (cur_state = DRM_MODE_CONNECTED) then
           first ← match conn_modes conn with
                   | [] => undefined
                   | m :: _ => mret m
                   end;
           let mode := default first (List.find preferred (conn_modes conn)) in
           ret ← invoke (hwc_set_display_active_mode (conn_display conn) mode);
           when (negb (ret =? 0)) (return_ ())
         else
           ret ← invoke (SetDpmsMode (conn_display conn) DRM_MODE_DPMS_OFF);
           when (negb (ret =? 0)) (return_ ());;
           when (conn_display conn =? 1)
                (invoke (hwc_release_display (conn_display conn))));;
        call (hotplug (conn_display conn)
                (if decide (cur_state = DRM_MODE_CONNECTED) then 1 else 0));;
        HandleEvent_loop rest
  end.

Definition HandleEvent (timestamp_us : Z) : M unit unit :=
  st ← get_drm;
  HandleEvent_loop (seq 0 (length (connectors_ st)));;
  return_ ().

End hwcomposer.

(** ** The frame queue of a display

    [NXQueue<T>] wraps a [std::queue<T>]: the head of the list is the front,
    the oldest entry.  [pop()] of an empty [std::queue] is undefined
    behaviour ([None]).  [dequeue()] returns a reference to the front
    element after popping it; the model returns the value that element
    had.  The model is sequential: [Signal()] and the mutex of [NXQueue]
    have no counterpart. *)

Definition NXQueue_queue {T} (item : T) (q : list T) : list T := q ++ [item].

Definition NXQueue_pop {T} (q : list T) : option (list T) :=
  match q with
  | [] => None
  | _ :: q' => Some q'
  end.

Definition NXQueue_size {T} (q : list T) : Z := Z.of_nat (length q).

Definition NXQueue_isEmpty {T} (q : list T) : bool :=
  match q with
  | [] => true
  | _ => false
  end.

Inductive queue_op :=
| OpQueueFB (buffer : Z)
| OpDequeueFB
| OpQueueFD (fd : Z)
| OpDequeueFD.

(** [RenderWorker] of src/renderworker.h. *)
Module renderworker_h.

Record RenderWorker := {
  id_ : Z;
  queue_ : list Z;
}.

Definition set_queue (q : list Z) (rw : RenderWorker) : RenderWorker :=
  {| id_ := id_ rw; queue_ := q |}.

Definition QueueFB (buffer : Z) (rw : RenderWorker) : option RenderWorker :=
  let q := NXQueue_queue buffer (queue_ rw) in
  if 2 <=? NXQueue_size q
  then q' ← NXQueue_pop q; Some (set_queue q' rw)
  else Some (set_queue q rw).

(** The returned handle is 0 ([NULL]) when the queue is empty. *)
Definition DequeueFB (rw : RenderWorker) : Z * RenderWorker :=
  match queue_ rw with
  | [] => (0, rw)
  | item :: q' => (item, set_queue q' rw)
  end.

(** A run of queue operations; the dequeued handles are dropped. *)
Fixpoint run (ops : list queue_op) (rw : RenderWorker)
  : option RenderWorker :=
  match ops with
  | [] => Some rw
  | OpQueueFB buffer :: rest => rw' ← QueueFB buffer rw; run rest rw'
  | OpDequeueFB :: rest => run rest (DequeueFB rw).2
  | _ :: rest => run rest rw
  end.

End renderworker_h.

(** [RenderWorker] of src/unnamed/part_000, the variant with [queue_fd_]. *)
Module part_000.

Record RenderWorker := {
  id_ : Z;
  queue_ : list Z;
  queue_fd_ : list Z;
}.

Definition set_queue (q : list Z) (rw : RenderWorker) : RenderWorker :=
  {| id_ := id_ rw; queue_ := q; queue_fd_ := queue_fd_ rw |}.

Definition set_queue_fd (q : list Z) (rw : RenderWorker) : RenderWorker :=
  {| id_ := id_ rw; queue_ := queue_ rw; queue_fd_ := q |}.

Definition QueueFB (buffer : Z) (rw : RenderWorker) : option RenderWorker :=
  let q := NXQueue_queue buffer (queue_ rw) in
  if (id_ rw =? 1) && (2 <=? NXQueue_size q)
  then
    q' ← NXQueue_pop q;
    fd' ← NXQueue_pop (queue_fd_ rw);
    Some (set_queue_fd fd' (set_queue q' rw))
  else Some (set_queue q rw).

Definition DequeueFB (rw : RenderWorker) : Z * RenderWorker :=
  match queue_ rw with
  | [] => (0, rw)
  | item :: q' => (item, set_queue q' rw)
  end.

Definition QueueFD (fd : Z) (rw : RenderWorker) : RenderWorker :=
  set_queue_fd (NXQueue_queue fd (queue_fd_ rw)) rw.

Definition DequeueFD (rw : RenderWorker) : Z * RenderWorker :=
  match queue_fd_ rw with
  | [] => (0, rw)
  | item :: q' => (item, set_queue_fd q' rw)
  end.

Fixpoint run (ops : list queue_op) (rw : RenderWorker)
  : option RenderWorker :=
  match ops with
  | [] => Some rw
  | OpQueueFB buffer :: rest => rw' ← QueueFB buffer rw; run rest rw'
  | OpDequeueFB :: rest => run rest (DequeueFB rw).2
  | OpQueueFD fd :: rest => run rest (QueueFD fd rw)
  | OpDequeueFD :: rest => run rest (DequeueFD rw).2
  end.

End part_000.

(** ** Predicates and specifications used by the properties *)

(** Runs in which every [QueueFB] directly follows a [QueueFD]: a frame
    is queued with its fence. *)
Fixpoint fenced (ops : list queue_op) : bool :=
  match ops with
  | [] => true
  | OpQueueFD _ :: OpQueueFB _ :: rest => fenced rest
  | OpQueueFB _ :: _ => false
  | _ :: rest => fenced rest
  end.

(** [plane] is a primary plane that may be attached to [crtc]. *)
Definition primary_for (crtc : DrmCrtc) (plane : DrmPlane) : Prop :=
  plane_type plane = DRM_PLANE_TYPE_PRIMARY ∧
  GetCrtcSupported plane crtc = true.

(** The crtc at index [x] was built from the [x]-th listed crtc. *)
Definition crtc_listed (l : list (option drmModeCrtc)) (x : nat)
    (crtc : DrmCrtc) : Prop :=
  crtc_pipe crtc = x ∧ crtc_display crtc = None ∧
  ∃ c, l !! x = Some (Some c) ∧ crtc_id crtc = k_crtc_id c.

Definition crtc_bit (mask : Z) (crtc : DrmCrtc) : Prop :=
  Z.land (Z.shiftl 1 (Z.of_nat (crtc_pipe crtc))) mask ≠ 0.

(** The loop invariant of the connector pass of [Init] on the display
    indices handed out so far. *)
Definition displays_below (found : bool) (num : Z)
    (acc : list DrmConnector) : Prop :=
  1 ≤ num ∧ (found = false → acc = []) ∧
  (∀ k c, acc !! k = Some c → conn_display c < num) ∧
  (∀ k1 k2 c1 c2, acc !! k1 = Some c1 → acc !! k2 = Some c2 →
                  conn_display c1 = conn_display c2 → k1 = k2).

Definition same_displays (st st' : DrmResources) : Prop :=
  ∀ k, conn_display <$> connectors_ st !! k
       = conn_display <$> connectors_ st' !! k.

(** Running a function [n] times in a row. *)
Fixpoint repeated {R} (n : nat) (f : M R R) (w : World)
  : list (outcome R R) * World :=
  match n with
  | O => ([], w)
  | S n' => let '(o, w') := f w in
            let '(os, w'') := repeated n' f w' in (o :: os, w'')
  end.

Definition is_commit (c : Call) : bool :=
  match c with drmModeAtomicCommit _ _ _ => true | _ => false end.

Definition is_destroy_blob (c : Call) : bool :=
  match c with DRM_IOCTL_MODE_DESTROYPROPBLOB _ => true | _ => false end.

Definition is_set_property (c : Call) : bool :=
  match c with drmModeConnectorSetProperty _ _ _ => true | _ => false end.

(** The transaction of a frame with a pending modeset: mode blob, crtc id
    of the connector, plane attachment, destination and source geometry,
    then the framebuffer. *)
Definition modeset_props (crtc : DrmCrtc) (connector : DrmConnector)
    (plane : DrmPlane) (blob_id : Z) (frame : hwc_rect) (fb_id : Z)
  : list (Z * Z * Z) :=
  [ (crtc_id crtc, crtc_mode_property crtc, blob_id);
    (conn_id connector, conn_crtc_id_property connector, crtc_id crtc);
    (plane_id plane, plane_crtc_property plane, crtc_id crtc);
    (plane_id plane, plane_crtc_x_property plane, to_u64 (rect_left frame));
    (plane_id plane, plane_crtc_y_property plane, to_u64 (rect_top frame));
    (plane_id plane, plane_crtc_w_property plane,
     to_u64 (rect_right frame - rect_left frame));
    (plane_id plane, plane_crtc_h_property plane,
     to_u64 (rect_bottom frame - rect_top frame));
    (plane_id plane, plane_src_x_property plane, to_u64 (rect_left frame));
    (plane_id plane, plane_src_y_property plane, to_u64 (rect_top frame));
    (plane_id plane, plane_src_w_property plane,
     to_u64 (rect_right frame - rect_left frame));
    (plane_id plane, plane_src_h_property plane,
     to_u64 (rect_bottom frame - rect_top frame));
    (plane_id plane, plane_fb_property plane, fb_id) ].

(** The crtc, the connector and the primary plane of a display. *)
Definition display_pipe (st : DrmResources) (display : Z)
    (crtc : DrmCrtc) (connector : DrmConnector) (plane : DrmPlane) : Prop :=
  ∃ ci ki pi,
    GetCrtcForDisplay st display = Some ci ∧ crtcs_ st !! ci = Some crtc ∧
    GetConnectorForDisplay st display = Some ki ∧
    connectors_ st !! ki = Some connector ∧
    GetPrimaryPlaneForCrtc st crtc = Some pi ∧ planes_ st !! pi = Some plane.

(** What a frame function [f] does when it reaches the commit while a
    modeset is pending.  [pre] are the calls of [f] before the commit [c]
    and [post] the ones after it. *)
Definition modeset_commit_spec (N : nat) (display : Z) (frame : hwc_rect)
    (f : M Z Z) (w : World) : Prop :=
  ∀ o w' pre c post,
    f w = (o, w') →
    calls w' = calls w ++ pre ++ c :: post → is_commit c = true →
    (∃ crtc connector plane p fb_id,
        display_pipe (drm w) display crtc connector plane ∧
        c = drmModeAtomicCommit p
              (modeset_props crtc connector plane
                 (hd_blob_id (display_at N w display)) frame fb_id)
              DRM_MODE_ATOMIC_ALLOW_MODESET) ∧
    Forall (λ c', is_commit c' = false) (pre ++ post) ∧
    (k_ret (kernel w) (calls w ++ pre ++ [c]) ≠ 0 →
     o = Return (k_ret (kernel w) (calls w ++ pre ++ [c])) ∧
     hd_needs_modeset (display_at N w' display) = true ∧
     hd_blob_id (display_at N w' display)
       = hd_blob_id (display_at N w display) ∧
     hd_old_blob_id (display_at N w' display)
       = hd_old_blob_id (display_at N w display) ∧
     Forall (λ c', is_destroy_blob c' = false ∧ is_set_property c' = false)
            (pre ++ c :: post)).

(** The [drmModeAtomicAddProperty] calls that build the transaction
    [items] on the request [p]. *)
Definition add_property_calls (p : Z) (items : list (Z * Z * Z))
  : list Call :=
  (λ item, drmModeAtomicAddProperty p item.1.1 item.1.2 item.2) <$> items.

(** The transaction of a frame: the one of [modeset_props] while a modeset
    is pending for the display, the framebuffer alone otherwise. *)
Definition frame_props (hd : hwc_drm_display) (frame : hwc_rect)
    (crtc : DrmCrtc) (connector : DrmConnector) (plane : DrmPlane)
    (fb_id : Z) : list (Z * Z * Z) :=
  if hd_needs_modeset hd
  then modeset_props crtc connector plane (hd_blob_id hd) frame fb_id
  else [(plane_id plane, plane_fb_property plane, fb_id)].

(** The calls whose result makes the frame path return before the commit:
    a failed import, a null request, a property that could not be added. *)
Definition gives_up (k : Kernel) (h : list Call) (c : Call) : bool :=
  match c with
  | ImportBuffer _ => negb (k_ret k (h ++ [c]) =? 0)
  | drmModeAtomicAlloc => k_out k (h ++ [c]) =? 0
  | drmModeAtomicAddProperty _ _ _ _ => k_ret k (h ++ [c]) <? 0
  | _ => false
  end.

(** None of the calls [ext], issued after [h], makes the frame path
    return. *)
Fixpoint proceeds (k : Kernel) (h ext : list Call) : Prop :=
  match ext with
  | [] => True
  | c :: rest => gives_up k h c = false ∧ proceeds k (h ++ [c]) rest
  end.

(** [sync_wait] on the acquire fence of a layer, if it has one. *)
Definition fence_wait (fb_layer : hwc_layer_1) : list Call :=
  if 0 <=? layer_acquireFenceFd fb_layer
  then [sync_wait (layer_acquireFenceFd fb_layer)] else [].

(** A frame function [f] reaches the commit.  [entry] is what the cache
    of the display holds for [handle]; [props] gives the transaction for
    the pipe of the display and the framebuffer; [wait] are the calls
    between the last property and the commit.  When the display has a
    pipe and none of the calls before the commit makes [f] return, [f]
    imports the buffer unless it is cached, allocates a request, adds the
    properties of the transaction in order and commits exactly these with
    ALLOW_MODESET, once; a failed commit is what [f] returns. *)
Definition frame_commit_spec (N : nat) (display handle : Z)
    (entry : option hwc_drm_bo)
    (props : DrmCrtc → DrmConnector → DrmPlane → Z → list (Z * Z * Z))
    (wait : list Call) (f : M Z Z) (w : World) : Prop :=
  ∀ crtc connector plane,
    find_bo (hd_bo (display_at N w display)) handle = entry →
    display_pipe (drm w) display crtc connector plane →
    let import := match entry with
                  | Some _ => []
                  | None => [ImportBuffer handle]
                  end in
    let fb_id := match entry with
                 | Some bo => bo_fb_id bo
                 | None => k_out (kernel w) (calls w ++ import)
                 end in
    let p := k_out (kernel w) (calls w ++ import ++ [drmModeAtomicAlloc]) in
    let items := props crtc connector plane fb_id in
    let pre := import ++ drmModeAtomicAlloc
                 :: add_property_calls p items ++ wait in
    let c := drmModeAtomicCommit p items DRM_MODE_ATOMIC_ALLOW_MODESET in
    proceeds (kernel w) (calls w) pre →
    ∃ post,
      calls (f w).2 = calls w ++ pre ++ c :: post ∧
      Forall (λ c', is_commit c' = false) (pre ++ post) ∧
      (k_ret (kernel w) (calls w ++ pre ++ [c]) ≠ 0 →
       (f w).1 = Return (k_ret (kernel w) (calls w ++ pre ++ [c]))).

(** The buffers a cache holds. *)
Definition cached (bo : list (option hwc_drm_bo)) : list hwc_drm_bo :=
  omap id bo.

(** No slot holds a buffer imported from [handle], and no slot is free. *)
Definition cache_full_miss (N : nat) (w : World) (display handle : Z)
  : Prop :=
  find_bo (hd_bo (display_at N w display)) handle = None ∧
  Forall is_Some (hd_bo (display_at N w display)).

(** What a frame function [f] does with [handle] then: it imports the
    buffer first; when it returns 0 it committed the framebuffer it
    imported; the cache is as before. *)
Definition full_cache_miss_spec (N : nat) (display handle : Z) (f : M Z Z)
    (w : World) : Prop :=
  ∀ o w', f w = (o, w') →
    (∃ rest, calls w' = calls w ++ ImportBuffer handle :: rest ∧
       (o = Return 0 →
        ∃ p items flags obj prop,
          drmModeAtomicCommit p items flags ∈ rest ∧
          last items = Some (obj, prop,
                             k_out (kernel w)
                                   (calls w ++ [ImportBuffer handle])))) ∧
    hd_bo (display_at N w' display) = hd_bo (display_at N w display).

(** Frames presented to a display, by the worker or by [hwc_set]. *)
Inductive presentation :=
| ByRender (frame : hwc_rect) (handle : Z)
| By_render_fb (fb_layer : hwc_layer_1).

Definition present (N : nat) (display : Z) (p : presentation) (w : World)
  : World :=
  match p with
  | ByRender frame handle => (Render N display frame handle w).2
  | By_render_fb fb_layer => (render_fb N display fb_layer w).2
  end.

Definition presentations (N : nat) (display : Z) (ps : list presentation)
    (w : World) : World :=
  foldl (λ w p, present N display p w) w ps.

(** The calls by which the hotplug handler re-configures an Output. *)
Definition is_reconfig (c : Call) : bool :=
  match c with
  | DRM_IOCTL_MODE_CREATEPROPBLOB _ | drmModeConnectorSetProperty _ _ _ => true
  | _ => false
  end.

(** Every re-configuration call among [ext], issued after [h], succeeded. *)
Fixpoint calls_ok (k : Kernel) (h ext : list Call) : Prop :=
  match ext with
  | [] => True
  | c :: rest =>
      (is_reconfig c = true → k_ret k (h ++ [c]) = 0) ∧
      calls_ok k (h ++ [c]) rest
  end.

Definition connected_flag (s : drmModeConnection) : Z :=
  if decide (s = DRM_MODE_CONNECTED) then 1 else 0.

(** The compositor callbacks among the calls, in order. *)
Definition hotplugs (ext : list Call) : list (Z * Z) :=
  omap (λ c, match c with hotplug d f => Some (d, f) | _ => None end) ext.

Definition conn_view (l : list DrmConnector) (k : nat)
  : option (Z * drmModeConnection) :=
  (λ c, (conn_display c, conn_state c)) <$> l !! k.

(** The callback due for the Output [k] whose state went from that in [l]
    to that in [l']. *)
Definition notification (l l' : list DrmConnector) (k : nat)
  : option (Z * Z) :=
  match conn_view l k, conn_view l' k with
  | Some (d, s), Some (_, s') =>
      if decide (s' = s) then None else Some (d, connected_flag s')
  | _, _ => None
  end.

Definition notifications (conns : list nat) (st st' : DrmResources)
  : list (Z * Z) :=
  omap (notification (connectors_ st) (connectors_ st')) conns.

(** One iteration of the loop of [HandleEvent], from [w]: undefined
    behaviour, or the state of the Output was read again, giving [w2] after
    the calls [ext1], and the handler either returned without a callback
    (the state had changed and a re-configuration call failed) or went on,
    after the callback if the state had changed. *)
Definition iteration_spec (N : nat) (ki : nat) (rest : list nat)
    (w : World) (o : outcome () ()) (w' : World) : Prop :=
  o = Undefined ∨
  ∃ c state w2 ext1,
    connectors_ (drm w) !! ki = Some c ∧
    calls w2 = calls w ++ ext1 ∧ kernel w2 = kernel w ∧
    (∀ k, k ≠ ki → conn_view (connectors_ (drm w2)) k
                   = conn_view (connectors_ (drm w)) k) ∧
    conn_view (connectors_ (drm w2)) ki = Some (conn_display c, state) ∧
    ((o = Return () ∧ w' = w2 ∧ ¬ calls_ok (kernel w) (calls w) ext1 ∧
      state ≠ conn_state c ∧ hotplugs ext1 = [])
     ∨ (HandleEvent_loop N rest w2 = (o, w') ∧
        calls_ok (kernel w) (calls w) ext1 ∧
        hotplugs ext1 = if decide (state = conn_state c) then []
                        else [(conn_display c, connected_flag state)])).

(** The whole loop: the callbacks issued are those due when every
    re-configuration call succeeded, and otherwise all those due but the
    last, that of the Output whose re-configuration failed. *)
Definition loop_spec (conns : list nat) (w : World) (o : outcome () ())
    (w' : World) : Prop :=
  ∃ ext, calls w' = calls w ++ ext ∧ kernel w' = kernel w ∧
    (∀ k, k ∉ conns → conn_view (connectors_ (drm w')) k
                      = conn_view (connectors_ (drm w)) k) ∧
    (∀ k, fst <$> conn_view (connectors_ (drm w')) k
          = fst <$> conn_view (connectors_ (drm w)) k) ∧
    ((calls_ok (kernel w) (calls w) ext ∧
      hotplugs ext = notifications conns (drm w) (drm w'))
     ∨ (¬ calls_ok (kernel w) (calls w) ext ∧
        ∃ missed, notifications conns (drm w) (drm w')
                  = hotplugs ext ++ [missed])).

(** ** Example topologies and worlds *)

Definition ex_mode (id : Z) : DrmMode :=
  {| mode_id := id; mode_h_display := 1920; mode_v_display := 1080;
     mode_v_refresh := 60; mode_type := DRM_MODE_TYPE_PREFERRED |}.

Definition ex_connector (id encoder_id : Z) (encoders : list Z)
    (state : drmModeConnection) (modes : list DrmMode) : drmModeConnector :=
  {| k_connector_id := id; k_conn_encoder_id := encoder_id;
     k_conn_encoders := encoders; k_conn_init := 0;
     k_conn_connection := state; k_conn_modes := modes;
     k_conn_crtc_id_property := id + 100; k_conn_dpms_property := id + 200 |}.

Definition ex_crtcs : list (option drmModeCrtc) :=
  [ Some {| k_crtc_id := 10; k_crtc_init := 0; k_crtc_mode_property := 110 |};
    Some {| k_crtc_id := 20; k_crtc_init := 0; k_crtc_mode_property := 120 |} ].

(** Two controllers, one encoder that may drive both, two outputs that
    share the encoder. *)
Definition ex_res : drmModeRes :=
  {| res_crtcs := ex_crtcs;
     res_encoders :=
       [ Some {| k_encoder_id := 30; k_enc_crtc_id := 0;
                 k_enc_possible_crtcs := 3 |} ];
     res_connectors :=
       [ Some (ex_connector 40 0 [30] DRM_MODE_CONNECTED [ex_mode 1]);
         Some (ex_connector 41 0 [30] DRM_MODE_DISCONNECTED []) ] |}.

(** A listing in which the encoder is reported to drive crtc 20 (pipe 1)
    while its possible-crtcs mask has only bit 0. *)
Definition bad_res : drmModeRes :=
  {| res_crtcs := ex_crtcs;
     res_encoders :=
       [ Some {| k_encoder_id := 30; k_enc_crtc_id := 20;
                 k_enc_possible_crtcs := 1 |} ];
     res_connectors :=
       [ Some (ex_connector 40 30 [30] DRM_MODE_CONNECTED [ex_mode 1]) ] |}.

Definition ex_plane : DrmPlane :=
  {| plane_id := 50; plane_type := DRM_PLANE_TYPE_PRIMARY;
     plane_possible_crtcs := 3;
     plane_crtc_property := 500; plane_fb_property := 501;
     plane_crtc_x_property := 502; plane_crtc_y_property := 503;
     plane_crtc_w_property := 504; plane_crtc_h_property := 505;
     plane_src_x_property := 506; plane_src_y_property := 507;
     plane_src_w_property := 508; plane_src_h_property := 509 |}.

Definition ex_device (res : drmModeRes) : drm_device :=
  {| dev_open := 3; dev_cap_universal_planes := 0; dev_cap_atomic := 0;
     dev_resources := Some res;
     dev_plane_resources := Some [Some {| k_plane := ex_plane;
                                          k_plane_init := 0 |}];
     dev_event_listener_init := 0 |}.

Definition graph_of (dev : drm_device) : DrmResources :=
  match Init dev with
  | Some (_, st) => st
  | None => no_resources
  end.

(** The graph [Init] builds from [ex_res], both outputs bound. *)
Definition ex_graph : DrmResources :=
  Eval vm_compute in graph_of (ex_device ex_res).

Definition bad_graph : DrmResources :=
  Eval vm_compute in graph_of (ex_device bad_res).

(** A kernel whose [fail_at]-th call (counted from 1 over all recorded
    calls) returns [status] and whose other calls return 0; out-parameters
    are fresh numbers; connectors are reported in state [conn]. *)
Definition kernel_script (fail_at : nat) (status : Z)
    (conn : drmModeConnection * list DrmMode) : Kernel :=
  {| k_ret := λ h, if Nat.eqb (length h) fail_at then status else 0;
     k_out := λ h, Z.of_nat (length h);
     k_conn := λ _, conn |}.

Definition ex_world (k : Kernel) (d : gmap Z hwc_drm_display) : World :=
  {| kernel := k; calls := []; displays := d; drm := ex_graph |}.

Definition ex_frame : hwc_rect :=
  {| rect_left := 0; rect_top := 0; rect_right := 1920; rect_bottom := 1080 |}.

(** A display with a modeset pending (blob 7), a three-slot cache, empty. *)
Definition hd_pending : hwc_drm_display :=
  {| hd_bo := [None; None; None]; hd_active_mode := ex_mode 1;
     hd_needs_modeset := true; hd_blob_id := 7; hd_old_blob_id := 6 |}.

(** A display whose three cache slots are taken. *)
Definition hd_full : hwc_drm_display :=
  {| hd_bo := [ Some {| bo_fb_id := 1; bo_priv := 11 |};
                Some {| bo_fb_id := 2; bo_priv := 12 |};
                Some {| bo_fb_id := 3; bo_priv := 13 |} ];
     hd_active_mode := ex_mode 1; hd_needs_modeset := false;
     hd_blob_id := 7; hd_old_blob_id := 7 |}.

Definition kernel_ok : Kernel :=
  kernel_script 0 0 (DRM_MODE_CONNECTED, [ex_mode 1]).

Definition connected_report : drmModeConnection * list DrmMode :=
  (DRM_MODE_CONNECTED, [ex_mode 1]).

Definition pending_world : World :=
  ex_world (kernel_script 15 (-22) connected_report) {[ 0 := hd_pending ]}.

Definition full_cache_world : World :=
  ex_world kernel_ok {[ 0 := hd_full ]}.

(** The worlds after a hotplug event in which the second Output is found
    connected: all calls succeed, respectively the third call, the blob
    creation, fails. *)
Definition hotplug_ok_world : World :=
  (HandleEvent 3 0 (ex_world kernel_ok ∅)).2.

Definition hotplug_failed_world : World :=
  (HandleEvent 3 0 (ex_world (kernel_script 3 (-22) connected_report) ∅)).2.

(** The ids of the blobs created, respectively destroyed, by the calls
    [ext] issued after [h]. *)
Fixpoint created_blobs (k : Kernel) (h ext : list Call) : list Z :=
  match ext with
  | [] => []
  | c :: rest =>
      match c with
      | DRM_IOCTL_MODE_CREATEPROPBLOB _ =>
          if k_ret k (h ++ [c]) =? 0 then [k_out k (h ++ [c])] else []
      | _ => []
      end ++ created_blobs k (h ++ [c]) rest
  end.

Fixpoint destroyed_blobs (k : Kernel) (h ext : list Call) : list Z :=
  match ext with
  | [] => []
  | c :: rest =>
      match c with
      | DRM_IOCTL_MODE_DESTROYPROPBLOB id =>
          if k_ret k (h ++ [c]) =? 0 then [id] else []
      | _ => []
      end ++ destroyed_blobs k (h ++ [c]) rest
  end.

(** Two mode changes of display 0, a frame, a third mode change, a frame. *)
Definition mode_changes_world : World :=
  let w1 := (hwc_set_display_active_mode 3 0 (ex_mode 1)
               (ex_world kernel_ok ∅)).2 in
  let w2 := (hwc_set_display_active_mode 3 0 (ex_mode 2) w1).2 in
  let w3 := (Render 3 0 ex_frame 77 w2).2 in
  let w4 := (hwc_set_display_active_mode 3 0 (ex_mode 3) w3).2 in
  (Render 3 0 ex_frame 77 w4).2.

Definition queue_of (id : Z) (q : list Z) : renderworker_h.RenderWorker :=
  {| renderworker_h.id_ := id; renderworker_h.queue_ := q |}.

(** * The entry points, the property lookup and the importer *)

(** ** drmresources.cpp: properties of kernel objects ([GetProperty]) *)

(** A [drmModePropertyRes], as far as [GetProperty] reads it. *)
Record drmModePropertyRes := {
  p_prop_id : Z;
  p_name : String.string;
}.

(** [drmModeObjectGetProperties]: for each property of the object, what
    [drmModeGetProperty] returns for its id ([None] is NULL) and the value
    in [prop_values]. *)
Definition drmModeObjectProperties : Type :=
  list (option drmModePropertyRes * Z).

(** The loop of [GetProperty]: it stops at the first property whose name
    is [prop_name], which it hands with its value to [property->Init].
    [p->name] of a NULL [p] is undefined behaviour ([None]). *)
Fixpoint GetProperty_loop (props : drmModeObjectProperties)
    (prop_name : String.string)
  : option (option (drmModePropertyRes * Z)) :=
  match props with
  | [] => Some None
  | (None, _) :: _ => None
  | (Some p, value) :: rest =>
      if String.eqb (p_name p) prop_name then Some (Some (p, value))
      else GetProperty_loop rest prop_name
  end.

(** [GetProperty]: the status, and the property and value [Init] was
    called with, if it was. *)
Definition GetProperty (props : option drmModeObjectProperties)
    (prop_name : String.string)
  : option (Z * option (drmModePropertyRes * Z)) :=
  match props with
  | None => Some (- ENODEV, None)
  | Some props =>
      found ← GetProperty_loop props prop_name;
      Some (match found with Some _ => 0 | None => - ENOENT end, found)
  end.

(** ** hwcomposer.cpp: the entry points of the compositor *)

Definition HWC_FRAMEBUFFER : Z := 0.
Definition HWC_OVERLAY : Z := 1.
Definition HWC_BACKGROUND : Z := 2.
Definition HWC_FRAMEBUFFER_TARGET : Z := 3.
Definition HWC_SIDEBAND : Z := 4.
Definition HWC_CURSOR_OVERLAY : Z := 5.

Definition HWC_DISPLAY_PRIMARY : Z := 0.
Definition HWC_DISPLAY_VIRTUAL : nat := 2.

Definition HWC_POWER_MODE_OFF : Z := 0.
Definition HWC_POWER_MODE_DOZE : Z := 1.
Definition HWC_POWER_MODE_NORMAL : Z := 2.
Definition HWC_POWER_MODE_DOZE_SUSPEND : Z := 3.

(** A layer as [hwc_prepare] sees it: its composition type, and the rest. *)
Record hwc_prepare_layer := {
  compositionType : Z;
  layer_rest : hwc_layer_1;
}.

(** The [switch] of [hwc_prepare]. *)
Definition prepare_layer (layer : hwc_prepare_layer) : hwc_prepare_layer :=
  if (compositionType layer =? HWC_OVERLAY)
     || (compositionType layer =? HWC_BACKGROUND)
     || (compositionType layer =? HWC_SIDEBAND)
     || (compositionType layer =? HWC_CURSOR_OVERLAY)
  then {| compositionType := HWC_FRAMEBUFFER;
          layer_rest := layer_rest layer |}
  else layer.

(** The body of the outer loop of [hwc_prepare]; [None] is a NULL entry
    of [display_contents], which the loop skips. *)
Definition prepare_display (dc : option (list hwc_prepare_layer))
  : option (list hwc_prepare_layer) :=
  match dc with
  | None => None
  | Some hwLayers => Some (prepare_layer <$> hwLayers)
  end.

Definition hwc_prepare
    (display_contents : list (option (list hwc_prepare_layer)))
  : Z * list (option (list hwc_prepare_layer)) :=
  (0, prepare_display <$> display_contents).

(** [hwc_set_power_mode]: [dpmsValue] starts as 0. *)
Definition hwc_set_power_mode (display mode : Z) : M Z Z :=
  let dpmsValue :=
    if mode =? HWC_POWER_MODE_OFF then DRM_MODE_DPMS_OFF
    else if (mode =? HWC_POWER_MODE_DOZE)
            || (mode =? HWC_POWER_MODE_DOZE_SUSPEND)
            || (mode =? HWC_POWER_MODE_NORMAL)
    then DRM_MODE_DPMS_ON
    else 0 in
  if display =? HWC_DISPLAY_PRIMARY
  then ret ← invoke (SetDpmsMode display dpmsValue); return_ ret
  else return_ 0.

(** What [hwc_get_display_configs] leaves: its status, [hd->config_ids],
    the entries of [configs] it wrote, from index 0, and [*num_configs]. *)
Record display_configs := {
  dc_ret : Z;
  dc_config_ids : list Z;
  dc_configs : list Z;
  dc_num_configs : nat;
}.

Section hwcomposer_entry_points.

Variable NUM_FB_BUFFERS : nat.

(** The loop of [hwc_set] from display [i] on.  [hwLayers[numHwLayers - 1]]
    of a display without layers is undefined behaviour. *)
Fixpoint hwc_set_loop (i : nat)
    (sf_display_contents : list (option (list hwc_layer_1))) : M Z unit :=
  match sf_display_contents with
  | [] => mret ()
  | dc :: rest =>
      match dc with
      | None => hwc_set_loop (S i) rest
      | Some hwLayers =>
          if Nat.eqb i HWC_DISPLAY_VIRTUAL then hwc_set_loop (S i) rest
          else
            fb_layer ← match last hwLayers with
                       | Some layer => mret layer
                       | None => undefined
                       end;
            invoke (render_fb NUM_FB_BUFFERS (Z.of_nat i) fb_layer);;
            hwc_set_loop (S i) rest
      end
  end.

Definition hwc_set (sf_display_contents : list (option (list hwc_layer_1)))
  : M Z Z :=
  hwc_set_loop 0 sf_display_contents;;
  return_ 0.

(** [hwc_get_display_configs].  [config_ids] is [hd->config_ids] before
    the call and [num_configs] is [*num_configs]. *)
Definition hwc_get_display_configs (display : Z) (num_configs : nat)
    (config_ids : list Z) : M display_configs display_configs :=
  if Nat.eqb num_configs 0
  then return_ {| dc_ret := 0; dc_config_ids := config_ids;
                  dc_configs := []; dc_num_configs := num_configs |}
  else
    let failed ret := {| dc_ret := ret; dc_config_ids := [];
                         dc_configs := [];
                         dc_num_configs := num_configs |} in
    get_hd NUM_FB_BUFFERS display;;
    st ← get_drm;
    ki ← or_return (GetConnectorForDisplay st display) (failed (- ENODEV));
    ret ← UpdateModes ki;
    when (negb (ret =? 0)) (return_ (failed ret));;
    st ← get_drm;
    connector ← deref (connectors_ st) ki;
    let ids := take num_configs (mode_id <$> conn_modes connector) in
    return_ {| dc_ret := if Nat.eqb (length ids) 0 then -1 else 0;
               dc_config_ids := ids; dc_configs := ids;
               dc_num_configs := length ids |}.

(** [hwc_set_active_config].  [hd->config_ids[index]] with a negative
    [index] is undefined behaviour. *)
Definition hwc_set_active_config (display index : Z) (config_ids : list Z)
  : M Z Z :=
  get_hd NUM_FB_BUFFERS display;;
  when (Z.of_nat (length config_ids) <=? index) (return_ (- EINVAL));;
  st ← get_drm;
  ki ← or_return (GetConnectorForDisplay st display) (- ENODEV);
  c ← deref (connectors_ st) ki;
  when (negb (bool_decide (conn_state c = DRM_MODE_CONNECTED)))
       (return_ (- ENODEV));;
  config ← (if index <? 0 then undefined
            else deref config_ids (Z.to_nat index));
  let mode := default DrmMode_default
                (List.find (λ conn_mode, mode_id conn_mode =? config)
                           (conn_modes c)) in
  when (negb (mode_id mode =? config)) (return_ (- ENOENT));;
  ret ← invoke (hwc_set_display_active_mode NUM_FB_BUFFERS display mode);
  return_ ret.

(** [hwc_set_initial_config]: the status and [hd->config_ids] after. *)
Definition hwc_set_initial_config (display : Z) (config_ids : list Z)
  : M (Z * list Z) (Z * list Z) :=
  r ← invoke (hwc_get_display_configs display 1 config_ids);
  if negb (dc_ret r =? 0) || Nat.eqb (dc_num_configs r) 0
  then return_ (0, dc_config_ids r)
  else
    ret ← invoke (hwc_set_active_config display 0 (dc_config_ids r));
    return_ (ret, dc_config_ids r).

Definition hwc_get_active_config (display : Z) (config_ids : list Z)
  : M Z Z :=
  st ← get_drm;
  ki ← or_return (GetConnectorForDisplay st display) (- ENODEV);
  c ← deref (connectors_ st) ki;
  let mode := conn_active_mode c in
  get_hd NUM_FB_BUFFERS display;;
  return_ match find_index (λ id, id =? mode_id mode) config_ids 0 with
          | Some i => Z.of_nat i
          | None => -1
          end.

End hwcomposer_entry_points.

(** ** Predicates used by the properties of the entry points *)

Definition is_add_property (c : Call) : bool :=
  match c with drmModeAtomicAddProperty _ _ _ _ => true | _ => false end.

Definition is_import (c : Call) : bool :=
  match c with ImportBuffer _ => true | _ => false end.

(** The calls of a successful [SetDisplayActiveMode], [h] being the calls
    issued before. *)
Definition modeset_calls (k : Kernel) (h : list Call) (crtc : DrmCrtc)
    (connector : DrmConnector) (mode : DrmMode) : list Call :=
  let p := k_out k (h ++ [drmModeAtomicAlloc]) in
  let id := k_out k (h ++ [drmModeAtomicAlloc;
                           DRM_IOCTL_MODE_CREATEPROPBLOB mode]) in
  [ drmModeAtomicAlloc;
    DRM_IOCTL_MODE_CREATEPROPBLOB mode;
    drmModeAtomicAddProperty p (crtc_id crtc) (crtc_mode_property crtc) id;
    drmModeAtomicAddProperty p (conn_id connector)
      (conn_crtc_id_property connector) (crtc_id crtc);
    drmModeAtomicCommit p
      [ (crtc_id crtc, crtc_mode_property crtc, id);
        (conn_id connector, conn_crtc_id_property connector, crtc_id crtc) ]
      DRM_MODE_ATOMIC_ALLOW_MODESET;
    drmModeAtomicFree p ].

(** What a frame function [f] does with a buffer that is in the cache of
    the display as [bo]: it imports nothing, the framebuffer of any commit
    is the cached one, and the cache is as before. *)
Definition cache_hit_spec (N : nat) (display : Z) (bo : hwc_drm_bo)
    (f : M Z Z) (w : World) : Prop :=
  ∀ o w', f w = (o, w') →
    hd_bo (display_at N w' display) = hd_bo (display_at N w display) ∧
    ∃ ext, calls w' = calls w ++ ext ∧
      Forall (λ c, is_import c = false) ext ∧
      ∀ p items flags, drmModeAtomicCommit p items flags ∈ ext →
        ∃ obj prop, last items = Some (obj, prop, bo_fb_id bo).

(** What [f] does with a buffer that is not in the cache while a slot is
    free and the import succeeds: the imported buffer is in the cache
    afterwards, whatever [f] returns, and the buffers that were cached
    still are. *)
Definition cache_insert_spec (N : nat) (display handle : Z) (f : M Z Z)
    (w : World) : Prop :=
  ∀ o w', f w = (o, w') →
    let bo := {| bo_fb_id := k_out (kernel w)
                                   (calls w ++ [ImportBuffer handle]);
                 bo_priv := handle |} in
    hd_bo (display_at N w' display)
    = insert_bo (hd_bo (display_at N w display)) bo ∧
    find_bo (hd_bo (display_at N w' display)) handle = Some bo ∧
    ∀ h b, find_bo (hd_bo (display_at N w display)) h = Some b →
           find_bo (hd_bo (display_at N w' display)) h = Some b.

(** What a frame function [f] has done when it returns 0 from a world in
    which the display has a modeset pending: after the calls [pre], which
    contain the commit, it destroyed the previously activated blob, unless
    that is 0, and set the DPMS property of the connector to ON; the
    pending blob is now the activated one and no modeset is pending; the
    pending mode is the active mode of the connector. *)
Definition modeset_applied_spec (N : nat) (display : Z) (f : M Z Z)
    (w1 : World) : Prop :=
  ∀ w2, f w1 = (Return 0, w2) →
    let hd := display_at N w1 display in
    hd_needs_modeset (display_at N w2 display) = false ∧
    hd_blob_id (display_at N w2 display) = hd_blob_id hd ∧
    hd_old_blob_id (display_at N w2 display) = hd_blob_id hd ∧
    hd_active_mode (display_at N w2 display) = hd_active_mode hd ∧
    ∃ ki conn pre p items,
      GetConnectorForDisplay (drm w1) display = Some ki ∧
      drm w2 = set_active_mode ki (hd_active_mode hd) (drm w1) ∧
      connectors_ (drm w2) !! ki = Some conn ∧
      calls w2
      = calls w1 ++ pre
        ++ (if hd_old_blob_id hd =? 0 then []
            else [DRM_IOCTL_MODE_DESTROYPROPBLOB (hd_old_blob_id hd)])
        ++ [drmModeConnectorSetProperty (conn_id conn)
              (conn_dpms_property conn) DRM_MODE_DPMS_ON] ∧
      drmModeAtomicCommit p items DRM_MODE_ATOMIC_ALLOW_MODESET ∈ pre ∧
      Forall (λ c, is_destroy_blob c = false ∧ is_set_property c = false)
             pre.

(** The frames [hwc_set] presents, from display [i] on: the last layer of
    each display that has contents, the virtual display left out. *)
Fixpoint set_frames (i : nat)
    (sf_display_contents : list (option (list hwc_layer_1)))
  : list (nat * hwc_layer_1) :=
  match sf_display_contents with
  | [] => []
  | dc :: rest =>
      match dc ≫= last with
      | Some fb_layer =>
          if Nat.eqb i HWC_DISPLAY_VIRTUAL then [] else [(i, fb_layer)]
      | None => []
      end ++ set_frames (S i) rest
  end.

(** [hwLayers[numHwLayers - 1]] is read for every display with contents
    but the virtual one. *)
Definition set_defined
    (sf_display_contents : list (option (list hwc_layer_1))) : Prop :=
  ∀ i, i ≠ HWC_DISPLAY_VIRTUAL → sf_display_contents !! i ≠ Some (Some []).

(** The connector pass numbers the Outputs 0, 1, 2, ... in listing order. *)
Definition numbered (acc : list DrmConnector) : Prop :=
  ∀ k c, acc !! k = Some c → conn_display c = Z.of_nat k.

(** The graph before the last loop of [Init]: pointers are valid, the
    Outputs are numbered, no controller serves a display. *)
Definition fresh_graph (st : DrmResources) : Prop :=
  wf_resources st ∧ numbered (connectors_ st) ∧
  Forall (λ crtc, crtc_display crtc = None) (crtcs_ st).

Definition is_create_blob (c : Call) : bool :=
  match c with DRM_IOCTL_MODE_CREATEPROPBLOB _ => true | _ => false end.

(** The composition types that ask the display hardware to compose. *)
Definition device_composed (type : Z) : Prop :=
  type = HWC_OVERLAY ∨ type = HWC_BACKGROUND ∨ type = HWC_SIDEBAND ∨
  type = HWC_CURSOR_OVERLAY.

(** The properties of an object before position [k] are there and none
    is called [prop_name]. *)
Definition no_match_before (props : drmModeObjectProperties)
    (prop_name : String.string) (k : nat) : Prop :=
  ∀ j q v, (j < k)%nat → props !! j = Some (q, v) →
    ∃ p, q = Some p ∧ p_name p ≠ prop_name.

(** ** nexellimporter.cpp (src/unnamed/part_001) *)

Module nexellimporter.

(** A value converted to [uint32_t]. *)
Definition to_u32 (v : Z) : Z := v mod 2 ^ 32.

(** system/graphics.h *)
Definition HAL_PIXEL_FORMAT_RGBA_8888 : Z := 1.
Definition HAL_PIXEL_FORMAT_RGBX_8888 : Z := 2.
Definition HAL_PIXEL_FORMAT_RGB_888 : Z := 3.
Definition HAL_PIXEL_FORMAT_RGB_565 : Z := 4.
Definition HAL_PIXEL_FORMAT_BGRA_8888 : Z := 5.
Definition HAL_PIXEL_FORMAT_YV12 : Z := 842094169.       (* 0x32315659 *)

(** drm_fourcc.h: [fourcc_code(a, b, c, d)], the characters as numbers. *)
Definition fourcc_code (a b c d : Z) : Z :=
  Z.lor a (Z.lor (Z.shiftl b 8) (Z.lor (Z.shiftl c 16) (Z.shiftl d 24))).

Definition DRM_FORMAT_BGR888 : Z := fourcc_code 66 71 50 52.    (* BG24 *)
Definition DRM_FORMAT_ARGB8888 : Z := fourcc_code 65 82 50 52.  (* AR24 *)
Definition DRM_FORMAT_XBGR8888 : Z := fourcc_code 88 66 50 52.  (* XB24 *)
Definition DRM_FORMAT_ABGR8888 : Z := fourcc_code 65 66 50 52.  (* AB24 *)
Definition DRM_FORMAT_BGR565 : Z := fourcc_code 66 71 49 54.    (* BG16 *)
Definition DRM_FORMAT_YVU420 : Z := fourcc_code 89 86 49 50.    (* YV12 *)

(** Both functions return [uint32_t]: [-EINVAL] comes back as
    [2^32 - 22]. *)
Definition ConvertHalFormatToDrm (hal_format : Z) : Z :=
  if hal_format =? HAL_PIXEL_FORMAT_RGB_888 then DRM_FORMAT_BGR888
  else if hal_format =? HAL_PIXEL_FORMAT_BGRA_8888 then DRM_FORMAT_ARGB8888
  else if hal_format =? HAL_PIXEL_FORMAT_RGBX_8888 then DRM_FORMAT_XBGR8888
  else if hal_format =? HAL_PIXEL_FORMAT_RGBA_8888 then DRM_FORMAT_ABGR8888
  else if hal_format =? HAL_PIXEL_FORMAT_RGB_565 then DRM_FORMAT_BGR565
  else if hal_format =? HAL_PIXEL_FORMAT_YV12 then DRM_FORMAT_YVU420
  else to_u32 (- EINVAL).

Definition GetBytePerPixel (hal_format : Z) : Z :=
  if hal_format =? HAL_PIXEL_FORMAT_RGB_888 then 3
  else if (hal_format =? HAL_PIXEL_FORMAT_BGRA_8888)
          || (hal_format =? HAL_PIXEL_FORMAT_RGBX_8888)
          || (hal_format =? HAL_PIXEL_FORMAT_RGBA_8888) then 4
  else if hal_format =? HAL_PIXEL_FORMAT_RGB_565 then 2
  else if hal_format =? HAL_PIXEL_FORMAT_YV12 then 1
  else to_u32 (- EINVAL).

(** The fields of [private_handle_t] (gralloc_priv.h) that the importer
    reads. *)
Record private_handle_t := {
  share_fd : Z;
  format : Z;
  width : Z;
  height : Z;
  stride : Z;
  flags : Z;
  offset : Z;
}.

(** [hwc_drm_bo_t], in full. *)
Record hwc_drm_bo_t := {
  bo_width : Z;
  bo_height : Z;
  bo_format : Z;
  bo_pitches : list Z;
  bo_offsets : list Z;
  bo_gem_handles : list Z;
  bo_fb_id : Z;
  bo_priv : Z;
}.

(** The kernel calls of the importer; what they return is decided by the
    calls so far, the one at hand included. *)
Inductive call :=
| drmPrimeFDToHandle (share_fd : Z)
| drmModeAddFB2 (width height format : Z)
    (gem_handles pitches offsets : list Z)
| drmModeRmFB (fb_id : Z)
| DRM_IOCTL_GEM_CLOSE (handle : Z).

Record kernel := {
  ret : list call → Z;
  out : list call → Z;
}.

Section importer.

(** The length of the arrays [pitches], [offsets] and [gem_handles] of
    [hwc_drm_bo_t], and the flag [private_handle_t::PRIV_FLAGS_FRAMEBUFFER]:
    the headers that define them are not part of src/. *)
Variable num_gem_handles : nat.
Variable PRIV_FLAGS_FRAMEBUFFER : Z.

Variable k : kernel.

(** [memset(bo, 0, sizeof(hwc_drm_bo_t))], then the element 0 of an
    array. *)
Definition first_of (v : Z) : list Z :=
  <[0%nat := v]> (replicate num_gem_handles 0).

(** [ImportBuffer].  [gr_handle] is the result of the [dynamicCast],
    [None] for NULL; [h] are the calls issued before.  The result is the
    status, [*bo] if it was written, and the calls.  When
    [drmPrimeFDToHandle] fails [gem_handle] is not initialised: the value
    the kernel record gives stands for whatever it holds.  [drmModeAddFB2]
    (libdrm) writes [bo->fb_id] only when it returns 0. *)
Definition ImportBuffer (handle : Z) (gr_handle : option private_handle_t)
    (h : list call) : Z * option hwc_drm_bo_t * list call :=
  match gr_handle with
  | None => (- EINVAL, None, h)
  | Some gr =>
      let h := h ++ [drmPrimeFDToHandle (share_fd gr)] in
      let gem_handle := out k h in
      let bo :=
        {| bo_width := to_u32 (width gr);
           bo_height := to_u32 (height gr);
           bo_format := ConvertHalFormatToDrm (to_u32 (format gr));
           bo_pitches :=
             first_of (to_u32 (stride gr
                               * GetBytePerPixel (to_u32 (format gr))));
           bo_offsets :=
             first_of (if Z.land (flags gr) PRIV_FLAGS_FRAMEBUFFER =? 0
                       then 0 else to_u32 (offset gr));
           bo_gem_handles := first_of gem_handle;
           bo_fb_id := 0;
           bo_priv := handle |} in
      let h := h ++ [drmModeAddFB2 (bo_width bo) (bo_height bo)
                       (bo_format bo) (bo_gem_handles bo) (bo_pitches bo)
                       (bo_offsets bo)] in
      if negb (ret k h =? 0) then (ret k h, Some bo, h)
      else (0, Some {| bo_width := bo_width bo; bo_height := bo_height bo;
                       bo_format := bo_format bo;
                       bo_pitches := bo_pitches bo;
                       bo_offsets := bo_offsets bo;
                       bo_gem_handles := bo_gem_handles bo;
                       bo_fb_id := out k h; bo_priv := bo_priv bo |}, h)
  end.

(** The loop of [ReleaseBuffer] over [bo->gem_handles]: the handles
    after, and the calls. *)
Fixpoint close_gem_handles (gem_handles : list Z) (h : list call)
  : list Z * list call :=
  match gem_handles with
  | [] => ([], h)
  | handle :: rest =>
      if handle =? 0
      then let '(rest', h') := close_gem_handles rest h in (handle :: rest', h')
      else
        let h := h ++ [DRM_IOCTL_GEM_CLOSE handle] in
        let '(rest', h') := close_gem_handles rest h in
        ((if negb (ret k h =? 0) then handle else 0) :: rest', h')
  end.

(** [ReleaseBuffer]: the status, [*bo] after, and the calls. *)
Definition ReleaseBuffer (bo : hwc_drm_bo_t) (h : list call)
  : Z * hwc_drm_bo_t * list call :=
  let h := if bo_fb_id bo =? 0 then h else h ++ [drmModeRmFB (bo_fb_id bo)] in
  let '(gem_handles, h) := close_gem_handles (bo_gem_handles bo) h in
  (0, {| bo_width := bo_width bo; bo_height := bo_height bo;
         bo_format := bo_format bo; bo_pitches := bo_pitches bo;
         bo_offsets := bo_offsets bo; bo_gem_handles := gem_handles;
         bo_fb_id := bo_fb_id bo; bo_priv := bo_priv bo |}, h).

End importer.

(** The resources a buffer object holds: its framebuffer and its gem
    handles, as the calls that give them back. *)
Definition releases (bo : hwc_drm_bo_t) : list call :=
  (if bo_fb_id bo =? 0 then [] else [drmModeRmFB (bo_fb_id bo)])
  ++ (DRM_IOCTL_GEM_CLOSE
        <$> filter (λ handle, handle ≠ 0) (bo_gem_handles bo)).

(** The formats the importer knows. *)
Definition supported (hal_format : Z) : Prop :=
  hal_format ∈ [ HAL_PIXEL_FORMAT_RGB_888; HAL_PIXEL_FORMAT_BGRA_8888;
                 HAL_PIXEL_FORMAT_RGBX_8888; HAL_PIXEL_FORMAT_RGBA_8888;
                 HAL_PIXEL_FORMAT_RGB_565; HAL_PIXEL_FORMAT_YV12 ].

(** A kernel for which every call succeeds, with fresh out-values. *)
Definition kernel_ok : kernel :=
  {| ret := λ _, 0; out := λ h, Z.of_nat (length h) |}.

Definition ex_handle : private_handle_t :=
  {| share_fd := 9; format := HAL_PIXEL_FORMAT_RGBA_8888; width := 1920;
     height := 1080; stride := 1920; flags := 0; offset := 0 |}.

End nexellimporter.

(** ** More example worlds *)

(** A world whose third call, the first [drmModeAtomicAddProperty] of a
    mode set, fails. *)
Definition add_fails_world : World :=
  ex_world (kernel_script 3 (-12) connected_report) ∅.

Definition fd_queue_of (id : Z) (q q_fd : list Z) : part_000.RenderWorker :=
  {| part_000.id_ := id; part_000.queue_ := q; part_000.queue_fd_ := q_fd |}.

(** * Properties *)

(** ** The primary plane of a controller *)

Lemma primary_plane_loop_spec crtc planes : ∀ i acc,
  match primary_plane_loop crtc planes i acc with
  | Some r =>
      (∃ p, (i ≤ r)%nat ∧ planes !! (r - i)%nat = Some p ∧
            plane_type p = DRM_PLANE_TYPE_PRIMARY ∧
            GetCrtcSupported p crtc = true ∧
            ∀ j q, (r - i < j)%nat → planes !! j = Some q →
                   ¬ primary_for crtc q)
      ∨ (acc = Some r ∧
         ∀ j q, planes !! j = Some q → ¬ primary_for crtc q)
  | None =>
      acc = None ∧
      ∀ j q, planes !! j = Some q → ¬ primary_for crtc q
  end.
Proof.
  induction planes as [|p planes IH]; intros i acc; simpl.
  - destruct acc; [right|]; split; auto; intros j q Hj; done.
  - specialize (IH (S i) (if (plane_type p =? DRM_PLANE_TYPE_PRIMARY)
                            && GetCrtcSupported p crtc
                         then Some i else acc)).
    destruct (primary_plane_loop _ _ _ _) as [r|].
    + destruct IH as [(q & Hle & Hq & Ht & Hs & Hlast)|[Hacc Hnone]].
      * left. exists q. replace (r - i)%nat with (S (r - S i)) by lia.
        repeat split; auto; try lia.
        intros j q' Hj Hq'. destruct j as [|j]; [lia|].
        apply (Hlast j q'); [lia|done].
      * destruct ((plane_type p =? DRM_PLANE_TYPE_PRIMARY)
                  && GetCrtcSupported p crtc) eqn:Hm.
        -- left. inversion Hacc; subst r. exists p.
           replace (i - i)%nat with 0%nat by lia.
           apply andb_true_iff in Hm as [Ht Hs]. apply Z.eqb_eq in Ht.
           repeat split; auto.
           intros j q' Hj Hq'. destruct j as [|j]; [lia|].
           apply (Hnone j q'). done.
        -- right. split; [done|]. intros [|j] q' Hq'.
           ++ inversion Hq'; subst q'. intros [Ht Hs].
              rewrite Ht, Hs in Hm. done.
           ++ apply (Hnone j q'). done.
    + destruct IH as [Hacc Hnone].
      destruct ((plane_type p =? DRM_PLANE_TYPE_PRIMARY)
                && GetCrtcSupported p crtc) eqn:Hm; [done|].
      split; [done|]. intros [|j] q' Hq'.
      * inversion Hq'; subst q'. intros [Ht Hs]. rewrite Ht, Hs in Hm. done.
      * apply (Hnone j q'). done.
Qed.

(** C9.  [GetPrimaryPlaneForCrtc] returns the last plane, in the order of
    [planes_], that is primary and may be attached to the controller, and
    null when no plane is. *)
Theorem GetPrimaryPlaneForCrtc_last_match st crtc :
  match GetPrimaryPlaneForCrtc st crtc with
  | Some i =>
      ∃ plane, planes_ st !! i = Some plane ∧ primary_for crtc plane ∧
               ∀ j q, (i < j)%nat → planes_ st !! j = Some q →
                      ¬ primary_for crtc q
  | None => ∀ j q, planes_ st !! j = Some q → ¬ primary_for crtc q
  end.
Proof.
  unfold GetPrimaryPlaneForCrtc.
  pose proof (primary_plane_loop_spec crtc (planes_ st) 0 None) as H.
  destruct (primary_plane_loop crtc (planes_ st) 0 None) as [r|].
  - destruct H as [(p & _ & Hp & Ht & Hs & Hlast)|[Hacc _]]; [|done].
    rewrite Nat.sub_0_r in Hp, Hlast. exists p. by repeat split.
  - by destruct H.
Qed.

(** ** The binding resolver is first fit *)

Lemma alter_fixed {A} (f : A → A) (l : list A) i :
  (∀ x, l !! i = Some x → f x = x) → alter f i l = l.
Proof.
  intros Hf. apply list_eq. intros j.
  destruct (decide (i = j)) as [->|Hne].
  - rewrite list_lookup_alter_eq. destruct (l !! j) eqn:E; simpl; [|done].
    by rewrite Hf.
  - by rewrite list_lookup_alter_ne.
Qed.

Lemma set_crtc_current ei ci st enc :
  encoders_ st !! ei = Some enc → enc_crtc enc = Some ci →
  set_crtc ei ci st = st.
Proof.
  intros He Hc. unfold set_crtc. rewrite alter_fixed; [by destruct st|].
  intros x Hx. rewrite He in Hx. inversion Hx; subst x.
  destruct enc; simpl in *. by subst.
Qed.

Lemma set_encoder_current ki ei st conn :
  connectors_ st !! ki = Some conn → conn_encoder conn = Some ei →
  set_encoder ki ei st = st.
Proof.
  intros He Hc. unfold set_encoder. rewrite alter_fixed; [by destruct st|].
  intros x Hx. rewrite He in Hx. inversion Hx; subst x.
  destruct conn; simpl in *. by subst.
Qed.

Lemma try_possible_crtcs_spec display ei enc st possible :
  (∀ ci, ci ∈ possible → (ci < length (crtcs_ st))%nat) →
  (∀ ci, enc_crtc enc = Some ci → usable st display ci = false) →
  try_possible_crtcs display ei enc possible st =
  Some match List.find (usable st display) possible with
       | Some ci => (0, set_display ci display (set_crtc ei ci st))
       | None => (- EAGAIN, st)
       end.
Proof.
  intros Hin Hcur. induction possible as [|ci rest IH]; simpl; [done|].
  assert (Hrest : ∀ c, c ∈ rest → (c < length (crtcs_ st))%nat).
  { intros c Hc. apply Hin. by right. }
  destruct (decide (Some ci = enc_crtc enc)) as [Heq|Hne].
  - rewrite (Hcur ci) by done. by apply IH.
  - destruct (lookup_lt_is_Some_2 (crtcs_ st) ci) as [crtc Hcrtc].
    { apply Hin. by left. }
    unfold usable at 1. rewrite Hcrtc. simpl.
    destruct (can_bind crtc display); [done|]. by apply IH.
Qed.

Lemma TryEncoderForDisplay_spec display ei enc st :
  wf_resources st → encoders_ st !! ei = Some enc →
  TryEncoderForDisplay display ei st =
  Some match first_fit_crtc st display ei with
       | Some ci => (0, set_display ci display (set_crtc ei ci st))
       | None => (- EAGAIN, st)
       end.
Proof.
  intros [Hwf _] He. unfold TryEncoderForDisplay, first_fit_crtc.
  rewrite He. simpl. destruct (Hwf ei enc He) as [Hcur Hposs].
  unfold encoder_search_order.
  destruct (enc_crtc enc) as [ci|] eqn:Hc; simpl.
  - destruct (lookup_lt_is_Some_2 (crtcs_ st) ci) as [crtc Hcrtc]; [auto|].
    rewrite Hcrtc. simpl. unfold usable at 1. rewrite Hcrtc.
    destruct (can_bind crtc display) eqn:Hb.
    + by rewrite (set_crtc_current ei ci st enc).
    + apply try_possible_crtcs_spec; [done|].
      intros c Hc'. rewrite Hc in Hc'. inversion Hc'; subst c.
      unfold usable. by rewrite Hcrtc.
  - apply try_possible_crtcs_spec; [done|]. rewrite Hc. done.
Qed.

Lemma try_possible_encoders_spec display ki st possible :
  wf_resources st →
  (∀ ei, ei ∈ possible → (ei < length (encoders_ st))%nat) →
  try_possible_encoders display ki possible st =
  Some match first_fit st display possible with
       | Some (ei, ci) => (0, bind_pipe ki ei ci display st)
       | None => (- ENODEV, st)
       end.
Proof.
  intros Hwf Hin. induction possible as [|ei rest IH]; simpl; [done|].
  destruct (lookup_lt_is_Some_2 (encoders_ st) ei) as [enc Henc].
  { apply Hin. by left. }
  rewrite (TryEncoderForDisplay_spec display ei enc st Hwf Henc). simpl.
  destruct (first_fit_crtc st display ei) as [ci|]; simpl; [done|].
  apply IH. intros e He. apply Hin. by right.
Qed.

Lemma CreateDisplayPipe_first_fit ki st :
  wf_resources st → CreateDisplayPipe ki st = first_fit_binding ki st.
Proof.
  intros Hwf. unfold CreateDisplayPipe, first_fit_binding.
  destruct (connectors_ st !! ki) as [conn|] eqn:Hconn; simpl; [|done].
  destruct Hwf as [Hwe Hwc]. destruct (Hwc ki conn Hconn) as [Hcur Hposs].
  unfold connector_search_order.
  destruct (conn_encoder conn) as [e0|] eqn:He0; simpl.
  - destruct (lookup_lt_is_Some_2 (encoders_ st) e0) as [enc Henc]; [auto|].
    rewrite (TryEncoderForDisplay_spec _ e0 enc st (conj Hwe Hwc) Henc).
    simpl. destruct (first_fit_crtc st (conn_display conn) e0) as [ci|]; simpl.
    + unfold bind_pipe.
      by rewrite (set_encoder_current ki e0 _ conn).
    + by apply try_possible_encoders_spec.
  - by apply try_possible_encoders_spec.
Qed.

(** C1.  On a graph whose pointers are valid, [CreateDisplayPipe] is the
    first-fit search of the specification: bound encoder first, then the
    legal encoders in order, within an encoder its current controller and
    then its legal controllers in order; the first controller that can
    serve the display is bound (display of the controller, controller of
    the encoder, encoder of the output) and 0 returned; when there is none
    the result is -ENODEV and the graph is unchanged. *)
Theorem CreateDisplayPipe_is_first_fit ki st :
  wf_resources st → CreateDisplayPipe ki st = first_fit_binding ki st.
Proof. apply CreateDisplayPipe_first_fit. Qed.

(** ** The invariant of the resolver *)

Lemma find_is_Some {A} (f : A → bool) (l : list A) x :
  x ∈ l → f x = true → is_Some (List.find f l).
Proof.
  intros Hin Hf. destruct (List.find f l) eqn:E; [by eexists|].
  apply list_elem_of_In in Hin.
  pose proof (List.find_none f l E x Hin). congruence.
Qed.

Lemma first_fit_crtc_Some st d ei ci :
  first_fit_crtc st d ei = Some ci →
  ∃ enc, encoders_ st !! ei = Some enc ∧
         ci ∈ encoder_search_order enc ∧ usable st d ci = true.
Proof.
  unfold first_fit_crtc. destruct (encoders_ st !! ei) as [enc|]; [|done].
  simpl. intros H. apply List.find_some in H as [Hin Hu].
  exists enc. split; [done|]. split; [by apply list_elem_of_In|done].
Qed.

Lemma first_fit_Some st d encs ei ci :
  first_fit st d encs = Some (ei, ci) →
  ei ∈ encs ∧ first_fit_crtc st d ei = Some ci.
Proof.
  induction encs as [|e rest IH]; simpl; [done|].
  destruct (first_fit_crtc st d e) as [c|] eqn:E.
  - intros H. inversion H; subst. split; [by left|done].
  - intros H. destruct (IH H). split; [by right|done].
Qed.

Lemma first_fit_head st d e0 rest ei ci :
  first_fit st d (e0 :: rest) = Some (ei, ci) →
  is_Some (first_fit_crtc st d e0) → ei = e0.
Proof. simpl. intros H [c Hc]. rewrite Hc in H. by inversion H. Qed.

Lemma usable_display st d ci :
  usable st d ci = true →
  ∃ crtc, crtcs_ st !! ci = Some crtc ∧
          (crtc_display crtc = None ∨ crtc_display crtc = Some d).
Proof.
  unfold usable, can_bind. destruct (crtcs_ st !! ci) as [crtc|]; [|done].
  intros H. exists crtc. split; [done|].
  destruct (crtc_display crtc); [|by left]. right.
  apply bool_decide_eq_true in H. by subst.
Qed.

Lemma bind_pipe_inv ki conn ei ci st :
  binding_inv st → connectors_ st !! ki = Some conn →
  first_fit st (conn_display conn) (connector_search_order conn)
    = Some (ei, ci) →
  binding_inv (bind_pipe ki ei ci (conn_display conn) st).
Proof.
  intros (Hwf & Hlegal & Hdist & Hpipe) Hconn Hff.
  destruct Hwf as [Hwe Hwc]. destruct Hlegal as [Hle Hlc].
  apply first_fit_Some in Hff as Hff'. destruct Hff' as [Hei Hfc].
  apply first_fit_crtc_Some in Hfc as Hfc'.
  destruct Hfc' as (enc & Henc & Hci & Hus).
  assert (Hei' : ei ∈ conn_possible_encoders conn).
  { unfold connector_search_order in Hei. apply elem_of_app in Hei as [Hei|Hei]; [|done].
    destruct (conn_encoder conn) as [e0|] eqn:He0; simpl in Hei.
    - apply list_elem_of_singleton in Hei. subst. by apply (Hlc ki conn).
    - by apply elem_of_nil in Hei. }
  assert (Hci' : ci ∈ enc_possible_crtcs enc).
  { unfold encoder_search_order in Hci. apply elem_of_app in Hci as [Hci|Hci]; [|done].
    destruct (enc_crtc enc) as [c0|] eqn:Hc0; simpl in Hci.
    - apply list_elem_of_singleton in Hci. subst. by apply (Hle ei enc).
    - by apply elem_of_nil in Hci. }
  assert (Hci_lt : (ci < length (crtcs_ st))%nat).
  { destruct (Hwe _ _ Henc) as [_ Hp]. by apply Hp. }
  assert (Hei_lt : (ei < length (encoders_ st))%nat).
  { destruct (Hwc _ _ Hconn) as [_ Hp]. by apply Hp. }
  unfold binding_inv, bind_pipe.
  split; [|split; [|split]].
  - (* pointers stay in range *)
    split; simpl; rewrite ?length_alter.
    + intros e' e He. rewrite list_lookup_alter in He.
      case_decide; simplify_eq.
      * rewrite Henc in He. simplify_eq/=.
        destruct (Hwe _ _ Henc) as [_ Hp].
        split; [by intros c ?; simplify_eq|done].
      * by apply (Hwe e').
    + intros k c Hk. rewrite list_lookup_alter in Hk.
      case_decide; simplify_eq.
      * rewrite Hconn in Hk. simplify_eq/=.
        destruct (Hwc _ _ Hconn) as [_ Hp].
        split; [by intros e ?; simplify_eq|done].
      * by apply (Hwc k).
  - (* current bindings stay legal *)
    split; simpl.
    + intros e' e c He Hc. rewrite list_lookup_alter in He.
      case_decide; simplify_eq.
      * rewrite Henc in He. by simplify_eq/=.
      * by apply (Hle e' e c).
    + intros k c e Hk Hc. rewrite list_lookup_alter in Hk.
      case_decide; simplify_eq.
      * rewrite Hconn in Hk. by simplify_eq/=.
      * by apply (Hlc k c e).
  - (* display indices are not touched *)
    intros k1 k2 c1 c2 H1 H2 Hd. simpl in H1, H2.
    assert (Hsame : ∀ k c, alter (DrmConnector_set_encoder ei) ki
                             (connectors_ st) !! k = Some c →
              ∃ c', connectors_ st !! k = Some c' ∧
                    conn_display c' = conn_display c).
    { intros k c Hk. rewrite list_lookup_alter in Hk.
      case_decide; simplify_eq.
      - rewrite Hconn in Hk. simplify_eq/=. by exists conn.
      - by exists c. }
    destruct (Hsame _ _ H1) as (c1' & Hc1 & Hd1).
    destruct (Hsame _ _ H2) as (c2' & Hc2 & Hd2).
    apply (Hdist k1 k2 c1' c2'); congruence.
  - (* pipelines *)
    intros k c x crtc Hk Hx Hserve. simpl in Hk, Hx. simpl.
    rewrite list_lookup_alter in Hk. rewrite list_lookup_alter in Hx.
    destruct (decide (ki = k)) as [->|Hk'].
    + rewrite Hconn in Hk. simplify_eq/=.
      destruct (decide (ci = x)) as [->|Hx'].
      * exists ei, (DrmEncoder_set_crtc x enc). repeat split; try done.
        by rewrite list_lookup_alter_eq, Henc.
      * destruct (Hpipe k conn x crtc Hconn Hx Hserve)
          as (e0 & enc0 & He0 & He0p & Henc0 & Hxp).
        assert (ei = e0) as ->.
        { unfold connector_search_order in Hff. rewrite He0 in Hff.
          simpl in Hff. eapply first_fit_head; [exact Hff|].
          unfold first_fit_crtc. rewrite Henc0. simpl.
          apply (find_is_Some _ _ x).
          - unfold encoder_search_order. apply elem_of_app. by right.
          - unfold usable. rewrite Hx. unfold can_bind. rewrite Hserve.
            by apply bool_decide_eq_true. }
        exists e0, (DrmEncoder_set_crtc ci enc). repeat split; try done.
        -- by rewrite list_lookup_alter_eq, Henc.
        -- simpl. by simplify_eq.
    + destruct (decide (ci = x)) as [->|Hx'].
      * exfalso. apply usable_display in Hus as (crtc0 & Hc0 & _).
        rewrite Hc0 in Hx. simplify_eq/=.
        apply Hk'. apply (Hdist ki k conn c); congruence.
      * destruct (Hpipe k c x crtc Hk Hx Hserve)
          as (e0 & enc0 & He0 & He0p & Henc0 & Hxp).
        destruct (decide (ei = e0)) as [->|Hne].
        -- exists e0, (DrmEncoder_set_crtc ci enc0). repeat split; try done.
           by rewrite list_lookup_alter_eq, Henc0.
        -- exists e0, enc0. repeat split; try done.
           by rewrite list_lookup_alter_ne.
Qed.

Lemma CreateDisplayPipe_inv ki st r st' :
  binding_inv st → CreateDisplayPipe ki st = Some (r, st') → binding_inv st'.
Proof.
  intros Hinv. rewrite CreateDisplayPipe_first_fit by apply Hinv.
  unfold first_fit_binding.
  destruct (connectors_ st !! ki) as [conn|] eqn:Hconn; simpl; [|done].
  destruct (first_fit _ _ _) as [[ei ci]|] eqn:Hff; intros H; inversion H; subst.
  - by apply (bind_pipe_inv ki conn).
  - done.
Qed.

Lemma init_crtcs_listed l : ∀ pre acc crtcs,
  init_crtcs l (length acc) acc = (0, crtcs) →
  length pre = length acc →
  (∀ x crtc, acc !! x = Some crtc → crtc_listed (pre ++ l) x crtc) →
  ∀ x crtc, crtcs !! x = Some crtc → crtc_listed (pre ++ l) x crtc.
Proof.
  induction l as [|[c|] rest IH]; intros pre acc crtcs; simpl.
  - intros H. by simplify_eq.
  - destruct (k_crtc_init c =? 0) eqn:Hinit; simpl.
    + intros H Hlen Hacc.
      replace (pre ++ Some c :: rest) with ((pre ++ [Some c]) ++ rest)
        by by rewrite <- app_assoc.
      apply (IH (pre ++ [Some c]) (acc ++ [new_DrmCrtc c (length acc)])).
      * rewrite length_app. simpl.
        by replace (length acc + 1)%nat with (S (length acc)) by lia.
      * rewrite !length_app. simpl. lia.
      * intros x crtc Hx. rewrite <- app_assoc. simpl.
        apply lookup_app_Some in Hx as [Hx|[Hge Hx]]; [by apply Hacc|].
        destruct (x - length acc)%nat as [|n] eqn:Hn; simpl in Hx; [|done].
        simplify_eq. assert (x = length acc) as -> by lia.
        split; [done|]. split; [done|]. exists c. split; [|done].
        rewrite <- Hlen. by rewrite list_lookup_middle.
    + intros H. apply Z.eqb_neq in Hinit. by simplify_eq.
  - intros H. by simplify_eq.
Qed.

Lemma encoder_crtcs_spec e crtcs : ∀ i possible current p cur,
  encoder_crtcs e crtcs i possible current = (p, cur) →
  (∀ x, x ∈ p ↔
        x ∈ possible ∨
        ∃ j crtc, x = (i + j)%nat ∧ crtcs !! j = Some crtc ∧
                  crtc_bit (k_enc_possible_crtcs e) crtc) ∧
  (cur = current ∨
   ∃ j crtc, cur = Some (i + j)%nat ∧ crtcs !! j = Some crtc ∧
             crtc_id crtc = k_enc_crtc_id e).
Proof.
  induction crtcs as [|crtc rest IH]; intros i possible current p cur; simpl.
  - intros H. simplify_eq. split; [|by left].
    intros x. split; [by left|]. intros [H|(j & c & _ & H & _)]; done.
  - intros H. apply IH in H as [Hp Hc]. split.
    + intros x. rewrite Hp. split.
      * intros [Hx|(j & c & -> & Hj & Hb)].
        -- destruct (Z.land _ _ =? 0) eqn:Hbit; simpl in Hx; [by left|].
           apply elem_of_app in Hx as [Hx|Hx]; [by left|].
           apply list_elem_of_singleton in Hx. subst x. right.
           exists 0%nat, crtc. split; [lia|]. split; [done|].
           unfold crtc_bit. by apply Z.eqb_neq.
        -- right. exists (S j), c. split; [lia|]. by split.
      * intros [Hx|(j & c & -> & Hj & Hb)].
        -- left. destruct (Z.land _ _ =? 0); simpl; [done|].
           apply elem_of_app. by left.
        -- destruct j as [|j]; simpl in Hj.
           ++ simplify_eq. left. unfold crtc_bit in Hb.
              apply Z.eqb_neq in Hb. rewrite Hb. simpl.
              apply elem_of_app. right. apply list_elem_of_singleton. lia.
           ++ right. exists j, c. split; [lia|]. by split.
    + destruct Hc as [->|(j & c & -> & Hj & Hid)].
      * destruct (crtc_id crtc =? k_enc_crtc_id e) eqn:Hid; [|by left].
        right. exists 0%nat, crtc. split; [f_equal; lia|]. split; [done|].
        by apply Z.eqb_eq.
      * right. exists (S j), c. split; [f_equal; lia|]. by split.
Qed.

Lemma init_encoders_Forall (P : DrmEncoder → Prop) crtcs l : ∀ acc ret encs,
  init_encoders crtcs l acc = (ret, encs) →
  Forall P acc →
  (∀ e p cur, Some e ∈ l → encoder_crtcs e crtcs 0 [] None = (p, cur) →
              P (new_DrmEncoder e cur p)) →
  Forall P encs.
Proof.
  induction l as [|[e|] rest IH]; intros acc ret encs; simpl.
  - intros H. by simplify_eq.
  - destruct (encoder_crtcs e crtcs 0 [] None) as [p cur] eqn:He.
    intros H Hacc Hnew. apply IH in H; [done| |].
    + apply Forall_app. split; [done|]. apply Forall_singleton.
      apply Hnew; [by left|done].
    + intros e' p' cur' Hin. apply Hnew. by right.
  - intros H. by simplify_eq.
Qed.

Lemma connector_encoders_of_spec c enc_j encoders :
  ∀ i possible current p cur,
  connector_encoders_of c enc_j encoders i possible current = (p, cur) →
  (∀ x, x ∈ p ↔
        x ∈ possible ∨
        ∃ j enc, x = (i + j)%nat ∧ encoders !! j = Some enc ∧
                 enc_id enc = enc_j) ∧
  (cur = current ∨
   ∃ j enc, cur = Some (i + j)%nat ∧ encoders !! j = Some enc ∧
            enc_id enc = k_conn_encoder_id c).
Proof.
  induction encoders as [|enc rest IH]; intros i possible current p cur; simpl.
  - intros H. simplify_eq. split; [|by left].
    intros x. split; [by left|]. intros [H|(j & e & _ & H & _)]; done.
  - intros H. apply IH in H as [Hp Hc]. split.
    + intros x. rewrite Hp. split.
      * intros [Hx|(j & e & -> & Hj & Hb)].
        -- destruct (enc_id enc =? enc_j) eqn:Hid; [|by left].
           apply elem_of_app in Hx as [Hx|Hx]; [by left|].
           apply list_elem_of_singleton in Hx. subst x. right.
           exists 0%nat, enc. split; [lia|]. split; [done|].
           by apply Z.eqb_eq.
        -- right. exists (S j), e. split; [lia|]. by split.
      * intros [Hx|(j & e & -> & Hj & Hb)].
        -- left. destruct (enc_id enc =? enc_j); [|done].
           apply elem_of_app. by left.
        -- destruct j as [|j]; simpl in Hj.
           ++ simplify_eq. left. rewrite Z.eqb_refl.
              apply elem_of_app. right. apply list_elem_of_singleton. lia.
           ++ right. exists j, e. split; [lia|]. by split.
    + destruct Hc as [->|(j & e & -> & Hj & Hid)].
      * destruct (enc_id enc =? k_conn_encoder_id c) eqn:Hid; [|by left].
        right. exists 0%nat, enc. split; [f_equal; lia|]. split; [done|].
        by apply Z.eqb_eq.
      * right. exists (S j), e. split; [f_equal; lia|]. by split.
Qed.

Lemma connector_encoders_spec c encoders js : ∀ possible current p cur,
  connector_encoders c js encoders possible current = (p, cur) →
  (∀ x, x ∈ p ↔
        x ∈ possible ∨
        ∃ enc, encoders !! x = Some enc ∧ enc_id enc ∈ js) ∧
  (cur = current ∨
   ∃ x enc, cur = Some x ∧ encoders !! x = Some enc ∧
            enc_id enc = k_conn_encoder_id c).
Proof.
  induction js as [|enc_j rest IH]; intros possible current p cur; simpl.
  - intros H. simplify_eq. split; [|by left].
    intros x. split; [by left|].
    intros [H|(e & _ & H)]; [done|]. by apply elem_of_nil in H.
  - destruct (connector_encoders_of c enc_j encoders 0 possible current)
      as [p1 cur1] eqn:H1.
    intros H. apply IH in H as [Hp Hc].
    apply connector_encoders_of_spec in H1 as [Hp1 Hc1]. split.
    + intros x. rewrite Hp, Hp1. split.
      * intros [[Hx|(j & e & -> & Hj & Hid)]|(e & He & Hin)].
        -- by left.
        -- right. exists e. split; [done|]. subst. by left.
        -- right. exists e. split; [done|]. by right.
      * intros [Hx|(e & He & Hin)]; [by left; left|].
        apply elem_of_cons in Hin as [Hin|Hin].
        -- left. right. exists x, e. by repeat split.
        -- right. by exists e.
    + destruct Hc as [->|Hc]; [|by right].
      destruct Hc1 as [->|(j & e & -> & Hj & Hid)]; [by left|].
      right. by exists (0 + j)%nat, e.
Qed.

Lemma init_connectors_Forall (P : DrmConnector → Prop) encoders l :
  ∀ found num acc ret conns,
  init_connectors encoders l found num acc = (ret, conns) →
  Forall P acc →
  (∀ c p cur d, Some c ∈ l →
     connector_encoders c (k_conn_encoders c) encoders [] None = (p, cur) →
     P (DrmConnector_set_display d (new_DrmConnector c cur p))) →
  Forall P conns.
Proof.
  induction l as [|[c|] rest IH]; intros found num acc ret conns; simpl.
  - intros H. by simplify_eq.
  - destruct (connector_encoders c (k_conn_encoders c) encoders [] None)
      as [p cur] eqn:Hc.
    destruct (k_conn_init c =? 0); simpl; [|intros H; by simplify_eq].
    intros H Hacc Hnew.
    destruct found; simpl in H; apply IH in H; try done.
    + apply Forall_app. split; [done|]. apply Forall_singleton.
      apply Hnew; [by left|done].
    + intros c' p' cur' d' Hin. apply Hnew. by right.
    + apply Forall_app. split; [done|]. apply Forall_singleton.
      apply Hnew; [by left|done].
    + intros c' p' cur' d' Hin. apply Hnew. by right.
  - intros H. by simplify_eq.
Qed.

Lemma displays_below_snoc found num num' acc conn :
  displays_below found num acc →
  (∀ k c, acc !! k = Some c → conn_display c < conn_display conn) →
  conn_display conn < num' → num ≤ num' →
  displays_below true num' (acc ++ [conn]).
Proof.
  intros (Hnum & Hnil & Hlt & Hdist) Hnew Hd Hle.
  split; [lia|]. split; [done|]. split.
  - intros k c Hk. apply lookup_app_Some in Hk as [Hk|[_ Hk]].
    + specialize (Hlt _ _ Hk). lia.
    + destruct (k - length acc)%nat; simpl in Hk; [|done]. by simplify_eq.
  - intros k1 k2 c1 c2 H1 H2 Heq.
    apply lookup_app_Some in H1 as [H1|[Hge1 H1]];
      apply lookup_app_Some in H2 as [H2|[Hge2 H2]].
    + by apply (Hdist k1 k2 c1 c2).
    + destruct (k2 - length acc)%nat; simpl in H2; [|done]. simplify_eq.
      specialize (Hnew _ _ H1). lia.
    + destruct (k1 - length acc)%nat; simpl in H1; [|done]. simplify_eq.
      specialize (Hnew _ _ H2). lia.
    + destruct (k1 - length acc)%nat eqn:E1; simpl in H1; [|done].
      destruct (k2 - length acc)%nat eqn:E2; simpl in H2; [|done]. lia.
Qed.

Lemma init_connectors_distinct encoders l :
  ∀ found num acc ret conns,
  init_connectors encoders l found num acc = (ret, conns) →
  displays_below found num acc →
  ∃ found' num', displays_below found' num' conns.
Proof.
  induction l as [|[c|] rest IH]; intros found num acc ret conns; simpl.
  - intros H Hinv. simplify_eq. by exists found, num.
  - destruct (connector_encoders c (k_conn_encoders c) encoders [] None)
      as [p cur] eqn:Hc.
    destruct (k_conn_init c =? 0); simpl;
      [|intros H Hinv; simplify_eq; by exists found, num].
    intros H Hinv. destruct found; simpl in H; apply IH in H; try done.
    + apply (displays_below_snoc true num); simpl; try done; try lia.
      destruct Hinv as (_ & _ & Hlt & _). done.
    + apply (displays_below_snoc false num); simpl; try done; try lia.
      * destruct Hinv as (_ & Hnil & _). rewrite Hnil by done. done.
      * destruct Hinv as (? & _). lia.
  - intros H Hinv. simplify_eq. by exists found, num.
Qed.

Lemma graph_inv res crtcs r2 encoders r3 connectors planes :
  kernel_consistent res →
  init_crtcs (res_crtcs res) 0 [] = (0, crtcs) →
  init_encoders crtcs (res_encoders res) [] = (r2, encoders) →
  init_connectors encoders (res_connectors res) false 1 [] = (r3, connectors) →
  binding_inv {| crtcs_ := crtcs; encoders_ := encoders;
                 connectors_ := connectors; planes_ := planes |}.
Proof.
  intros [Hke Hkc] Hcrtcs Hencs Hconns.
  assert (Hlisted : ∀ x crtc, crtcs !! x = Some crtc →
                              crtc_listed (res_crtcs res) x crtc).
  { apply (init_crtcs_listed (res_crtcs res) [] [] crtcs); try done. }
  set (P := λ enc : DrmEncoder,
         (∀ ci, enc_crtc enc = Some ci → ci ∈ enc_possible_crtcs enc) ∧
         (∀ ci, ci ∈ enc_possible_crtcs enc → (ci < length crtcs)%nat) ∧
         ∃ e, Some e ∈ res_encoders res ∧ enc_id enc = k_encoder_id e).
  assert (HP : Forall P encoders).
  { eapply init_encoders_Forall; [exact Hencs|by apply Forall_nil|].
    intros e p cur He Hec. apply encoder_crtcs_spec in Hec as [Hp Hcur].
    unfold P; simpl. split; [|split].
    - intros ci ->. destruct Hcur as [?|(j & crtc & ? & Hj & Hid)]; [done|].
      simplify_eq. apply Hp. right. exists j, crtc. split; [done|].
      split; [done|]. destruct (Hlisted _ _ Hj) as (Hpipe & _ & c & Hc & Hcid).
      unfold crtc_bit. rewrite Hpipe. apply (Hke e j c); [done|done|congruence].
    - intros ci Hci. apply Hp in Hci as [Hci|(j & crtc & -> & Hj & _)].
      + by apply elem_of_nil in Hci.
      + by apply lookup_lt_Some in Hj.
    - by exists e. }
  set (Q := λ conn : DrmConnector,
         (∀ ei, conn_encoder conn = Some ei →
                ei ∈ conn_possible_encoders conn) ∧
         (∀ ei, ei ∈ conn_possible_encoders conn →
                (ei < length encoders)%nat)).
  assert (HQ : Forall Q connectors).
  { eapply init_connectors_Forall; [exact Hconns|by apply Forall_nil|].
    intros c p cur d Hc Hce. apply connector_encoders_spec in Hce as [Hp Hcur].
    unfold Q; simpl. split.
    - intros ei ->. destruct Hcur as [?|(x & enc & ? & Hx & Hid)]; [done|].
      simplify_eq. apply Hp. right. exists enc. split; [done|].
      rewrite Forall_lookup in HP. destruct (HP _ _ Hx) as (_ & _ & e & He & Heid).
      rewrite Hid. apply (Hkc c e); [done|done|congruence].
    - intros ei Hei. apply Hp in Hei as [Hei|(enc & Hx & _)].
      + by apply elem_of_nil in Hei.
      + by apply lookup_lt_Some in Hx. }
  rewrite Forall_lookup in HP. rewrite Forall_lookup in HQ.
  split; [|split; [|split]].
  - split; simpl.
    + intros ei e He. destruct (HP _ _ He) as (Hcur & Hposs & _).
      split; [|done]. intros ci Hci. by apply Hposs, Hcur.
    + intros ki c Hc. destruct (HQ _ _ Hc) as (Hcur & Hposs).
      split; [|done]. intros ei Hei. by apply Hposs, Hcur.
  - split; simpl.
    + intros ei e ci He. by apply (HP _ _ He).
    + intros ki c ei Hc. by apply (HQ _ _ Hc).
  - destruct (init_connectors_distinct _ _ _ _ _ _ _ Hconns)
      as (found' & num' & _ & _ & _ & Hd).
    + split; [lia|]. split; [done|]. split; intros; done.
    + intros k1 k2 c1 c2. simpl. apply Hd.
  - intros ki conn ci crtc _ Hcrtc Hd. simpl in Hcrtc.
    destruct (Hlisted _ _ Hcrtc) as (_ & Hnone & _). congruence.
Qed.

Lemma CreateDisplayPipe_effect ki st r st' :
  wf_resources st → CreateDisplayPipe ki st = Some (r, st') →
  keeps_served st st' ∧ same_displays st st' ∧
  (r = 0 → ∀ conn, connectors_ st !! ki = Some conn → served st' conn).
Proof.
  intros Hwf. rewrite CreateDisplayPipe_first_fit by done.
  unfold first_fit_binding.
  destruct (connectors_ st !! ki) as [conn|] eqn:Hconn; simpl; [|done].
  destruct (first_fit _ _ _) as [[ei ci]|] eqn:Hff; intros H; simplify_eq.
  - apply first_fit_Some in Hff as [_ Hfc].
    apply first_fit_crtc_Some in Hfc as (enc & Henc & Hci & Hus).
    apply usable_display in Hus as (crtc0 & Hc0 & Hd0).
    split; [|split].
    + intros x crtc d Hx Hd. unfold bind_pipe. simpl.
      rewrite list_lookup_alter. case_decide; subst.
      * rewrite Hx. simpl. eexists. split; [done|]. simpl.
        rewrite Hx in Hc0. destruct Hd0 as [Hd0|Hd0]; congruence.
      * by exists crtc.
    + intros k. unfold bind_pipe. simpl. rewrite list_lookup_alter.
      case_decide; simplify_eq; [|done]. rewrite Hconn. done.
    + intros _ conn' ?. simplify_eq. exists ci. unfold bind_pipe. simpl.
      rewrite list_lookup_alter_eq, Hc0. simpl. by eexists.
  - split; [|split].
    + intros x crtc d Hx Hd. by exists crtc.
    + done.
    + unfold ENODEV. done.
Qed.

Lemma keeps_served_trans st1 st2 st3 :
  keeps_served st1 st2 → keeps_served st2 st3 → keeps_served st1 st3.
Proof.
  intros H1 H2 ci crtc d Hc Hd.
  destruct (H1 _ _ _ Hc Hd) as (crtc' & Hc' & Hd'). by apply (H2 _ crtc').
Qed.

Lemma served_kept st st' conn conn' :
  keeps_served st st' → conn_display conn = conn_display conn' →
  served st conn → served st' conn'.
Proof.
  intros Hk Hd (ci & crtc & Hc & Hs).
  destruct (Hk _ _ _ Hc Hs) as (crtc' & Hc' & Hs').
  exists ci, crtc'. split; [done|]. congruence.
Qed.

Lemma create_display_pipes_inv conns : ∀ st r st',
  binding_inv st → create_display_pipes conns st = Some (r, st') →
  binding_inv st' ∧ keeps_served st st' ∧ same_displays st st' ∧
  (r = 0 → ∀ ki conn, ki ∈ conns → connectors_ st' !! ki = Some conn →
           served st' conn).
Proof.
  induction conns as [|ki rest IH]; intros st r st' Hinv; simpl.
  - intros H. simplify_eq. split; [done|]. split.
    + intros x crtc d ??. by exists crtc.
    + split; [done|]. intros _ ki conn Hki. by apply elem_of_nil in Hki.
  - destruct (CreateDisplayPipe ki st) as [[r1 st1]|] eqn:H1; simpl; [|done].
    pose proof (CreateDisplayPipe_inv _ _ _ _ Hinv H1) as Hinv1.
    destruct (CreateDisplayPipe_effect _ _ _ _ (proj1 Hinv) H1)
      as (Hk1 & Hs1 & Hb1).
    destruct (r1 =? 0) eqn:Hr1; simpl.
    + apply Z.eqb_eq in Hr1. subst r1. intros H.
      destruct (IH _ _ _ Hinv1 H) as (Hinv' & Hk' & Hs' & Hb').
      split; [done|]. split; [by apply (keeps_served_trans _ st1)|].
      split; [intros k; by rewrite Hs1, Hs'|].
      intros Hr k conn Hk Hc. apply elem_of_cons in Hk as [->|Hk].
      * pose proof (Hs' ki) as Hd. rewrite Hc in Hd. simpl in Hd.
        destruct (connectors_ st1 !! ki) as [c1|] eqn:Hc1; [|done].
        pose proof (Hs1 ki) as Hd1. rewrite Hc1 in Hd1. simpl in Hd1.
        destruct (connectors_ st !! ki) as [c0|] eqn:Hc0; [|done].
        simpl in Hd, Hd1. simplify_eq.
        apply (served_kept st1 st' c0); [done|congruence|by apply Hb1].
      * by apply (Hb' Hr k).
    + intros H. simplify_eq. apply Z.eqb_neq in Hr1. done.
Qed.

Lemma resolver_calls_inv conns : ∀ st st',
  binding_inv st → resolver_calls conns st = Some st' →
  binding_inv st' ∧ keeps_served st st'.
Proof.
  induction conns as [|ki rest IH]; intros st st' Hinv; simpl.
  - intros H. simplify_eq. split; [done|]. intros x crtc d ??. by exists crtc.
  - destruct (CreateDisplayPipe ki st) as [[r1 st1]|] eqn:H1; simpl; [|done].
    pose proof (CreateDisplayPipe_inv _ _ _ _ Hinv H1) as Hinv1.
    destruct (CreateDisplayPipe_effect _ _ _ _ (proj1 Hinv) H1) as (Hk1 & _).
    intros H. destruct (IH _ _ Hinv1 H) as [Hinv' Hk'].
    split; [done|]. by apply (keeps_served_trans _ st1).
Qed.

Lemma distinct_serves_one st : distinct_displays st → crtc_serves_one st.
Proof.
  intros Hd ci crtc k1 k2 c1 c2 _ H1 H2 Hs1 Hs2.
  apply (Hd k1 k2 c1 c2); congruence.
Qed.

Lemma Init_inv dev res st :
  dev_resources dev = Some res → kernel_consistent res →
  Init dev = Some (0, st) →
  binding_inv st ∧
  ∀ ki conn, connectors_ st !! ki = Some conn → served st conn.
Proof.
  intros Hres Hk. unfold Init. rewrite Hres.
  destruct (dev_open dev <? 0); [intros; simplify_eq|].
  destruct (dev_cap_universal_planes dev =? 0) eqn:E1; simpl;
    [|apply Z.eqb_neq in E1; intros; simplify_eq].
  destruct (dev_cap_atomic dev =? 0) eqn:E2; simpl;
    [|apply Z.eqb_neq in E2; intros; simplify_eq].
  destruct (init_crtcs (res_crtcs res) 0 []) as [r1 crtcs] eqn:Hcrtcs.
  destruct (r1 =? 0) eqn:Hr1.
  2:{ simpl. rewrite ?Hr1. simpl. rewrite ?Hr1. simpl.
      apply Z.eqb_neq in Hr1. intros; simplify_eq. }
  apply Z.eqb_eq in Hr1. subst r1.
  destruct (init_encoders crtcs (res_encoders res) []) as [r2 encoders] eqn:Hencs.
  destruct (r2 =? 0) eqn:Hr2.
  2:{ simpl. rewrite ?Hr2. simpl. rewrite ?Hr2. simpl.
      apply Z.eqb_neq in Hr2. intros; simplify_eq. }
  destruct (init_connectors encoders (res_connectors res) false 1 [])
    as [r3 connectors] eqn:Hconns.
  destruct (r3 =? 0) eqn:Hr3; simpl;
    [|apply Z.eqb_neq in Hr3; intros; simplify_eq].
  destruct (dev_plane_resources dev) as [plane_res|]; [|intros; simplify_eq].
  destruct (init_planes plane_res []) as [r4 planes] eqn:Hplanes.
  destruct (r4 =? 0) eqn:Hr4; simpl;
    [|apply Z.eqb_neq in Hr4; intros; simplify_eq].
  destruct (dev_event_listener_init dev =? 0) eqn:Hr5; simpl;
    [|apply Z.eqb_neq in Hr5; intros; simplify_eq].
  intros H.
  pose proof (graph_inv res crtcs r2 encoders r3 connectors planes
                Hk Hcrtcs Hencs Hconns) as Hinv0.
  destruct (create_display_pipes_inv _ _ _ _ Hinv0 H) as (Hinv & _ & Hs & Hb).
  split; [done|]. intros ki conn Hc. apply (Hb eq_refl ki); [|done].
  apply elem_of_seq. split; [lia|]. simpl.
  pose proof (Hs ki) as Hd. simpl in Hd. rewrite Hc in Hd.
  destruct (connectors !! ki) eqn:Hc0; [|done].
  apply lookup_lt_Some in Hc0. lia.
Qed.

(** [Init] does not fail on a dangling pointer, and neither do resolver
    calls for Outputs of the graph. *)
Lemma CreateDisplayPipe_returns ki st :
  wf_resources st → (ki < length (connectors_ st))%nat →
  is_Some (CreateDisplayPipe ki st).
Proof.
  intros Hwf Hki. rewrite CreateDisplayPipe_first_fit by done.
  unfold first_fit_binding.
  destruct (lookup_lt_is_Some_2 _ _ Hki) as [conn ->]. by eexists.
Qed.

Lemma same_displays_length st st' :
  same_displays st st' → length (connectors_ st) = length (connectors_ st').
Proof.
  intros Hs.
  destruct (decide (length (connectors_ st) < length (connectors_ st'))%nat)
    as [Hlt|Hge].
  - pose proof (Hs (length (connectors_ st))) as H.
    rewrite (lookup_ge_None_2 (connectors_ st)) in H by lia.
    destruct (lookup_lt_is_Some_2 _ _ Hlt) as [c Hc]. by rewrite Hc in H.
  - destruct (decide (length (connectors_ st') < length (connectors_ st))%nat)
      as [Hlt|Hge']; [|lia].
    pose proof (Hs (length (connectors_ st'))) as H.
    rewrite (lookup_ge_None_2 (connectors_ st')) in H by lia.
    destruct (lookup_lt_is_Some_2 _ _ Hlt) as [c Hc]. by rewrite Hc in H.
Qed.

Lemma resolver_calls_returns conns : ∀ st,
  binding_inv st →
  Forall (λ ki, (ki < length (connectors_ st))%nat) conns →
  is_Some (resolver_calls conns st).
Proof.
  induction conns as [|ki rest IH]; intros st Hinv Hall; simpl; [by eexists|].
  apply Forall_cons in Hall as [Hki Hrest].
  destruct (CreateDisplayPipe_returns ki st (proj1 Hinv) Hki) as [[r st1] H1].
  rewrite H1. simpl. apply IH.
  - by apply (CreateDisplayPipe_inv ki st r).
  - destruct (CreateDisplayPipe_effect _ _ _ _ (proj1 Hinv) H1) as (_ & Hs & _).
    by rewrite <- (same_displays_length _ _ Hs).
Qed.

(** C7, as amended.  When the kernel reports as current crtc of an encoder
    and as current encoder of a connector only ones it lists as possible
    for them, then after a successful [Init] every Output is served by a
    controller, and after [Init] and after every later resolver call: the
    bound Encoder of an Output is one of its legal Encoders, the
    controller an Encoder drives is one of its legal controllers, a
    controller that serves the display of an Output is a legal controller
    of the Encoder bound to that Output, no controller serves two Outputs,
    and a controller that served a display still serves that display. *)
Theorem binding_invariant dev res st conns st' :
  dev_resources dev = Some res → kernel_consistent res →
  Init dev = Some (0, st) → resolver_calls conns st = Some st' →
  (∀ ki conn, connectors_ st !! ki = Some conn → served st conn) ∧
  legal_bindings st' ∧ pipelines_legal st' ∧ crtc_serves_one st' ∧
  keeps_served st st'.
Proof.
  intros Hres Hk Hinit Hcalls.
  destruct (Init_inv dev res st Hres Hk Hinit) as [Hinv Hserved].
  destruct (resolver_calls_inv _ _ _ Hinv Hcalls)
    as [(_ & Hlegal & Hdist & Hpipe) Hkeep].
  repeat split; try done; try apply Hlegal. by apply distinct_serves_one.
Qed.

Lemma ex_res_consistent : kernel_consistent ex_res.
Proof.
  split.
  - intros e i c He Hi Hid. simpl in He.
    apply list_elem_of_singleton in He. simplify_eq/=.
    destruct i as [|[|i]]; simplify_eq/=.
  - intros c e Hc He Hid. simpl in He.
    apply list_elem_of_singleton in He. simplify_eq/=.
    apply elem_of_cons in Hc as [Hc|Hc]; [simplify_eq/=|].
    apply list_elem_of_singleton in Hc. simplify_eq/=.
Defined.

Lemma binding_invariant_witness :
  dev_resources (ex_device ex_res) = Some ex_res ∧
  kernel_consistent ex_res ∧
  Init (ex_device ex_res) = Some (0, ex_graph) ∧
  resolver_calls [0%nat; 1%nat] ex_graph = Some ex_graph ∧
  (∀ ki conn, connectors_ ex_graph !! ki = Some conn → served ex_graph conn) ∧
  legal_bindings ex_graph ∧ pipelines_legal ex_graph ∧
  crtc_serves_one ex_graph ∧ keeps_served ex_graph ex_graph.
Proof.
  split; [reflexivity|]. split; [exact ex_res_consistent|].
  split; [vm_compute; reflexivity|]. split; [vm_compute; reflexivity|].
  apply (binding_invariant (ex_device ex_res) ex_res ex_graph
                           [0%nat; 1%nat] ex_graph).
  - reflexivity.
  - exact ex_res_consistent.
  - vm_compute; reflexivity.
  - vm_compute; reflexivity.
Defined.

(** C7, as stated, fails: with the listing [bad_res] initialization
    succeeds; the Output of display 0 is bound to Encoder 0, which drives
    controller 1, and controller 1 serves display 0, while the legal
    controllers of Encoder 0 are [0] only. *)
Lemma binding_illegal_after_init :
  Init (ex_device bad_res) = Some (0, bad_graph) ∧
  conn_display <$> connectors_ bad_graph !! 0%nat = Some 0 ∧
  conn_encoder <$> connectors_ bad_graph !! 0%nat = Some (Some 0%nat) ∧
  enc_crtc <$> encoders_ bad_graph !! 0%nat = Some (Some 1%nat) ∧
  enc_possible_crtcs <$> encoders_ bad_graph !! 0%nat = Some [0%nat] ∧
  crtc_display <$> crtcs_ bad_graph !! 1%nat = Some (Some 0) ∧
  ¬ legal_bindings bad_graph ∧ ¬ pipelines_legal bad_graph.
Proof.
  do 6 (split; [vm_compute; reflexivity|]). split.
  - intros [Hle _]. specialize (Hle 0%nat _ 1%nat eq_refl eq_refl).
    simpl in Hle. apply list_elem_of_singleton in Hle. discriminate Hle.
  - intros Hp.
    destruct (Hp 0%nat _ 1%nat _ eq_refl eq_refl eq_refl)
      as (ei & e & Hei & _ & He & Hci).
    simpl in Hei. simplify_eq/=.
    apply list_elem_of_singleton in Hci. discriminate Hci.
Qed.

Lemma ex_graph_wf : wf_resources ex_graph.
Proof.
  split.
  - intros ei e He. destruct ei as [|ei]; simplify_eq/=. split.
    + intros ci Hci. simplify_eq/=. lia.
    + intros ci Hci. apply elem_of_cons in Hci as [->|Hci]; [lia|].
      apply list_elem_of_singleton in Hci. subst. lia.
  - intros ki c Hc. destruct ki as [|[|ki]]; simplify_eq/=; split.
    + intros ei Hei. simplify_eq/=. lia.
    + intros ei Hei. apply list_elem_of_singleton in Hei. subst. lia.
    + intros ei Hei. simplify_eq/=. lia.
    + intros ei Hei. apply list_elem_of_singleton in Hei. subst. lia.
Defined.

Lemma CreateDisplayPipe_is_first_fit_witness :
  wf_resources ex_graph ∧
  CreateDisplayPipe 0 ex_graph = first_fit_binding 0 ex_graph.
Proof.
  split; [exact ex_graph_wf|].
  apply (CreateDisplayPipe_is_first_fit 0 ex_graph). exact ex_graph_wf.
Defined.

(** The scenario of the specification: the first Output takes the first
    controller, the second Output, which shares the encoder, the second;
    a third Output would find no pipeline. *)
Example first_fit_scenario :
  (crtc_display <$> crtcs_ ex_graph) = [Some 0; Some 1] ∧
  (fst <$> CreateDisplayPipe 0
     (set_display 0 5 (set_display 1 6 ex_graph))) = Some (- ENODEV).
Proof. split; vm_compute; reflexivity. Qed.

(** ** Symbolic execution of the monadic code

    [run H] takes [H : f w = (o, w')] through the code of [f]: it reduces
    the head of the left-hand side, brings the world to a record of a call
    list [calls w ++ [...]], and splits on the test the code is stuck on,
    until the left-hand side is a pair (or the rest of the hotplug loop). *)

Lemma display_at_insert N k c m d id hd :
  display_at N {| kernel := k; calls := c; displays := <[id := hd]> m; drm := d |} id = hd.
Proof. unfold display_at. simpl. by rewrite lookup_insert_eq. Qed.

Lemma release_all_spec {R} bo : ∀ w,
  release_all (R:=R) bo w =
  (Next ((λ _, None) <$> bo),
   set_calls (calls w ++ (ReleaseBuffer <$> cached bo)) w).
Proof.
  induction bo as [|[b|] bo IH]; intros w.
  - simpl. unfold mret, M_ret, pure, set_calls. rewrite app_nil_r.
    by destruct w.
  - cbn [release_all]. unfold mbind, M_bind, bind, call. rewrite IH.
    unfold mret, M_ret, pure, set_calls, cached. simpl.
    by rewrite <- app_assoc.
  - cbn [release_all]. unfold mbind, M_bind, bind. rewrite IH.
    by unfold mret, M_ret, pure, set_calls, cached.
Qed.

Ltac spine_head t := lazymatch t with ?f _ => spine_head f | _ => t end.
Ltac stuck t :=
  let h := spine_head t in
  lazymatch h with
  | match ?x with _ => _ end => stuck x
  | _ => t
  end.

Ltac rewrite_lookups H :=
  repeat match goal with
         | E : _ !! _ = _ |- _ => progress rewrite E in H
         end.

Ltac normalize_world H :=
  cbv beta delta [set_calls set_displays set_drm hd_set_bo hd_modeset_done
                  hd_request_modeset update_connector set_active_mode] in H;
  cbn [kernel calls displays drm pset_ptr pset_items fst snd bo_fb_id bo_priv
       hd_bo hd_active_mode hd_needs_modeset hd_blob_id hd_old_blob_id
       crtcs_ encoders_ connectors_ planes_] in H;
  rewrite ?display_at_insert in H;
  rewrite ?list_lookup_alter_eq in H;
  rewrite_lookups H;
  rewrite ?release_all_spec in H;
  cbv beta delta [set_calls] in H;
  cbn [kernel calls displays drm fmap option_fmap option_map
       hd_bo hd_active_mode hd_needs_modeset hd_blob_id hd_old_blob_id
       conn_id conn_display conn_encoder conn_possible_encoders conn_state
       conn_modes conn_active_mode conn_crtc_id_property conn_dpms_property
       DrmConnector_update] in H;
  rewrite <- ?app_assoc in H; cbn [app] in H;
  change (negb (0 =? 0)) with false in H;
  change (negb (- ENODEV =? 0)) with true in H.

Ltac reduce_head H :=
  match type of H with
  | ?l = ?r =>
      let l' := eval lazy head beta iota zeta delta
        [mbind mret M_bind M_ret bind pure return_ undefined when invoke call
         call_out get_drm put_drm deref or_return
         CreatePropertyBlob DestroyPropertyBlob AddProperty AtomicAlloc
         AtomicCommit AtomicFree SetDpmsMode SetDisplayActiveMode
         get_hd put_hd Render render_fb hwc_set_display_active_mode
         hwc_release_display UpdateModes read_connector] in l in
      change (l' = r) in H
  end.

Ltac whnf_step H :=
  repeat (progress (reduce_head H; normalize_world H)).

Ltac case_step H :=
  match type of H with
  | ?l = _ =>
      let s := stuck l in
      revert H; destruct s eqn:?; intros H
  end.

Ltac run H :=
  whnf_step H;
  lazymatch type of H with
  | (_, _) = _ => idtac
  | HandleEvent_loop _ _ _ = _ => idtac
  | _ => case_step H; try congruence; run H
  end.

(** ** Blobs *)

Lemma repeated_destroy_zero n : ∀ w,
  repeated n (DestroyPropertyBlob 0) w = (replicate n (Return 0), w).
Proof. induction n as [|n IH]; intros w; simpl; [done|]. by rewrite IH. Qed.

(** C8.  [DestroyPropertyBlob 0] returns 0 and leaves the world, the list
    of kernel calls included, as it was, however often it is repeated; for
    another id it issues the one destroy call and returns its status. *)
Theorem DestroyPropertyBlob_spec blob_id w n :
  DestroyPropertyBlob blob_id w =
    (if blob_id =? 0 then (Return 0, w)
     else (Return (k_ret (kernel w)
                     (calls w ++ [DRM_IOCTL_MODE_DESTROYPROPBLOB blob_id])),
           set_calls (calls w ++ [DRM_IOCTL_MODE_DESTROYPROPBLOB blob_id]) w))
  ∧ repeated n (DestroyPropertyBlob 0) w = (replicate n (Return 0), w).
Proof.
  split; [|apply repeated_destroy_zero].
  unfold DestroyPropertyBlob, mbind, M_bind, bind, when, return_, call,
    mret, M_ret, pure.
  destruct (blob_id =? 0); [done|].
  destruct (k_ret _ _ =? 0) eqn:E; simpl; [|done].
  apply Z.eqb_eq in E. by rewrite E.
Qed.

(** ** The frame path with a modeset pending *)

Lemma app_cons_split {A} (pre : list A) c post x l :
  pre ++ c :: post = x :: l →
  (pre = [] ∧ c = x ∧ post = l) ∨ (∃ pre', pre = x :: pre' ∧ pre' ++ c :: post = l).
Proof.
  destruct pre as [|y pre]; simpl; intros H; simplify_eq; [by left|].
  right. by exists pre.
Qed.

Lemma calls_ext_nil {A} (h pre : list A) c post :
  h = h ++ pre ++ c :: post → False.
Proof.
  intros H. apply (f_equal length) in H. rewrite !length_app in H.
  simpl in H. lia.
Qed.

Ltac split_calls H :=
  lazymatch type of H with
  | ?h = ?h ++ _ => exfalso; exact (calls_ext_nil _ _ _ _ H)
  | ?h ++ _ = ?h ++ _ => apply app_inv_head in H; symmetry in H; split_calls H
  | _ ++ _ :: _ = [] => exfalso; by destruct (app_cons_not_nil _ _ _ (eq_sym H))
  | _ ++ _ :: _ = _ :: _ =>
      let pre' := fresh "pre" in
      apply app_cons_split in H as [(-> & -> & ->)|(pre' & -> & H)];
      [|split_calls H]
  end.

Ltac commit_fails Hne :=
  exfalso;
  match goal with
  | E : negb (?x =? 0) = false |- _ =>
      apply negb_false_iff, Z.eqb_eq in E; by rewrite E in Hne
  end.

Ltac commit_leaf Hc :=
  cbn [is_commit] in Hc;
  first
    [ discriminate Hc
    | split;
      [ do 5 eexists; split;
        [ do 3 eexists; repeat split; eassumption
        | unfold modeset_props; reflexivity ]
      | split; [cbn [app]; repeat (constructor; [reflexivity|]); constructor|];
        cbn [app]; intros Hne;
        first
          [ commit_fails Hne
          | split; [reflexivity|];
            rewrite ?display_at_insert; cbn;
            repeat (split; [done|]);
            repeat (constructor; [split; reflexivity|]); constructor ] ] ].

Lemma Render_modeset_commit N id frame handle w :
  hd_needs_modeset (display_at N w id) = true →
  modeset_commit_spec N id frame (Render N id frame handle) w.
Proof.
  intros Hneeds o w' pre c post H Hcalls Hc.
  run H.
  all: simplify_eq; cbn [calls] in Hcalls.
  all: split_calls Hcalls.
  all: commit_leaf Hc.
Qed.

Lemma render_fb_modeset_commit N display fb_layer w :
  hd_needs_modeset (display_at N w display) = true →
  modeset_commit_spec N display (layer_displayFrame fb_layer)
    (render_fb N display fb_layer) w.
Proof.
  intros Hneeds o w' pre c post H Hcalls Hc.
  run H.
  all: simplify_eq; cbn [calls] in Hcalls.
  all: split_calls Hcalls.
  all: commit_leaf Hc.
Qed.

Ltac stopped :=
  exfalso;
  match goal with
  | E : ?b = true, E' : ?b = false |- _ => rewrite E in E'; discriminate E'
  end.

Ltac committed :=
  cbn [fst snd calls]; eexists; split;
  [ rewrite <- ?app_assoc; cbn [app]; reflexivity
  | split;
    [ cbn [app]; repeat (constructor; [reflexivity|]); constructor
    | cbn [app]; intros Hne;
      first [ reflexivity | commit_fails Hne ] ] ].

Ltac frame_setup Hpipe Hp Hneeds :=
  destruct Hpipe as (ci & ki & pi & Hci & Hcrtc & Hki & Hconn & Hpi & Hplane);
  unfold frame_props, add_property_calls, modeset_props, fence_wait in *;
  rewrite ?Hneeds in *;
  cbn [fmap list_fmap app proceeds gives_up fst snd] in *;
  rewrite <- ?app_assoc in *; cbn [app] in *;
  repeat match goal with A : _ ∧ _ |- _ => destruct A end.

Ltac connect :=
  repeat match goal with
         | E : Some _ = Some _ |- _ => injection E as E; subst
         end.

Ltac absurd_hyp :=
  exfalso;
  match goal with
  | E : None = Some _ |- _ => discriminate E
  | E : Some _ = None |- _ => discriminate E
  | E : true = false |- _ => discriminate E
  | E : false = true |- _ => discriminate E
  end.

Ltac run_pipe H :=
  whnf_step H;
  lazymatch type of H with
  | (_, _) = _ => idtac
  | _ => case_step H; try absurd_hyp; connect; run_pipe H
  end.

Lemma Render_commits N id frame handle entry w :
  frame_commit_spec N id handle entry (frame_props (display_at N w id) frame)
    [] (Render N id frame handle) w.
Proof.
  intros crtc connector plane Hentry Hpipe. cbv zeta. intros Hp.
  destruct (hd_needs_modeset (display_at N w id)) eqn:Hneeds;
    destruct entry as [bo|]; frame_setup Hpipe Hp Hneeds.
  all: destruct (Render N id frame handle w) as [o w'] eqn:Hrun.
  all: run_pipe Hrun.
  all: simplify_eq.
  all: try stopped.
  all: committed.
Qed.

Lemma render_fb_commits N display fb_layer entry w :
  layer_handle fb_layer ≠ 0 →
  frame_commit_spec N display (layer_handle fb_layer) entry
    (frame_props (display_at N w display) (layer_displayFrame fb_layer))
    (fence_wait fb_layer) (render_fb N display fb_layer) w.
Proof.
  intros Hnull crtc connector plane Hentry Hpipe. cbv zeta. intros Hp.
  apply Z.eqb_neq in Hnull.
  destruct (hd_needs_modeset (display_at N w display)) eqn:Hneeds;
    destruct entry as [bo|];
    destruct (0 <=? layer_acquireFenceFd fb_layer) eqn:Hfence;
    frame_setup Hpipe Hp Hneeds.
  all: destruct (render_fb N display fb_layer w) as [o w'] eqn:Hrun.
  all: run_pipe Hrun.
  all: simplify_eq.
  all: try stopped.
  all: committed.
Qed.

(** C5.  While a modeset is pending for the display, [Render] and
    [render_fb] write one transaction: unless the display has no pipe or
    a call before the commit makes them return, they add the mode blob,
    the crtc id of the connector, the attachment of the primary plane, its
    destination and source geometry and the framebuffer, in this order,
    and commit exactly these properties in one commit.  A commit they
    issue is the only one and carries this transaction; when it fails the
    function returns its status, the display still has the modeset
    pending, with the same pending and previous blob, and no blob was
    destroyed and no DPMS property set. *)
Theorem modeset_frame_commit N display w :
  hd_needs_modeset (display_at N w display) = true →
  (∀ frame handle entry,
     frame_commit_spec N display handle entry
       (λ crtc connector plane,
          modeset_props crtc connector plane
            (hd_blob_id (display_at N w display)) frame)
       [] (Render N display frame handle) w) ∧
  (∀ fb_layer entry, layer_handle fb_layer ≠ 0 →
     frame_commit_spec N display (layer_handle fb_layer) entry
       (λ crtc connector plane,
          modeset_props crtc connector plane
            (hd_blob_id (display_at N w display))
            (layer_displayFrame fb_layer))
       (fence_wait fb_layer) (render_fb N display fb_layer) w) ∧
  (∀ frame handle,
     modeset_commit_spec N display frame (Render N display frame handle) w) ∧
  (∀ fb_layer,
     modeset_commit_spec N display (layer_displayFrame fb_layer)
       (render_fb N display fb_layer) w).
Proof.
  intros Hneeds. split; [|split; [|split]].
  - intros frame handle entry.
    pose proof (Render_commits N display frame handle entry w) as H.
    unfold frame_commit_spec, frame_props in *. by rewrite Hneeds in H.
  - intros fb_layer entry Hnull.
    pose proof (render_fb_commits N display fb_layer entry w Hnull) as H.
    unfold frame_commit_spec, frame_props in *. by rewrite Hneeds in H.
  - intros frame handle. by apply Render_modeset_commit.
  - intros fb_layer. by apply render_fb_modeset_commit.
Qed.

(** ** The frame path with a full cache *)

Lemma insert_bo_full bo b : Forall is_Some bo → insert_bo bo b = bo.
Proof.
  induction 1 as [|x l [y ->] _ IH]; simpl; [done|]. by rewrite IH.
Qed.

Ltac not_success Ho :=
  exfalso;
  first [ discriminate Ho
        | injection Ho as Ho;
          first [ unfold ENODEV, ENOMEM, EINVAL, ENOENT in Ho; discriminate Ho
                | match goal with
                  | E : (?x <? 0) = true |- _ =>
                      rewrite Ho in E; cbn in E; discriminate E
                  end
                | match goal with
                  | E : negb (?x =? 0) = true |- _ =>
                      rewrite Ho in E; cbn in E; discriminate E
                  end ] ].

Ltac miss_leaf Hfull :=
  cbn [calls]; split;
  [ eexists; split; [reflexivity|];
    intros Ho;
    first
      [ not_success Ho
      | do 5 eexists; split;
        [ repeat first [apply list_elem_of_here | apply list_elem_of_further]
        | reflexivity ] ]
  | rewrite ?display_at_insert; cbn;
    rewrite ?(insert_bo_full _ _ Hfull); reflexivity ].

Lemma Render_full_cache_miss N id frame handle w :
  cache_full_miss N w id handle →
  full_cache_miss_spec N id handle (Render N id frame handle) w.
Proof.
  intros [Hmiss Hfull] o w' H.
  run H.
  all: simplify_eq.
  all: miss_leaf Hfull.
Qed.

Lemma render_fb_full_cache_miss N display fb_layer w :
  layer_handle fb_layer ≠ 0 →
  cache_full_miss N w display (layer_handle fb_layer) →
  full_cache_miss_spec N display (layer_handle fb_layer)
    (render_fb N display fb_layer) w.
Proof.
  intros Hnull [Hmiss Hfull] o w' H. apply Z.eqb_neq in Hnull.
  run H.
  all: simplify_eq.
  all: miss_leaf Hfull.
Qed.

Ltac keep_leaf Hfull :=
  cbn [calls]; rewrite ?display_at_insert; cbn;
  rewrite ?(insert_bo_full _ _ Hfull); reflexivity.

Lemma Render_full_cache N id frame handle w o w' :
  Forall is_Some (hd_bo (display_at N w id)) →
  Render N id frame handle w = (o, w') →
  hd_bo (display_at N w' id) = hd_bo (display_at N w id).
Proof.
  intros Hfull H. run H. all: simplify_eq. all: keep_leaf Hfull.
Qed.

Lemma render_fb_full_cache N id fb_layer w o w' :
  Forall is_Some (hd_bo (display_at N w id)) →
  render_fb N id fb_layer w = (o, w') →
  hd_bo (display_at N w' id) = hd_bo (display_at N w id).
Proof.
  intros Hfull H. run H. all: simplify_eq. all: keep_leaf Hfull.
Qed.

Lemma present_full_cache N id p w :
  Forall is_Some (hd_bo (display_at N w id)) →
  hd_bo (display_at N (present N id p w) id) = hd_bo (display_at N w id).
Proof.
  intros Hfull. destruct p as [frame handle|fb_layer]; simpl.
  - destruct (Render N id frame handle w) as [o w'] eqn:H.
    by apply (Render_full_cache N id frame handle w o w').
  - destruct (render_fb N id fb_layer w) as [o w'] eqn:H.
    by apply (render_fb_full_cache N id fb_layer w o w').
Qed.

Lemma presentations_full_cache N id ps : ∀ w,
  Forall is_Some (hd_bo (display_at N w id)) →
  hd_bo (display_at N (presentations N id ps w) id)
  = hd_bo (display_at N w id).
Proof.
  induction ps as [|p ps IH]; intros w Hfull; simpl; [done|].
  unfold presentations in *. simpl.
  pose proof (present_full_cache N id p w Hfull) as Hp.
  rewrite IH; [done|]. by rewrite Hp.
Qed.

Lemma find_bo_None bo handle :
  find_bo bo handle = None → Forall (λ b, bo_priv b ≠ handle) (cached bo).
Proof.
  induction bo as [|[b|] bo IH]; simpl; [by constructor| |done].
  destruct (bo_priv b =? handle) eqn:E; [done|]. intros H.
  apply Z.eqb_neq in E. unfold cached. simpl. constructor; [done|by apply IH].
Qed.

Lemma hwc_release_display_spec N display w :
  ∃ w', hwc_release_display N display w = (Return (), w') ∧
        calls w' = calls w
                   ++ (ReleaseBuffer <$> cached (hd_bo (display_at N w display))) ∧
        hd_bo (display_at N w' display)
        = (λ _, None) <$> hd_bo (display_at N w display).
Proof.
  unfold hwc_release_display, mbind, M_bind, bind, get_hd.
  rewrite release_all_spec. unfold put_hd, return_.
  cbv beta delta [set_calls set_displays hd_set_bo].
  cbn [kernel calls displays drm hd_bo].
  eexists. split; [reflexivity|]. cbn [calls]. split; [done|].
  by rewrite display_at_insert.
Qed.

Lemma presentations_full_miss N id handle ps w :
  cache_full_miss N w id handle →
  cache_full_miss N (presentations N id ps w) id handle.
Proof.
  intros [Hmiss Hfull]. unfold cache_full_miss.
  by rewrite presentations_full_cache.
Qed.

(** C10.  When no slot of the cache of the display holds the buffer of
    [handle] and no slot is free, a presentation of [handle] imports the
    buffer before anything else, and, unless the display has no pipe or a
    call before the commit makes it return, commits the transaction of the
    frame with the imported framebuffer; the cache is as it was.  So it is
    after any further presentations to the display, each presentation of
    [handle] importing it again; and the release path of the display, run
    after any presentations, releases the buffers the cache held at the
    start only, none of which was imported from [handle]. *)
Theorem full_cache_miss_not_cached N display handle w :
  cache_full_miss N w display handle →
  (∀ frame,
     full_cache_miss_spec N display handle
       (Render N display frame handle) w ∧
     frame_commit_spec N display handle None
       (frame_props (display_at N w display) frame) []
       (Render N display frame handle) w) ∧
  (∀ fb_layer, layer_handle fb_layer = handle → handle ≠ 0 →
     full_cache_miss_spec N display handle (render_fb N display fb_layer) w ∧
     frame_commit_spec N display handle None
       (frame_props (display_at N w display) (layer_displayFrame fb_layer))
       (fence_wait fb_layer) (render_fb N display fb_layer) w) ∧
  (∀ ps, cache_full_miss N (presentations N display ps w) display handle) ∧
  (∀ ps, ∃ w',
     hwc_release_display N display (presentations N display ps w)
     = (Return (), w') ∧
     calls w' = calls (presentations N display ps w)
                ++ (ReleaseBuffer
                      <$> cached (hd_bo (display_at N w display))) ∧
     Forall (λ bo, bo_priv bo ≠ handle)
            (cached (hd_bo (display_at N w display)))).
Proof.
  intros Hfm. split; [|split; [|split]].
  - intros frame. split; [by apply Render_full_cache_miss|].
    apply Render_commits.
  - intros fb_layer <- Hnull.
    split; [by apply render_fb_full_cache_miss|].
    by apply render_fb_commits.
  - intros ps. by apply presentations_full_miss.
  - intros ps.
    destruct (hwc_release_display_spec N display
                (presentations N display ps w)) as (w' & Hr & Hc & _).
    rewrite presentations_full_cache in Hc by apply Hfm.
    exists w'. split; [done|]. split; [done|].
    apply find_bo_None. apply Hfm.
Qed.

(** ** The hotplug handler *)

Lemma find_index_lookup {A} (p : A → bool) (l : list A) k x : ∀ i,
  l !! k = Some x → p x = true → find_index p l i ≠ None.
Proof.
  revert k. induction l as [|y l IH]; intros k i Hk Hp; [done|]. simpl.
  destruct (p y) eqn:Hy; [done|]. destruct k as [|k]; simpl in Hk.
  - simplify_eq. congruence.
  - by apply (IH k).
Qed.

Lemma GetConnectorForDisplay_lookup st k c d :
  connectors_ st !! k = Some c → conn_display c = d →
  GetConnectorForDisplay st d = None → False.
Proof.
  intros Hk Hd. apply (find_index_lookup _ _ k c); [done|].
  by apply bool_decide_eq_true.
Qed.

Lemma conn_view_active m kx l k :
  conn_view (alter (DrmConnector_set_active_mode m) kx l) k = conn_view l k.
Proof.
  unfold conn_view. rewrite list_lookup_alter. case_decide; [|done].
  subst. by destruct (l !! k).
Qed.

Lemma conn_view_update_ne s ms ki l k :
  k ≠ ki → conn_view (alter (DrmConnector_update s ms) ki l) k = conn_view l k.
Proof. intros Hne. unfold conn_view. by rewrite list_lookup_alter_ne. Qed.

Lemma conn_view_update_eq s ms ki l c :
  l !! ki = Some c →
  conn_view (alter (DrmConnector_update s ms) ki l) ki
  = Some (conn_display c, s).
Proof. intros H. unfold conn_view. by rewrite list_lookup_alter_eq, H. Qed.

Lemma conn_view_lookup l k c :
  l !! k = Some c → conn_view l k = Some (conn_display c, conn_state c).
Proof. intros H. unfold conn_view. by rewrite H. Qed.

Lemma hotplugs_app a b : hotplugs (a ++ b) = hotplugs a ++ hotplugs b.
Proof. apply omap_app. Qed.

Lemma hotplugs_release l : hotplugs (ReleaseBuffer <$> l) = [].
Proof. by induction l. Qed.

Lemma hotplugs_release_between pre l post :
  hotplugs (pre ++ (ReleaseBuffer <$> l) ++ post)
  = hotplugs pre ++ hotplugs post.
Proof. by rewrite !hotplugs_app, hotplugs_release. Qed.

Ltac impossible_lookup Hc :=
  match goal with
  | E : GetConnectorForDisplay ?st ?d = None |- _ =>
      exfalso; refine (GetConnectorForDisplay_lookup st _ _ d _ _ E);
      [ cbn [connectors_]; first [ exact Hc | rewrite list_lookup_alter_eq, Hc; reflexivity ]
      | reflexivity ]
  end.

Ltac view_goals Hc :=
  cbn [drm connectors_];
  rewrite ?conn_view_active;
  first [ intros k Hk; rewrite ?conn_view_active;
          first [ reflexivity | by apply conn_view_update_ne ]
        | by apply conn_view_update_eq
        | by apply conn_view_lookup ].

Ltac not_ok :=
  let Hok := fresh "Hok" in
  intros Hok; cbn [calls_ok is_reconfig] in Hok;
  rewrite <- ?app_assoc in Hok; cbn [app] in Hok;
  decompose [and] Hok;
  match goal with
  | Hz : true = true → ?x = 0, E : negb (?x =? 0) = true |- _ =>
      rewrite (Hz eq_refl) in E; discriminate E
  end.

Lemma calls_ok_app k e1 : ∀ h e2,
  calls_ok k h (e1 ++ e2) ↔ calls_ok k h e1 ∧ calls_ok k (h ++ e1) e2.
Proof.
  induction e1 as [|c e1 IH]; intros h e2; simpl.
  - rewrite app_nil_r. tauto.
  - rewrite IH. rewrite <- app_assoc. simpl. tauto.
Qed.

Lemma calls_ok_release k l : ∀ h, calls_ok k h (ReleaseBuffer <$> l).
Proof. induction l as [|b l IH]; intros h; simpl; [done|]. split; [done|apply IH]. Qed.

Ltac succeeded :=
  match goal with
  | E : negb (?x =? 0) = false |- ?x = 0 =>
      by apply negb_false_iff, Z.eqb_eq in E
  end.

Ltac all_ok :=
  cbn [calls_ok is_reconfig]; rewrite <- ?app_assoc; cbn [app];
  repeat match goal with
         | |- _ ∧ _ => split
         | |- false = true → _ => discriminate
         | |- true = true → _ => intros _; succeeded
         | |- True => exact I
         | |- calls_ok _ _ ((ReleaseBuffer <$> _) ++ _) =>
             apply calls_ok_app; split; [apply calls_ok_release|];
             cbn [calls_ok is_reconfig]
         end.

Ltac callbacks :=
  unfold connected_flag; repeat case_decide;
  first [ reflexivity | congruence
        | lazymatch goal with
          | |- hotplugs (?a :: ?b :: (ReleaseBuffer <$> ?l) ++ ?post) = ?r =>
              change (hotplugs ([a; b] ++ (ReleaseBuffer <$> l) ++ post) = r);
              rewrite hotplugs_release_between; reflexivity
          end ].

Ltac iteration_leaf H Hc :=
  lazymatch type of H with
  | (Undefined, _) = _ => left; by simplify_eq
  | (Return _, ?w2) = _ =>
      first
        [ impossible_lookup Hc
        | right; eexists _, _, w2, _;
          split; [exact Hc|]; split; [cbn [calls]; reflexivity|];
          split; [reflexivity|]; split; [view_goals Hc|];
          split; [view_goals Hc|];
          left; simplify_eq; split; [reflexivity|]; split; [reflexivity|];
          split; [not_ok|]; split; [assumption|reflexivity] ]
  | HandleEvent_loop _ _ ?w2 = _ =>
      right; eexists _, _, w2, _;
      split; [exact Hc|]; split; [cbn [calls]; reflexivity|];
      split; [reflexivity|]; split; [view_goals Hc|];
      split; [view_goals Hc|];
      right; split; [exact H|]; split; [all_ok|callbacks]
  end.

Lemma HandleEvent_iteration N ki rest w o w' :
  HandleEvent_loop N (ki :: rest) w = (o, w') →
  iteration_spec N ki rest w o w'.
Proof.
  intros H. cbn [HandleEvent_loop] in H.
  destruct (connectors_ (drm w) !! ki) as [c|] eqn:Hc.
  2:{ run H. left. by simplify_eq. }
  run H.
  all: try (iteration_leaf H Hc).
Qed.

Lemma omap_eq_on {A B} (f g : A → option B) (l : list A) :
  (∀ x, x ∈ l → f x = g x) → omap f l = omap g l.
Proof.
  induction l as [|x l IH]; intros H; [done|].
  assert (Hl : omap f l = omap g l).
  { apply IH. intros y Hy. apply H. by right. }
  assert (Hx : f x = g x) by (apply H; by left).
  change (match f x with Some y => y :: omap f l | None => omap f l end
          = match g x with Some y => y :: omap g l | None => omap g l end).
  by rewrite Hx, Hl.
Qed.

Lemma notifications_cons ki rest st st' :
  notifications (ki :: rest) st st'
  = match notification (connectors_ st) (connectors_ st') ki with
    | Some y => y :: notifications rest st st'
    | None => notifications rest st st'
    end.
Proof. reflexivity. Qed.

(** The callback due for the Output of one iteration, seen from the end
    of the loop. *)
Lemma notifications_step ki rest c state w w2 w' :
  ki ∉ rest →
  connectors_ (drm w) !! ki = Some c →
  (∀ k, k ≠ ki → conn_view (connectors_ (drm w2)) k
                 = conn_view (connectors_ (drm w)) k) →
  conn_view (connectors_ (drm w2)) ki = Some (conn_display c, state) →
  conn_view (connectors_ (drm w')) ki = conn_view (connectors_ (drm w2)) ki →
  notifications (ki :: rest) (drm w) (drm w')
  = (if decide (state = conn_state c) then []
     else [(conn_display c, connected_flag state)])
    ++ notifications rest (drm w2) (drm w').
Proof.
  intros Hki Hc Hframe Hview Hend. rewrite notifications_cons.
  unfold notification at 1.
  rewrite (conn_view_lookup _ _ _ Hc), Hend, Hview.
  assert (Hrest : notifications rest (drm w) (drm w')
                  = notifications rest (drm w2) (drm w')).
  { apply omap_eq_on. intros k Hk. unfold notification.
    rewrite Hframe; [done|]. by intros ->. }
  rewrite Hrest. by case_decide.
Qed.

Lemma notifications_same conns st : notifications conns st st = [].
Proof.
  induction conns as [|k conns IH]; [done|]. rewrite notifications_cons, IH.
  unfold notification. destruct (conn_view _ k) as [[d s]|]; [|done].
  by rewrite decide_True.
Qed.

Lemma HandleEvent_loop_spec N conns : ∀ w o w',
  NoDup conns → HandleEvent_loop N conns w = (o, w') → o ≠ Undefined →
  loop_spec conns w o w'.
Proof.
  induction conns as [|ki rest IH]; intros w o w' Hnd H Hdef.
  - simpl in H. unfold mret, M_ret, pure in H. simplify_eq.
    exists []. rewrite app_nil_r. repeat split; try done. by left.
  - apply NoDup_cons in Hnd as [Hki Hnd].
    apply HandleEvent_iteration in H
      as [?|(c & state & w2 & ext1 & Hc & Hcalls & Hker & Hframe & Hview & H)];
      [done|].
    assert (Hfst : ∀ k, fst <$> conn_view (connectors_ (drm w2)) k
                        = fst <$> conn_view (connectors_ (drm w)) k).
    { intros k. destruct (decide (k = ki)) as [->|Hne].
      - by rewrite Hview, (conn_view_lookup _ _ _ Hc).
      - by rewrite Hframe. }
    destruct H as [(-> & -> & Hnok & Hne & Hnone)|(Hrest & Hok1 & Hhot)].
    + exists ext1. split; [done|]. split; [done|]. split.
      * intros k Hk. apply Hframe. intros ->. apply Hk. by left.
      * split; [done|]. right. split; [done|].
        exists (conn_display c, connected_flag state).
        rewrite (notifications_step ki rest c state w w2 w2) by done.
        by rewrite notifications_same, Hnone, decide_False.
    + destruct (IH _ _ _ Hnd Hrest Hdef)
        as (ext2 & Hcalls2 & Hker2 & Hframe2 & Hfst2 & Hend).
      exists (ext1 ++ ext2). split; [by rewrite Hcalls2, Hcalls, app_assoc|].
      split; [congruence|]. split; [|split].
      * intros k Hk. rewrite Hframe2, Hframe; [done| |].
        -- intros ->. apply Hk. by left.
        -- intros Hin. apply Hk. by right.
      * intros k. by rewrite Hfst2, Hfst.
      * rewrite (notifications_step ki rest c state w w2 w')
          by auto using Hframe2.
        rewrite hotplugs_app, Hhot, calls_ok_app.
        rewrite Hker, Hcalls in Hend.
        destruct Hend as [[Hok2 ->]|[Hnok (missed & ->)]].
        -- by left.
        -- right. split; [tauto|]. exists missed. by rewrite app_assoc.
Qed.

Ltac by_computation :=
  repeat match goal with |- _ ∧ _ => split end; vm_compute; reflexivity.

(** C3, as amended.  When [HandleEvent] runs without undefined behaviour,
    consider the Outputs whose connection state changed, in the order of
    the Outputs, each with its display index and its new connected state.
    If every re-configuration call the handler issues (blob creation for
    the mode set on connect, the DPMS property on disconnect) succeeds, the
    compositor callbacks it issues are exactly these, one each.  If a
    re-configuration call fails, the callbacks are these but the last: the
    Output whose re-configuration failed gets none, and the handler reads
    no further Output. *)
Theorem hotplug_notified N ts w o w' :
  HandleEvent N ts w = (o, w') → o ≠ Undefined →
  let due := notifications (seq 0 (length (connectors_ (drm w))))
                           (drm w) (drm w') in
  ∃ ext, calls w' = calls w ++ ext ∧
    (calls_ok (kernel w) (calls w) ext → hotplugs ext = due) ∧
    (¬ calls_ok (kernel w) (calls w) ext →
     ∃ missed, due = hotplugs ext ++ [missed]).
Proof.
  unfold HandleEvent, mbind, M_bind, bind, get_drm, return_.
  destruct (HandleEvent_loop N _ w) as [o1 w1] eqn:Hloop.
  intros H Hdef.
  assert (o1 ≠ Undefined ∧ w1 = w') as [Hdef1 ->].
  { destruct o1; simplify_eq; done. }
  destruct (HandleEvent_loop_spec N _ _ _ _ (NoDup_seq _ _) Hloop Hdef1)
    as (ext & Hcalls & _ & _ & _ & Hend).
  exists ext. split; [done|]. destruct Hend as [[? ?]|[? ?]]; split; done.
Qed.

Lemma hotplug_notified_witness :
  HandleEvent 3 0 (ex_world kernel_ok ∅) = (Return (), hotplug_ok_world) ∧
  Return () ≠ (Undefined : outcome () ()) ∧
  ∃ ext, calls hotplug_ok_world = [] ++ ext ∧
    (calls_ok kernel_ok [] ext →
     hotplugs ext
     = notifications [0%nat; 1%nat] ex_graph (drm hotplug_ok_world)) ∧
    (¬ calls_ok kernel_ok [] ext →
     ∃ missed, notifications [0%nat; 1%nat] ex_graph (drm hotplug_ok_world)
               = hotplugs ext ++ [missed]).
Proof.
  split; [vm_compute; reflexivity|]. split; [discriminate|].
  apply (hotplug_notified 3 0 (ex_world kernel_ok ∅) (Return ())
                          hotplug_ok_world).
  - vm_compute; reflexivity.
  - discriminate.
Defined.

(** C3, as stated, fails: the second Output goes from disconnected to
    connected, the blob for its mode cannot be created, and the handler
    returns without the callback. *)
Lemma hotplug_not_notified_on_failure :
  conn_state <$> connectors_ ex_graph !! 1%nat = Some DRM_MODE_DISCONNECTED ∧
  conn_state <$> connectors_ (drm hotplug_failed_world) !! 1%nat
    = Some DRM_MODE_CONNECTED ∧
  HandleEvent 3 0 (ex_world (kernel_script 3 (-22) connected_report) ∅)
    = (Return (), hotplug_failed_world) ∧
  hotplugs (calls hotplug_failed_world) = [] ∧
  notifications [0%nat; 1%nat] ex_graph (drm hotplug_failed_world) = [(1, 1)].
Proof. by_computation. Qed.

Lemma ex_display_pipe :
  ∃ crtc connector, display_pipe ex_graph 0 crtc connector ex_plane.
Proof.
  destruct (crtcs_ ex_graph !! 0%nat) as [crtc|] eqn:Hcrtc;
    [|vm_compute in Hcrtc; discriminate Hcrtc].
  destruct (connectors_ ex_graph !! 0%nat) as [connector|] eqn:Hconn;
    [|vm_compute in Hconn; discriminate Hconn].
  exists crtc, connector, 0%nat, 0%nat, 0%nat.
  split; [vm_compute; reflexivity|]. split; [exact Hcrtc|].
  split; [vm_compute; reflexivity|]. split; [exact Hconn|].
  vm_compute in Hcrtc. injection Hcrtc as <-.
  split; vm_compute; reflexivity.
Defined.

Lemma modeset_frame_commit_witness :
  hd_needs_modeset (display_at 3 pending_world 0) = true ∧
  (∃ pre p items post,
     calls (Render 3 0 ex_frame 77 pending_world).2
     = pre ++ drmModeAtomicCommit p items DRM_MODE_ATOMIC_ALLOW_MODESET
              :: post ∧
     length items = 12%nat) ∧
  (∀ frame handle,
     modeset_commit_spec 3 0 frame (Render 3 0 frame handle) pending_world) ∧
  (∀ fb_layer,
     modeset_commit_spec 3 0 (layer_displayFrame fb_layer)
       (render_fb 3 0 fb_layer) pending_world).
Proof.
  assert (Hn : hd_needs_modeset (display_at 3 pending_world 0) = true)
    by (vm_compute; reflexivity).
  destruct (modeset_frame_commit 3 0 pending_world Hn)
    as (HR & _ & HmR & Hmfb).
  split; [exact Hn|]. split; [|split; [exact HmR|exact Hmfb]].
  destruct ex_display_pipe as (crtc & connector & Hpipe).
  destruct (HR ex_frame 77 None crtc connector ex_plane) as (post & Hc & _).
  - vm_compute; reflexivity.
  - exact Hpipe.
  - destruct Hpipe as (ci & ki & pi & _ & Hcrtc & _ & Hconn & _).
    vm_compute. repeat split.
  - rewrite app_assoc in Hc. eexists _, _, _, post.
    split; [exact Hc|reflexivity].
Defined.

(** The run the witness is about: the fifteenth call, the commit, fails. *)
Example commit_failure_run :
  (Render 3 0 ex_frame 77 pending_world).1 = Return (-22) ∧
  calls (Render 3 0 ex_frame 77 pending_world).2
  = [ ImportBuffer 77; drmModeAtomicAlloc;
      drmModeAtomicAddProperty 2 10 110 7;
      drmModeAtomicAddProperty 2 40 140 10;
      drmModeAtomicAddProperty 2 50 500 10;
      drmModeAtomicAddProperty 2 50 502 0;
      drmModeAtomicAddProperty 2 50 503 0;
      drmModeAtomicAddProperty 2 50 504 1920;
      drmModeAtomicAddProperty 2 50 505 1080;
      drmModeAtomicAddProperty 2 50 506 0;
      drmModeAtomicAddProperty 2 50 507 0;
      drmModeAtomicAddProperty 2 50 508 1920;
      drmModeAtomicAddProperty 2 50 509 1080;
      drmModeAtomicAddProperty 2 50 501 1;
      drmModeAtomicCommit 2
        [ (10, 110, 7); (40, 140, 10); (50, 500, 10); (50, 502, 0);
          (50, 503, 0); (50, 504, 1920); (50, 505, 1080); (50, 506, 0);
          (50, 507, 0); (50, 508, 1920); (50, 509, 1080); (50, 501, 1) ]
        1024;
      drmModeAtomicFree 2 ] ∧
  hd_needs_modeset
    (display_at 3 (Render 3 0 ex_frame 77 pending_world).2 0) = true.
Proof. by_computation. Qed.

Lemma full_cache_world_miss : cache_full_miss 3 full_cache_world 0 77.
Proof.
  assert (E : hd_bo (display_at 3 full_cache_world 0) = hd_bo hd_full)
    by (vm_compute; reflexivity).
  split; [vm_compute; reflexivity|].
  rewrite E. repeat constructor; by eexists.
Defined.

Lemma full_cache_miss_not_cached_witness :
  cache_full_miss 3 full_cache_world 0 77 ∧
  (∀ frame,
     full_cache_miss_spec 3 0 77 (Render 3 0 frame 77) full_cache_world ∧
     frame_commit_spec 3 0 77 None
       (frame_props (display_at 3 full_cache_world 0) frame) []
       (Render 3 0 frame 77) full_cache_world) ∧
  (∀ ps, cache_full_miss 3 (presentations 3 0 ps full_cache_world) 0 77).
Proof.
  split; [exact full_cache_world_miss|].
  destruct (full_cache_miss_not_cached 3 0 77 full_cache_world
              full_cache_world_miss) as (HR & _ & Hps & _).
  split; [exact HR|exact Hps].
Defined.

(** The run the witness is about: imported, committed, not cached; and
    imported again the next time. *)
Example full_cache_run :
  (Render 3 0 ex_frame 77 full_cache_world).1 = Return 0 ∧
  calls (Render 3 0 ex_frame 77 full_cache_world).2
  = [ ImportBuffer 77; drmModeAtomicAlloc;
      drmModeAtomicAddProperty 2 50 501 1;
      drmModeAtomicCommit 2 [(50, 501, 1)] 1024; drmModeAtomicFree 2 ] ∧
  hd_bo (display_at 3 (Render 3 0 ex_frame 77 full_cache_world).2 0)
  = hd_bo hd_full ∧
  calls (presentations 3 0 [ByRender ex_frame 77; ByRender ex_frame 77]
           full_cache_world)
  = [ ImportBuffer 77; drmModeAtomicAlloc;
      drmModeAtomicAddProperty 2 50 501 1;
      drmModeAtomicCommit 2 [(50, 501, 1)] 1024; drmModeAtomicFree 2;
      ImportBuffer 77; drmModeAtomicAlloc;
      drmModeAtomicAddProperty 7 50 501 6;
      drmModeAtomicCommit 7 [(50, 501, 6)] 1024; drmModeAtomicFree 7 ].
Proof. by_computation. Qed.

(** ** Transactions and blobs that are not given back *)

(** C6 fails on the code.  [Render] with a modeset pending, the third
    [drmModeAtomicAddProperty] (plane attachment) failing: the transaction
    2 was allocated and is not freed.  [Render] without a modeset, the
    framebuffer property failing: the same.  [SetDisplayActiveMode] with
    the blob creation failing: the transaction 1 is not freed. *)
Theorem transaction_leaked :
  ( (Render 3 0 ex_frame 77
       (ex_world (kernel_script 5 (-12) connected_report)
                 {[ 0 := hd_pending ]})).1 = Return (-12) ∧
    calls (Render 3 0 ex_frame 77
             (ex_world (kernel_script 5 (-12) connected_report)
                       {[ 0 := hd_pending ]})).2
    = [ ImportBuffer 77; drmModeAtomicAlloc;
        drmModeAtomicAddProperty 2 10 110 7;
        drmModeAtomicAddProperty 2 40 140 10;
        drmModeAtomicAddProperty 2 50 500 10 ] ) ∧
  ( (Render 3 0 ex_frame 77
       (ex_world (kernel_script 3 (-12) connected_report) ∅)).1
    = Return (-12) ∧
    calls (Render 3 0 ex_frame 77
             (ex_world (kernel_script 3 (-12) connected_report) ∅)).2
    = [ ImportBuffer 77; drmModeAtomicAlloc;
        drmModeAtomicAddProperty 2 50 501 1 ] ) ∧
  ( (SetDisplayActiveMode 0 (ex_mode 1)
       (ex_world (kernel_script 2 (-22) connected_report) ∅)).1
    = Return (-22) ∧
    calls (SetDisplayActiveMode 0 (ex_mode 1)
             (ex_world (kernel_script 2 (-22) connected_report) ∅)).2
    = [ drmModeAtomicAlloc; DRM_IOCTL_MODE_CREATEPROPBLOB (ex_mode 1) ] ).
Proof. by_computation. Qed.

(** C2 fails on the code.  [SetDisplayActiveMode]: the blob 2 it creates
    is committed and never destroyed, and nothing keeps its id.  Two mode
    changes of a display before a frame, a frame, a third mode change and
    a frame: the blobs 1, 2 and 20 were created, only 2 was destroyed, and
    the display refers to 20 alone: blob 1 is lost. *)
Theorem mode_blob_leaked :
  ( (SetDisplayActiveMode 0 (ex_mode 1) (ex_world kernel_ok ∅)).1 = Return 0 ∧
    created_blobs kernel_ok []
      (calls (SetDisplayActiveMode 0 (ex_mode 1) (ex_world kernel_ok ∅)).2)
    = [2] ∧
    destroyed_blobs kernel_ok []
      (calls (SetDisplayActiveMode 0 (ex_mode 1) (ex_world kernel_ok ∅)).2)
    = [] ∧
    displays (SetDisplayActiveMode 0 (ex_mode 1) (ex_world kernel_ok ∅)).2
    = ∅ ) ∧
  ( created_blobs kernel_ok [] (calls mode_changes_world) = [1; 2; 20] ∧
    destroyed_blobs kernel_ok [] (calls mode_changes_world) = [2] ∧
    hd_blob_id (display_at 3 mode_changes_world 0) = 20 ∧
    hd_old_blob_id (display_at 3 mode_changes_world 0) = 20 ∧
    hd_needs_modeset (display_at 3 mode_changes_world 0) = false ).
Proof. by_computation. Qed.

(** ** The frame queue *)

Lemma renderworker_h_QueueFB_eq buffer rw :
  renderworker_h.QueueFB buffer rw =
  Some (renderworker_h.set_queue
          match renderworker_h.queue_ rw with
          | [] => [buffer]
          | _ :: q => q ++ [buffer]
          end rw).
Proof.
  unfold renderworker_h.QueueFB, NXQueue_queue, NXQueue_size.
  destruct (renderworker_h.queue_ rw) as [|x q]; simpl; [done|].
  destruct (2 <=? _) eqn:E; [done|].
  apply Z.leb_gt in E. rewrite length_app in E. simpl in E. lia.
Qed.

Lemma renderworker_h_run_bounded n ops : ∀ rw,
  (1 ≤ n)%nat → (length (renderworker_h.queue_ rw) ≤ n)%nat →
  ∃ rw', renderworker_h.run ops rw = Some rw' ∧
         (length (renderworker_h.queue_ rw') ≤ n)%nat.
Proof.
  induction ops as [|op ops IH]; intros rw Hn Hlen; simpl; [by exists rw|].
  destruct op as [buffer| |fd|]; try by apply IH.
  - rewrite renderworker_h_QueueFB_eq. simpl. apply IH; [done|]. simpl.
    destruct (renderworker_h.queue_ rw) as [|x q]; simpl in *; [lia|].
    rewrite length_app. simpl. lia.
  - apply IH; [done|]. unfold renderworker_h.DequeueFB.
    destruct (renderworker_h.queue_ rw) as [|x q] eqn:E; simpl in *;
      [rewrite E; simpl|]; lia.
Qed.

Lemma part_000_QueueFB_queue buffer rw rw' :
  part_000.QueueFB buffer rw = Some rw' →
  part_000.id_ rw' = part_000.id_ rw ∧
  part_000.queue_ rw' =
    if part_000.id_ rw =? 1
    then match part_000.queue_ rw with
         | [] => [buffer]
         | _ :: q => q ++ [buffer]
         end
    else part_000.queue_ rw ++ [buffer].
Proof.
  unfold part_000.QueueFB, NXQueue_queue, NXQueue_size.
  destruct (part_000.id_ rw =? 1) eqn:Hid; simpl.
  - destruct (part_000.queue_ rw) as [|x q] eqn:Hq; simpl.
    + intros H. by simplify_eq.
    + destruct (2 <=? _) eqn:E.
      * simpl. destruct (part_000.queue_fd_ rw); simpl; intros H;
          by simplify_eq.
      * apply Z.leb_gt in E. rewrite length_app in E. simpl in E. lia.
  - intros H. by simplify_eq.
Qed.

Lemma part_000_run_bounded n ops : ∀ rw rw',
  (1 ≤ n)%nat →
  part_000.id_ rw = 1 → (length (part_000.queue_ rw) ≤ n)%nat →
  part_000.run ops rw = Some rw' →
  (length (part_000.queue_ rw') ≤ n)%nat.
Proof.
  induction ops as [|op ops IH]; intros rw rw' Hn Hid Hlen; simpl.
  - intros H. by simplify_eq.
  - destruct op as [buffer| |fd|].
    + destruct (part_000.QueueFB buffer rw) as [rw1|] eqn:H1; simpl; [|done].
      apply part_000_QueueFB_queue in H1 as [Hid1 Hq1].
      rewrite Hid in Hq1. simpl in Hq1. apply IH; [done|congruence|].
      rewrite Hq1. destruct (part_000.queue_ rw) as [|x q]; simpl in *; [lia|].
      rewrite length_app. simpl. lia.
    + apply IH; [done| |]; unfold part_000.DequeueFB;
        destruct (part_000.queue_ rw) as [|x q] eqn:E; simpl in *;
        try done; [rewrite E; simpl|]; lia.
    + by apply IH.
    + apply IH; [done| |]; unfold part_000.DequeueFD;
        destruct (part_000.queue_fd_ rw) as [|x q]; simpl in *; done.
Qed.

Lemma part_000_QueueFB_eq buffer rw :
  part_000.QueueFB buffer rw =
  if part_000.id_ rw =? 1
  then match part_000.queue_ rw with
       | [] => Some (part_000.set_queue [buffer] rw)
       | _ :: q =>
           match part_000.queue_fd_ rw with
           | [] => None
           | _ :: fds =>
               Some (part_000.set_queue_fd fds
                       (part_000.set_queue (q ++ [buffer]) rw))
           end
       end
  else Some (part_000.set_queue (part_000.queue_ rw ++ [buffer]) rw).
Proof.
  unfold part_000.QueueFB, NXQueue_queue, NXQueue_size.
  destruct (part_000.id_ rw =? 1); simpl; [|done].
  destruct (part_000.queue_ rw) as [|x q]; simpl; [done|].
  destruct (2 <=? _) eqn:E.
  - simpl. by destruct (part_000.queue_fd_ rw).
  - apply Z.leb_gt in E. rewrite length_app in E. simpl in E. lia.
Qed.

Lemma part_000_run_fenced n ops :
  (1 ≤ n)%nat →
  (fenced ops = true → ∀ rw,
     part_000.id_ rw = 1 → (length (part_000.queue_ rw) ≤ n)%nat →
     ∃ rw', part_000.run ops rw = Some rw' ∧
            (length (part_000.queue_ rw') ≤ n)%nat) ∧
  (∀ buffer rest, ops = OpQueueFB buffer :: rest → fenced rest = true →
     ∀ rw, part_000.id_ rw = 1 → part_000.queue_fd_ rw ≠ [] →
     (length (part_000.queue_ rw) ≤ n)%nat →
     ∃ rw', part_000.run ops rw = Some rw' ∧
            (length (part_000.queue_ rw') ≤ n)%nat).
Proof.
  intros Hn. induction ops as [|op ops [IH1 IH2]].
  - split; [|intros buffer rest Heq; discriminate Heq].
    intros _ rw _ Hlen. exists rw. split; [reflexivity|exact Hlen].
  - split.
    + intros Hf rw Hid Hlen. destruct op as [buffer| |fd|].
      * done.
      * simpl in *. apply IH1; [done| |]; unfold part_000.DequeueFB;
          destruct (part_000.queue_ rw) as [|x q] eqn:E; simpl in *;
          rewrite ?E; simpl; try done; lia.
      * destruct ops as [|[buffer| |fd'|] rest].
        -- by eexists.
        -- apply (IH2 buffer rest eq_refl Hf (part_000.QueueFD fd rw));
             [done| |done].
           unfold part_000.QueueFD, NXQueue_queue. simpl.
           by destruct (part_000.queue_fd_ rw).
        -- apply (IH1 Hf (part_000.QueueFD fd rw)); done.
        -- apply (IH1 Hf (part_000.QueueFD fd rw)); done.
        -- apply (IH1 Hf (part_000.QueueFD fd rw)); done.
      * simpl. apply IH1; [done| |]; unfold part_000.DequeueFD;
          by destruct (part_000.queue_fd_ rw).
    + intros buffer rest Heq Hf rw Hid Hfd Hlen. simplify_eq. simpl.
      rewrite part_000_QueueFB_eq, Hid. simpl.
      destruct (part_000.queue_ rw) as [|x q] eqn:Hq; simpl.
      * apply IH1; [done|done|simpl; lia].
      * destruct (part_000.queue_fd_ rw) as [|fd fds]; [done|]. simpl.
        apply IH1; [done|done|]. simpl in *. rewrite length_app. simpl. lia.
Qed.

Lemma part_000_run_appends buffers : ∀ rw,
  part_000.id_ rw ≠ 1 →
  part_000.queue_ <$> part_000.run (OpQueueFB <$> buffers) rw
  = Some (part_000.queue_ rw ++ buffers).
Proof.
  induction buffers as [|b bs IH]; intros rw Hid; simpl.
  - by rewrite app_nil_r.
  - rewrite part_000_QueueFB_eq. apply Z.eqb_neq in Hid. rewrite Hid.
    simpl. rewrite IH; [|simpl; by apply Z.eqb_neq]. simpl.
    by rewrite <- app_assoc.
Qed.

(** C4, as amended.  In renderworker.h, [QueueFB] appends the buffer and
    pops the oldest when two are then pending: it leaves the new buffer
    alone on a queue that held at most one, and drops the oldest of a
    queue that held two; so, over any run of queue operations, the queue
    never holds more than 2 buffers when it starts with at most 2 and
    never more than 1 when it starts with at most 1, the empty queue of a
    new worker for one.  [DequeueFB] takes from the front, so buffers
    leave in the order they came in.  In the variant with [queue_fd_]
    only display 1 evicts, and the eviction pops [queue_fd_] too: the
    bounds hold for every run that is defined; a run in which every
    [QueueFB] directly follows a [QueueFD] is defined; two [QueueFB] in a
    row with no fd queued are undefined.  For the other displays
    [QueueFB] only appends, whatever the queue holds. *)
Theorem frame_queue_bounded :
  (∀ buffer rw,
     renderworker_h.QueueFB buffer rw
     = Some (renderworker_h.set_queue
               match renderworker_h.queue_ rw with
               | [] => [buffer]
               | _ :: q => q ++ [buffer]
               end rw)) ∧
  (∀ a b c rw, renderworker_h.queue_ rw = [a; b] →
     renderworker_h.QueueFB c rw
     = Some (renderworker_h.set_queue [b; c] rw)) ∧
  (∀ n ops rw, n = 1%nat ∨ n = 2%nat →
     (length (renderworker_h.queue_ rw) ≤ n)%nat →
     ∃ rw', renderworker_h.run ops rw = Some rw' ∧
            (length (renderworker_h.queue_ rw') ≤ n)%nat) ∧
  (∀ x q rw, renderworker_h.queue_ rw = x :: q →
     renderworker_h.DequeueFB rw = (x, renderworker_h.set_queue q rw)) ∧
  (∀ buffer rw, part_000.id_ rw = 1 →
     part_000.QueueFB buffer rw
     = match part_000.queue_ rw with
       | [] => Some (part_000.set_queue [buffer] rw)
       | _ :: q =>
           match part_000.queue_fd_ rw with
           | [] => None
           | _ :: fds =>
               Some (part_000.set_queue_fd fds
                       (part_000.set_queue (q ++ [buffer]) rw))
           end
       end) ∧
  (∀ a b c fd fds rw, part_000.id_ rw = 1 →
     part_000.queue_ rw = [a; b] → part_000.queue_fd_ rw = fd :: fds →
     part_000.QueueFB c rw
     = Some (part_000.set_queue_fd fds (part_000.set_queue [b; c] rw))) ∧
  (∀ n ops rw rw', n = 1%nat ∨ n = 2%nat → part_000.id_ rw = 1 →
     (length (part_000.queue_ rw) ≤ n)%nat →
     part_000.run ops rw = Some rw' →
     (length (part_000.queue_ rw') ≤ n)%nat) ∧
  (∀ n ops rw, n = 1%nat ∨ n = 2%nat → part_000.id_ rw = 1 →
     (length (part_000.queue_ rw) ≤ n)%nat → fenced ops = true →
     ∃ rw', part_000.run ops rw = Some rw' ∧
            (length (part_000.queue_ rw') ≤ n)%nat) ∧
  (∀ a b rest rw, part_000.id_ rw = 1 → part_000.queue_fd_ rw = [] →
     part_000.run (OpQueueFB a :: OpQueueFB b :: rest) rw = None) ∧
  (∀ buffer rw, part_000.id_ rw ≠ 1 →
     part_000.QueueFB buffer rw
     = Some (part_000.set_queue (part_000.queue_ rw ++ [buffer]) rw)) ∧
  (∀ buffers rw, part_000.id_ rw ≠ 1 →
     part_000.queue_ <$> part_000.run (OpQueueFB <$> buffers) rw
     = Some (part_000.queue_ rw ++ buffers)) ∧
  (∀ x q rw, part_000.queue_ rw = x :: q →
     part_000.DequeueFB rw = (x, part_000.set_queue q rw)).
Proof.
  split; [apply renderworker_h_QueueFB_eq|].
  split. { intros a b c rw Hq. rewrite renderworker_h_QueueFB_eq. by rewrite Hq. }
  split.
  { intros n ops rw Hn. apply renderworker_h_run_bounded. lia. }
  split. { intros x q rw Hq. unfold renderworker_h.DequeueFB. by rewrite Hq. }
  split.
  { intros buffer rw Hid. rewrite part_000_QueueFB_eq, Hid. done. }
  split.
  { intros a b c fd fds rw Hid Hq Hfd.
    rewrite part_000_QueueFB_eq, Hid, Hq, Hfd. done. }
  split.
  { intros n ops rw rw' Hn. apply part_000_run_bounded. lia. }
  split.
  { intros n ops rw Hn Hid Hlen Hf.
    apply (proj1 (part_000_run_fenced n ops ltac:(lia)) Hf rw Hid Hlen). }
  split.
  { intros a b rest rw Hid Hfd. simpl.
    rewrite part_000_QueueFB_eq, Hid, Hfd. simpl.
    destruct (part_000.queue_ rw) as [|x q] eqn:Hq; simpl; [|done].
    rewrite part_000_QueueFB_eq. simpl. rewrite Hid, Hfd. done. }
  split.
  { intros buffer rw Hid. rewrite part_000_QueueFB_eq.
    apply Z.eqb_neq in Hid. by rewrite Hid. }
  split; [apply part_000_run_appends|].
  intros x q rw Hq. unfold part_000.DequeueFB. by rewrite Hq.
Qed.

Lemma frame_queue_bounded_witness :
  renderworker_h.QueueFB 1 (queue_of 2 []) = Some (queue_of 2 [1]) ∧
  renderworker_h.QueueFB 2 (queue_of 2 [1]) = Some (queue_of 2 [2]) ∧
  fenced [OpQueueFD 7; OpQueueFB 1; OpQueueFD 8; OpQueueFB 2] = true ∧
  ∃ rw', part_000.run [OpQueueFD 7; OpQueueFB 1; OpQueueFD 8; OpQueueFB 2]
           (fd_queue_of 1 [] []) = Some rw' ∧
         (length (part_000.queue_ rw') ≤ 1)%nat.
Proof.
  split; [exact (proj1 frame_queue_bounded 1 (queue_of 2 []))|].
  split; [exact (proj1 frame_queue_bounded 2 (queue_of 2 [1]))|].
  split; [reflexivity|].
  apply (proj1 (proj2 (proj2 (proj2 (proj2 (proj2 (proj2 (proj2
           frame_queue_bounded))))))) 1%nat
           [OpQueueFD 7; OpQueueFB 1; OpQueueFD 8; OpQueueFB 2]
           (fd_queue_of 1 [] [])).
  - by left.
  - reflexivity.
  - simpl; lia.
  - reflexivity.
Defined.

(** C4, as stated, fails: in the variant with [queue_fd_] the queue of
    display 2 holds three buffers after three [QueueFB]. *)
Lemma frame_queue_unbounded :
  part_000.queue_ <$>
    part_000.run [OpQueueFB 1; OpQueueFB 2; OpQueueFB 3]
      {| part_000.id_ := 2; part_000.queue_ := [];
         part_000.queue_fd_ := [] |}
  = Some [1; 2; 3].
Proof. vm_compute; reflexivity. Qed.

(** From the empty queue, [QueueFB] leaves one buffer pending. *)
Example queue_runs :
  renderworker_h.queue_ <$>
    renderworker_h.run [OpQueueFB 1; OpQueueFB 2; OpQueueFB 3]
      (queue_of 1 []) = Some [3] ∧
  part_000.queue_ <$>
    part_000.run [OpQueueFD 7; OpQueueFB 1; OpQueueFB 2]
      {| part_000.id_ := 1; part_000.queue_ := [];
         part_000.queue_fd_ := [] |} = Some [2].
Proof. split; vm_compute; reflexivity. Qed.

(** * Properties of the code besides the specification *)

(** ** The graph [Init] builds, whatever the kernel lists *)

Lemma find_index_Some {A} (p : A → bool) (l : list A) : ∀ i r,
  find_index p l i = Some r →
  ∃ k x, r = (i + k)%nat ∧ l !! k = Some x ∧ p x = true ∧
         ∀ j y, (j < k)%nat → l !! j = Some y → p y = false.
Proof.
  induction l as [|x l IH]; intros i r; simpl; [done|].
  destruct (p x) eqn:Hx.
  - intros H. simplify_eq. exists 0%nat, x. split; [lia|]. split; [done|].
    split; [done|]. intros j y Hj. lia.
  - intros H. apply IH in H as (k & y & -> & Hk & Hy & Hfirst).
    exists (S k), y. split; [lia|]. split; [done|]. split; [done|].
    intros j z Hj Hz. destruct j as [|j]; simpl in Hz; [by simplify_eq|].
    apply (Hfirst j); [lia|done].
Qed.

Lemma find_index_None {A} (p : A → bool) (l : list A) : ∀ i,
  find_index p l i = None ↔ ∀ k x, l !! k = Some x → p x = false.
Proof.
  induction l as [|x l IH]; intros i; simpl.
  - split; [|done]. intros _ k y Hk. done.
  - destruct (p x) eqn:Hx.
    + split; [done|]. intros H. specialize (H 0%nat x eq_refl). congruence.
    + rewrite IH. split.
      * intros H [|k] y Hk; simpl in Hk; [by simplify_eq|]. by apply (H k).
      * intros H k y Hk. by apply (H (S k)).
Qed.

Lemma find_index_first {A} (p : A → bool) (l : list A) k x :
  l !! k = Some x → p x = true →
  (∀ j y, (j < k)%nat → l !! j = Some y → p y = false) →
  find_index p l 0 = Some k.
Proof.
  intros Hk Hx Hfirst.
  destruct (find_index p l 0) as [r|] eqn:E.
  - apply find_index_Some in E as (k' & y & -> & Hk' & Hy & Hfirst').
    simpl. f_equal.
    destruct (decide (k' < k)%nat) as [Hlt|Hge].
    { rewrite (Hfirst _ _ Hlt Hk') in Hy. done. }
    destruct (decide (k < k')%nat) as [Hlt|Hge'].
    { rewrite (Hfirst' _ _ Hlt Hk) in Hx. done. }
    lia.
  - rewrite find_index_None in E. rewrite (E _ _ Hk) in Hx. done.
Qed.

Lemma init_connectors_numbered encoders l : ∀ found num acc ret conns,
  init_connectors encoders l found num acc = (ret, conns) →
  (found = false → acc = [] ∧ num = 1) →
  (found = true → num = Z.of_nat (length acc)) →
  numbered acc → numbered conns.
Proof.
  induction l as [|[c|] rest IH]; intros found num acc ret conns; simpl.
  - intros H. by simplify_eq.
  - destruct (connector_encoders c (k_conn_encoders c) encoders [] None)
      as [p cur] eqn:Hc.
    destruct (k_conn_init c =? 0); simpl; [|intros H; by simplify_eq].
    intros H Hf Ht Hacc. destruct found; simpl in H; apply IH in H; try done.
    + intros _. rewrite length_app. simpl. rewrite Ht by done. lia.
    + intros k x Hk. apply lookup_app_Some in Hk as [Hk|[Hge Hk]];
        [by apply Hacc|].
      destruct (k - length acc)%nat eqn:E; simpl in Hk; [|done].
      simplify_eq. simpl. rewrite Ht by done. lia.
    + intros _. destruct Hf as [-> ->]; done.
    + intros k x Hk. destruct Hf as [-> ->]; [done|].
      destruct k; simpl in Hk; [|done]. by simplify_eq.
  - intros H. by simplify_eq.
Qed.

Lemma init_crtcs_unbound l : ∀ i acc ret crtcs,
  init_crtcs l i acc = (ret, crtcs) →
  Forall (λ crtc, crtc_display crtc = None) acc →
  Forall (λ crtc, crtc_display crtc = None) crtcs.
Proof.
  induction l as [|[c|] rest IH]; intros i acc ret crtcs; simpl.
  - intros H. by simplify_eq.
  - destruct (k_crtc_init c =? 0); simpl; [|intros H; by simplify_eq].
    intros H Hacc. apply IH in H; [done|].
    apply Forall_app. split; [done|]. by apply Forall_singleton.
  - intros H. by simplify_eq.
Qed.

Lemma init_crtcs_length l : ∀ i acc crtcs,
  init_crtcs l i acc = (0, crtcs) →
  length crtcs = (length acc + length l)%nat.
Proof.
  induction l as [|[c|] rest IH]; intros i acc crtcs; simpl.
  - intros H. simplify_eq. lia.
  - destruct (k_crtc_init c =? 0) eqn:E; simpl.
    + intros H. apply IH in H. rewrite length_app in H. simpl in H. lia.
    + intros H. apply Z.eqb_neq in E. by simplify_eq.
  - unfold ENODEV. intros H. by simplify_eq.
Qed.

Lemma init_connectors_length encoders l : ∀ found num acc conns,
  init_connectors encoders l found num acc = (0, conns) →
  length conns = (length acc + length l)%nat.
Proof.
  induction l as [|[c|] rest IH]; intros found num acc conns; simpl.
  - intros H. simplify_eq. lia.
  - destruct (connector_encoders c (k_conn_encoders c) encoders [] None)
      as [p cur] eqn:Hc.
    destruct (k_conn_init c =? 0) eqn:E; simpl.
    + intros H. destruct found; simpl in H; apply IH in H;
        rewrite length_app in H; simpl in H; lia.
    + intros H. apply Z.eqb_neq in E. by simplify_eq.
  - unfold ENODEV. intros H. by simplify_eq.
Qed.

Lemma graph_fresh res r1 crtcs r2 encoders r3 connectors planes :
  init_crtcs (res_crtcs res) 0 [] = (r1, crtcs) →
  init_encoders crtcs (res_encoders res) [] = (r2, encoders) →
  init_connectors encoders (res_connectors res) false 1 [] = (r3, connectors) →
  fresh_graph {| crtcs_ := crtcs; encoders_ := encoders;
                 connectors_ := connectors; planes_ := planes |}.
Proof.
  intros Hcrtcs Hencs Hconns.
  set (P := λ enc : DrmEncoder,
         (∀ ci, enc_crtc enc = Some ci → (ci < length crtcs)%nat) ∧
         (∀ ci, ci ∈ enc_possible_crtcs enc → (ci < length crtcs)%nat)).
  assert (HP : Forall P encoders).
  { eapply init_encoders_Forall; [exact Hencs|by apply Forall_nil|].
    intros e p cur He Hec. apply encoder_crtcs_spec in Hec as [Hp Hcur].
    unfold P; simpl. split.
    - intros ci ->. destruct Hcur as [?|(j & crtc & ? & Hj & Hid)]; [done|].
      simplify_eq. by apply lookup_lt_Some in Hj.
    - intros ci Hci. apply Hp in Hci as [Hci|(j & crtc & -> & Hj & _)].
      + by apply elem_of_nil in Hci.
      + by apply lookup_lt_Some in Hj. }
  set (Q := λ conn : DrmConnector,
         (∀ ei, conn_encoder conn = Some ei → (ei < length encoders)%nat) ∧
         (∀ ei, ei ∈ conn_possible_encoders conn →
                (ei < length encoders)%nat)).
  assert (HQ : Forall Q connectors).
  { eapply init_connectors_Forall; [exact Hconns|by apply Forall_nil|].
    intros c p cur d Hc Hce. apply connector_encoders_spec in Hce as [Hp Hcur].
    unfold Q; simpl. split.
    - intros ei ->. destruct Hcur as [?|(x & enc & ? & Hx & Hid)]; [done|].
      simplify_eq. by apply lookup_lt_Some in Hx.
    - intros ei Hei. apply Hp in Hei as [Hei|(enc & Hx & _)].
      + by apply elem_of_nil in Hei.
      + by apply lookup_lt_Some in Hx. }
  rewrite Forall_lookup in HP. rewrite Forall_lookup in HQ.
  split; [|split].
  - split; simpl.
    + intros ei e He. by apply (HP _ _ He).
    + intros ki c Hc. by apply (HQ _ _ Hc).
  - simpl. eapply init_connectors_numbered; [exact Hconns| | |]; try done.
  - simpl. eapply init_crtcs_unbound; [exact Hcrtcs|]. by apply Forall_nil.
Qed.

Lemma CreateDisplayPipe_wf ki st r st' :
  wf_resources st → CreateDisplayPipe ki st = Some (r, st') →
  wf_resources st'.
Proof.
  intros Hwf. rewrite CreateDisplayPipe_first_fit by done.
  unfold first_fit_binding.
  destruct (connectors_ st !! ki) as [conn|] eqn:Hconn; simpl; [|done].
  destruct (first_fit _ _ _) as [[ei ci]|] eqn:Hff; intros H; simplify_eq;
    [|done].
  destruct Hwf as [Hwe Hwc].
  apply first_fit_Some in Hff as [Hei Hfc].
  apply first_fit_crtc_Some in Hfc as (enc & Henc & Hci & Hus).
  assert (Hci_lt : (ci < length (crtcs_ st))%nat).
  { apply usable_display in Hus as (crtc & Hc & _).
    by apply lookup_lt_Some in Hc. }
  assert (Hei_lt : (ei < length (encoders_ st))%nat).
  { by apply lookup_lt_Some in Henc. }
  unfold bind_pipe. split; simpl; rewrite ?length_alter.
  - intros e' e He. rewrite list_lookup_alter in He.
    case_decide; simplify_eq.
    + rewrite Henc in He. simplify_eq/=.
      destruct (Hwe _ _ Henc) as [_ Hp].
      split; [by intros c ?; simplify_eq|done].
    + by apply (Hwe e').
  - intros k c Hk. rewrite list_lookup_alter in Hk.
    case_decide; simplify_eq.
    + rewrite Hconn in Hk. simplify_eq/=.
      destruct (Hwc _ _ Hconn) as [_ Hp].
      split; [by intros e ?; simplify_eq|done].
    + by apply (Hwc k).
Qed.

Lemma create_display_pipes_served conns : ∀ st r st',
  wf_resources st → create_display_pipes conns st = Some (r, st') →
  wf_resources st' ∧ keeps_served st st' ∧ same_displays st st' ∧
  length (crtcs_ st') = length (crtcs_ st) ∧
  (r = 0 → ∀ ki conn, ki ∈ conns → connectors_ st' !! ki = Some conn →
           served st' conn).
Proof.
  induction conns as [|ki rest IH]; intros st r st' Hwf; simpl.
  - intros H. simplify_eq. split; [done|]. split.
    + intros x crtc d ??. by exists crtc.
    + split; [done|]. split; [done|].
      intros _ ki conn Hki. by apply elem_of_nil in Hki.
  - destruct (CreateDisplayPipe ki st) as [[r1 st1]|] eqn:H1; simpl; [|done].
    pose proof (CreateDisplayPipe_wf _ _ _ _ Hwf H1) as Hwf1.
    destruct (CreateDisplayPipe_effect _ _ _ _ Hwf H1) as (Hk1 & Hs1 & Hb1).
    assert (Hlen1 : length (crtcs_ st1) = length (crtcs_ st)).
    { revert H1. rewrite CreateDisplayPipe_first_fit by done.
      unfold first_fit_binding. destruct (connectors_ st !! ki); [|done].
      simpl. destruct (first_fit _ _ _) as [[ei ci]|]; intros ?; simplify_eq;
        [|done].
      unfold bind_pipe. simpl. by rewrite length_alter. }
    destruct (r1 =? 0) eqn:Hr1; simpl.
    + apply Z.eqb_eq in Hr1. subst r1. intros H.
      destruct (IH _ _ _ Hwf1 H) as (Hwf' & Hk' & Hs' & Hlen' & Hb').
      split; [done|]. split; [by apply (keeps_served_trans _ st1)|].
      split; [intros k; by rewrite Hs1, Hs'|]. split; [congruence|].
      intros Hr k conn Hk Hc. apply elem_of_cons in Hk as [->|Hk].
      * pose proof (Hs' ki) as Hd. rewrite Hc in Hd. simpl in Hd.
        destruct (connectors_ st1 !! ki) as [c1|] eqn:Hc1; [|done].
        pose proof (Hs1 ki) as Hd1. rewrite Hc1 in Hd1. simpl in Hd1.
        destruct (connectors_ st !! ki) as [c0|] eqn:Hc0; [|done].
        simpl in Hd, Hd1. simplify_eq.
        apply (served_kept st1 st' c0); [done|congruence|by apply Hb1].
      * by apply (Hb' Hr k).
    + intros H. simplify_eq. apply Z.eqb_neq in Hr1.
      split; [done|]. split; [done|]. split; [done|]. split; [done|]. done.
Qed.

Lemma same_displays_numbered st st' :
  same_displays st st' → numbered (connectors_ st) → numbered (connectors_ st').
Proof.
  intros Hs Hn k c Hc. pose proof (Hs k) as H. rewrite Hc in H.
  destruct (connectors_ st !! k) as [c0|] eqn:Hc0; [|done].
  simpl in H. simplify_eq. rewrite <- H. by apply Hn.
Qed.

(** What [Init] leaves, by the stage it got to. *)
Lemma Init_stages dev r st :
  Init dev = Some (r, st) →
  numbered (connectors_ st) ∧
  (r = 0 →
   wf_resources st ∧
   (∀ ki conn, connectors_ st !! ki = Some conn → served st conn) ∧
   ∃ res, dev_resources dev = Some res ∧
          length (crtcs_ st) = length (res_crtcs res) ∧
          length (connectors_ st) = length (res_connectors res)).
Proof.
  unfold Init.
  destruct (dev_open dev <? 0).
  { intros H. simplify_eq. split; [done|]. unfold ENODEV. done. }
  destruct (dev_cap_universal_planes dev =? 0) eqn:E1; simpl.
  2:{ apply Z.eqb_neq in E1. intros H. simplify_eq. by split. }
  destruct (dev_cap_atomic dev =? 0) eqn:E2; simpl.
  2:{ apply Z.eqb_neq in E2. intros H. simplify_eq. by split. }
  destruct (dev_resources dev) as [res|].
  2:{ intros H. simplify_eq. split; [done|]. unfold ENODEV. done. }
  destruct (init_crtcs (res_crtcs res) 0 []) as [r1 crtcs] eqn:Hcrtcs.
  destruct (r1 =? 0) eqn:Hr1.
  2:{ simpl. rewrite ?Hr1. simpl. rewrite ?Hr1. simpl.
      apply Z.eqb_neq in Hr1. intros H. simplify_eq. by split. }
  apply Z.eqb_eq in Hr1. subst r1.
  destruct (init_encoders crtcs (res_encoders res) []) as [r2 encoders]
    eqn:Hencs.
  destruct (r2 =? 0) eqn:Hr2.
  2:{ simpl. rewrite ?Hr2. simpl. rewrite ?Hr2. simpl.
      apply Z.eqb_neq in Hr2. intros H. simplify_eq. by split. }
  destruct (init_connectors encoders (res_connectors res) false 1 [])
    as [r3 connectors] eqn:Hconns.
  pose proof (λ planes, graph_fresh res 0 crtcs r2 encoders r3 connectors
                          planes Hcrtcs Hencs Hconns) as Hfresh.
  destruct (r3 =? 0) eqn:Hr3; simpl.
  2:{ apply Z.eqb_neq in Hr3. intros H. simplify_eq.
      split; [apply (Hfresh [])|done]. }
  apply Z.eqb_eq in Hr3. subst r3.
  destruct (dev_plane_resources dev) as [plane_res|].
  2:{ intros H. simplify_eq. split; [apply (Hfresh [])|]. unfold ENOENT. done. }
  destruct (init_planes plane_res []) as [r4 planes] eqn:Hplanes.
  destruct (r4 =? 0) eqn:Hr4; simpl.
  2:{ apply Z.eqb_neq in Hr4. intros H. simplify_eq.
      split; [apply (Hfresh planes)|done]. }
  destruct (dev_event_listener_init dev =? 0) eqn:Hr5; simpl.
  2:{ apply Z.eqb_neq in Hr5. intros H. simplify_eq.
      split; [apply (Hfresh planes)|done]. }
  intros H. destruct (Hfresh planes) as (Hwf & Hnum & _).
  destruct (create_display_pipes_served _ _ _ _ Hwf H)
    as (Hwf' & _ & Hs & Hlen & Hb).
  split; [by apply (same_displays_numbered _ _ Hs)|].
  intros ->. split; [done|]. split.
  - intros ki conn Hc. apply (Hb eq_refl ki); [|done].
    apply elem_of_seq. split; [lia|]. simpl.
    apply lookup_lt_Some in Hc.
    rewrite <- (same_displays_length _ _ Hs) in Hc. simpl in Hc. lia.
  - exists res. split; [done|]. split.
    + rewrite Hlen. simpl.
      by rewrite (init_crtcs_length _ _ _ _ Hcrtcs).
    + rewrite <- (same_displays_length _ _ Hs). simpl.
      by rewrite (init_connectors_length _ _ _ _ _ _ Hconns).
Qed.

Lemma numbered_lookup st :
  numbered (connectors_ st) →
  ∀ d k, GetConnectorForDisplay st d = Some k ↔
         d = Z.of_nat k ∧ (k < length (connectors_ st))%nat.
Proof.
  intros Hn d k. unfold GetConnectorForDisplay. split.
  - intros H. apply find_index_Some in H as (k' & c & -> & Hk & Hp & _).
    simpl. apply bool_decide_eq_true in Hp.
    rewrite (Hn _ _ Hk) in Hp. split; [done|]. by apply lookup_lt_Some in Hk.
  - intros [-> Hlt]. destruct (lookup_lt_is_Some_2 _ _ Hlt) as [c Hc].
    apply (find_index_first _ _ k c); [done| |].
    + apply bool_decide_eq_true. by apply Hn.
    + intros j y Hj Hy. apply bool_decide_eq_false.
      rewrite (Hn _ _ Hy). lia.
Qed.

(** X1.  Whatever [Init] returns, the Outputs it has built are numbered in
    listing order, the first 0, the second 1 and so on, so
    [GetConnectorForDisplay] finds for a display index the Output at that
    position and finds none for any other number. *)
Theorem Init_numbers_displays dev r st :
  Init dev = Some (r, st) →
  (∀ k c, connectors_ st !! k = Some c → conn_display c = Z.of_nat k) ∧
  (∀ d k, GetConnectorForDisplay st d = Some k ↔
          d = Z.of_nat k ∧ (k < length (connectors_ st))%nat).
Proof.
  intros H. apply Init_stages in H as [Hn _]. split; [done|].
  by apply numbered_lookup.
Qed.

Lemma Init_numbers_displays_witness :
  Init (ex_device ex_res) = Some (0, ex_graph) ∧
  (∀ k c, connectors_ ex_graph !! k = Some c → conn_display c = Z.of_nat k) ∧
  (∀ d k, GetConnectorForDisplay ex_graph d = Some k ↔
          d = Z.of_nat k ∧ (k < length (connectors_ ex_graph))%nat).
Proof.
  split; [vm_compute; reflexivity|].
  apply (Init_numbers_displays (ex_device ex_res) 0 ex_graph).
  vm_compute; reflexivity.
Defined.

Lemma served_lookup st d :
  (∃ ci crtc, crtcs_ st !! ci = Some crtc ∧ crtc_display crtc = Some d) →
  ∃ ci crtc, GetCrtcForDisplay st d = Some ci ∧
             crtcs_ st !! ci = Some crtc ∧ crtc_display crtc = Some d.
Proof.
  intros (ci & crtc & Hc & Hd). unfold GetCrtcForDisplay.
  destruct (find_index _ (crtcs_ st) 0) as [r|] eqn:E.
  - apply find_index_Some in E as (k & x & -> & Hk & Hp & _).
    exists k, x. split; [done|]. split; [done|].
    by apply bool_decide_eq_true in Hp.
  - rewrite find_index_None in E. specialize (E _ _ Hc).
    apply bool_decide_eq_false in E. done.
Qed.

(** X2.  After a successful [Init], with no assumption on what the kernel
    listed, every Output has a controller: [GetCrtcForDisplay] of its
    display index returns a controller, and that controller serves this
    display. *)
Theorem Init_binds_every_display dev st k :
  Init dev = Some (0, st) → (k < length (connectors_ st))%nat →
  ∃ ci crtc, GetCrtcForDisplay st (Z.of_nat k) = Some ci ∧
             crtcs_ st !! ci = Some crtc ∧
             crtc_display crtc = Some (Z.of_nat k).
Proof.
  intros H Hk. apply Init_stages in H as [Hn H].
  destruct (H eq_refl) as (_ & Hserved & _).
  destruct (lookup_lt_is_Some_2 _ _ Hk) as [c Hc].
  apply served_lookup. destruct (Hserved _ _ Hc) as (ci & crtc & Hci & Hd).
  exists ci, crtc. split; [done|]. by rewrite <- (Hn _ _ Hc).
Qed.

Lemma Init_binds_every_display_witness :
  Init (ex_device ex_res) = Some (0, ex_graph) ∧
  (1 < length (connectors_ ex_graph))%nat ∧
  ∃ ci crtc, GetCrtcForDisplay ex_graph (Z.of_nat 1) = Some ci ∧
             crtcs_ ex_graph !! ci = Some crtc ∧
             crtc_display crtc = Some (Z.of_nat 1).
Proof.
  split; [vm_compute; reflexivity|]. split; [vm_compute; lia|].
  apply (Init_binds_every_display (ex_device ex_res) ex_graph 1).
  - vm_compute; reflexivity.
  - vm_compute; lia.
Defined.

(** X3.  [Init] does not succeed when the kernel lists more connectors
    than crtcs: each Output needs a controller of its own. *)
Theorem Init_needs_a_crtc_per_connector dev res st :
  dev_resources dev = Some res → Init dev = Some (0, st) →
  (length (res_connectors res) ≤ length (res_crtcs res))%nat.
Proof.
  intros Hres H. apply Init_stages in H as [Hn H].
  destruct (H eq_refl) as (_ & Hserved & res' & Hres' & Hlc & Hlk).
  rewrite Hres in Hres'. simplify_eq.
  rewrite <- Hlc, <- Hlk.
  set (f := λ k : nat, default 0%nat (GetCrtcForDisplay st (Z.of_nat k))).
  assert (Hf : ∀ k, (k < length (connectors_ st))%nat →
             ∃ crtc, crtcs_ st !! f k = Some crtc ∧
                     crtc_display crtc = Some (Z.of_nat k)).
  { intros k Hk. destruct (lookup_lt_is_Some_2 _ _ Hk) as [c Hc].
    destruct (served_lookup st (Z.of_nat k)) as (ci & crtc & Hg & Hci & Hd).
    { destruct (Hserved _ _ Hc) as (ci & crtc & Hci & Hd).
      exists ci, crtc. split; [done|]. by rewrite <- (Hn _ _ Hc). }
    exists crtc. unfold f. rewrite Hg. done. }
  set (l := f <$> seq 0 (length (connectors_ st))).
  assert (Hnd : NoDup l).
  { apply NoDup_fmap_2_strong; [|apply NoDup_seq].
    intros x y Hx Hy Hxy. apply elem_of_seq in Hx, Hy.
    destruct (Hf x) as (cx & Hcx & Hdx); [lia|].
    destruct (Hf y) as (cy & Hcy & Hdy); [lia|].
    rewrite Hxy in Hcx. rewrite Hcx in Hcy. simplify_eq. lia. }
  assert (Hsub : l ⊆+ seq 0 (length (crtcs_ st))).
  { apply NoDup_submseteq; [done|]. intros ci Hci.
    apply list_elem_of_fmap in Hci as (k & -> & Hk).
    apply elem_of_seq in Hk. destruct (Hf k) as (c & Hc & _); [lia|].
    apply elem_of_seq. apply lookup_lt_Some in Hc. lia. }
  apply submseteq_length in Hsub. unfold l in Hsub.
  by rewrite length_fmap, !length_seq in Hsub.
Qed.

Lemma Init_needs_a_crtc_per_connector_witness :
  dev_resources (ex_device ex_res) = Some ex_res ∧
  Init (ex_device ex_res) = Some (0, ex_graph) ∧
  (length (res_connectors ex_res) ≤ length (res_crtcs ex_res))%nat.
Proof.
  split; [reflexivity|]. split; [vm_compute; reflexivity|].
  apply (Init_needs_a_crtc_per_connector (ex_device ex_res) ex_res ex_graph).
  - reflexivity.
  - vm_compute; reflexivity.
Defined.

Lemma alter_changes {A} (f : A → A) (l : list A) i k x' :
  alter f i l !! k = Some x' →
  ∃ x, l !! k = Some x ∧ (x' = x ∨ (k = i ∧ x' = f x)).
Proof.
  rewrite list_lookup_alter. case_decide; subst.
  - destruct (l !! k) as [x|]; simpl; [|done]. intros ?. simplify_eq.
    exists x. split; [done|]. by right.
  - intros Hl. exists x'. split; [done|]. by left.
Qed.

(** X4.  On a graph whose pointers are valid, [CreateDisplayPipe] returns
    0 or -ENODEV and nothing else; with -ENODEV the graph is as it was;
    with 0 it has changed at most the display of controllers, the
    controller of Encoders and the Encoder of the Output it was called
    for: planes, the other Outputs, ids, display indices and the lists of
    legal Encoders and controllers are as they were. *)
Theorem CreateDisplayPipe_footprint ki st r st' :
  wf_resources st → CreateDisplayPipe ki st = Some (r, st') →
  (r = 0 ∨ r = - ENODEV) ∧
  (r = - ENODEV → st' = st) ∧
  planes_ st' = planes_ st ∧
  (∀ k, k ≠ ki → connectors_ st' !! k = connectors_ st !! k) ∧
  (∀ c', connectors_ st' !! ki = Some c' →
     ∃ c, connectors_ st !! ki = Some c ∧
          (c' = c ∨ ∃ ei, c' = DrmConnector_set_encoder ei c)) ∧
  (∀ k e', encoders_ st' !! k = Some e' →
     ∃ e, encoders_ st !! k = Some e ∧
          (e' = e ∨ ∃ ci, e' = DrmEncoder_set_crtc ci e)) ∧
  (∀ k c', crtcs_ st' !! k = Some c' →
     ∃ c, crtcs_ st !! k = Some c ∧
          (c' = c ∨ ∃ d, c' = DrmCrtc_set_display d c)).
Proof.
  intros Hwf. rewrite CreateDisplayPipe_first_fit by done.
  unfold first_fit_binding.
  destruct (connectors_ st !! ki) as [conn|] eqn:Hconn; simpl; [|done].
  destruct (first_fit _ _ _) as [[ei ci]|] eqn:Hff; intros H; simplify_eq.
  - split; [by left|].
    split; [intros Hr; exfalso; unfold ENODEV in Hr; lia|].
    unfold bind_pipe; simpl. split; [reflexivity|]. split; [|split; [|split]].
    + intros k Hk. by rewrite list_lookup_alter_ne.
    + intros c' Hc'. apply alter_changes in Hc' as (c & Hc & [->|[_ ->]]);
        exists c; (split; [congruence|]); [by left|right; by exists ei].
    + intros k e' He'. apply alter_changes in He' as (e & He & [->|[_ ->]]);
        exists e; (split; [done|]); [by left|right; by exists ci].
    + intros k c' Hc'. apply alter_changes in Hc' as (c & Hc & [->|[_ ->]]);
        exists c; (split; [done|]); [by left|right; by eexists].
  - split; [by right|]. split; [done|]. split; [done|].
    split; [done|]. split; [|split].
    + intros c' Hc'. exists c'. split; [congruence|by left].
    + intros k e' He'. exists e'. split; [done|by left].
    + intros k c' Hc'. exists c'. split; [done|by left].
Qed.

Lemma CreateDisplayPipe_footprint_witness :
  wf_resources ex_graph ∧
  CreateDisplayPipe 1 ex_graph = Some (0, ex_graph) ∧
  (0 = 0 ∨ 0 = - ENODEV) ∧
  (0 = - ENODEV → ex_graph = ex_graph) ∧
  planes_ ex_graph = planes_ ex_graph ∧
  (∀ k, k ≠ 1%nat → connectors_ ex_graph !! k = connectors_ ex_graph !! k) ∧
  (∀ c', connectors_ ex_graph !! 1%nat = Some c' →
     ∃ c, connectors_ ex_graph !! 1%nat = Some c ∧
          (c' = c ∨ ∃ ei, c' = DrmConnector_set_encoder ei c)) ∧
  (∀ k e', encoders_ ex_graph !! k = Some e' →
     ∃ e, encoders_ ex_graph !! k = Some e ∧
          (e' = e ∨ ∃ ci, e' = DrmEncoder_set_crtc ci e)) ∧
  (∀ k c', crtcs_ ex_graph !! k = Some c' →
     ∃ c, crtcs_ ex_graph !! k = Some c ∧
          (c' = c ∨ ∃ d, c' = DrmCrtc_set_display d c)).
Proof.
  split; [exact ex_graph_wf|]. split; [vm_compute; reflexivity|].
  apply (CreateDisplayPipe_footprint 1 ex_graph 0 ex_graph).
  - exact ex_graph_wf.
  - vm_compute; reflexivity.
Defined.

(** X5.  A second [CreateDisplayPipe] for an Output that was bound by the
    first returns 0 and leaves the graph as the first left it. *)
Theorem CreateDisplayPipe_again ki st st' :
  wf_resources st → CreateDisplayPipe ki st = Some (0, st') →
  CreateDisplayPipe ki st' = Some (0, st').
Proof.
  intros Hwf. rewrite CreateDisplayPipe_first_fit by done.
  unfold first_fit_binding.
  destruct (connectors_ st !! ki) as [conn|] eqn:Hconn; simpl; [|done].
  destruct (first_fit _ _ _) as [[ei ci]|] eqn:Hff; intros H; simplify_eq.
  apply first_fit_Some in Hff as [Hei Hfc].
  apply first_fit_crtc_Some in Hfc as (enc & Henc & Hci & Hus).
  apply usable_display in Hus as (crtc & Hcrtc & _).
  unfold CreateDisplayPipe, bind_pipe, set_encoder, set_display, set_crtc.
  cbn [connectors_ encoders_ crtcs_ planes_].
  rewrite list_lookup_alter_eq, Hconn. cbn [fmap option_fmap option_map
    mbind option_bind conn_encoder conn_display DrmConnector_set_encoder].
  unfold TryEncoderForDisplay. cbn [connectors_ encoders_ crtcs_ planes_].
  rewrite list_lookup_alter_eq, Henc. cbn [fmap option_fmap option_map
    mbind option_bind enc_crtc DrmEncoder_set_crtc].
  rewrite list_lookup_alter_eq, Hcrtc. cbn [fmap option_fmap option_map
    mbind option_bind].
  unfold can_bind. cbn [crtc_display DrmCrtc_set_display].
  rewrite bool_decide_eq_true_2 by done.
  unfold set_display. cbn [connectors_ encoders_ crtcs_ planes_].
  cbn [mbind option_bind]. change (0 =? 0) with true. cbv iota.
  f_equal. f_equal. f_equal.
  apply alter_fixed. intros x Hx. rewrite list_lookup_alter_eq, Hcrtc in Hx.
  by simplify_eq/=.
Qed.

Lemma CreateDisplayPipe_again_witness :
  wf_resources ex_graph ∧
  CreateDisplayPipe 1 ex_graph = Some (0, ex_graph) ∧
  CreateDisplayPipe 1 ex_graph = Some (0, ex_graph).
Proof.
  split; [exact ex_graph_wf|]. split; [vm_compute; reflexivity|].
  apply (CreateDisplayPipe_again 1 ex_graph ex_graph ex_graph_wf).
  vm_compute; reflexivity.
Defined.

(** ** The immediate mode set *)

Ltac not_zero Ho :=
  exfalso;
  first [ discriminate Ho
        | injection Ho as Ho;
          first [ unfold ENODEV, ENOMEM, EINVAL, ENOENT in Ho; discriminate Ho
                | match goal with
                  | E : negb (?x =? 0) = true |- _ =>
                      rewrite Ho in E; cbn in E; discriminate E
                  end ] ].

(** X6.  [SetDisplayActiveMode] changes the graph only when it returns 0:
    then the active mode of the connector of the display is [mode], and
    the calls it issued are the allocation of a transaction, the creation
    of the mode blob, the two properties, the commit of exactly these two
    with ALLOW_MODESET and the release of the transaction.  With any other
    result the graph is as before.  The per-display state of the
    compositor is never touched. *)
Theorem SetDisplayActiveMode_spec display mode w o w' :
  SetDisplayActiveMode display mode w = (o, w') →
  displays w' = displays w ∧
  (o ≠ Return 0 → drm w' = drm w) ∧
  (o = Return 0 →
   ∃ ki connector ci crtc,
     GetConnectorForDisplay (drm w) display = Some ki ∧
     connectors_ (drm w) !! ki = Some connector ∧
     GetCrtcForDisplay (drm w) display = Some ci ∧
     crtcs_ (drm w) !! ci = Some crtc ∧
     drm w' = set_active_mode ki mode (drm w) ∧
     calls w' = calls w
                ++ modeset_calls (kernel w) (calls w) crtc connector mode).
Proof.
  intros H. run H.
  all: repeat match goal with
         | E : context [if ?b then 1 else 0] |- _ =>
             destruct b eqn:?; cbn [pset_ptr pset_items] in *;
             try discriminate E
         end.
  all: simplify_eq; cbn [displays drm calls].
  all: split; [reflexivity|split].
  all: try match goal with
         | A : (?x =? 0) = false, B : negb (?x =? 0) = false |- _ =>
             exfalso; rewrite A in B; discriminate B
         end.
  all: first
    [ by intros _
    | intros Hne; by destruct Hne
    | intros Ho; not_zero Ho
    | intros _; do 4 eexists;
      repeat (split; [first [eassumption|reflexivity]|]);
      split; reflexivity ].
Qed.

Lemma SetDisplayActiveMode_spec_witness :
  ∃ w', SetDisplayActiveMode 0 (ex_mode 2) (ex_world kernel_ok ∅)
        = (Return 0, w') ∧
        displays w' = displays (ex_world kernel_ok ∅) ∧
        ∃ ki, GetConnectorForDisplay ex_graph 0 = Some ki ∧
              drm w' = set_active_mode ki (ex_mode 2) ex_graph.
Proof.
  exists (SetDisplayActiveMode 0 (ex_mode 2) (ex_world kernel_ok ∅)).2.
  assert (E : SetDisplayActiveMode 0 (ex_mode 2) (ex_world kernel_ok ∅)
              = (Return 0,
                 (SetDisplayActiveMode 0 (ex_mode 2)
                    (ex_world kernel_ok ∅)).2))
    by (vm_compute; reflexivity).
  split; [exact E|].
  remember (SetDisplayActiveMode 0 (ex_mode 2) (ex_world kernel_ok ∅)).2
    as w' eqn:Hw'. clear Hw'.
  destruct (SetDisplayActiveMode_spec 0 (ex_mode 2) (ex_world kernel_ok ∅)
              (Return 0) w' E) as (Hd & _ & H).
  split; [exact Hd|].
  destruct (H eq_refl) as (ki & conn & ci & crtc & Hk & _ & _ & _ & Hg & _).
  exists ki. split; [exact Hk|exact Hg].
Defined.

Lemma add_failed_absurd (x : Z) : (x <? 0) = false → x < 0 → False.
Proof. intros H1 H2. apply Z.ltb_ge in H1. lia. Qed.

(** X7.  When a [drmModeAtomicAddProperty] of [SetDisplayActiveMode]
    reports a negative status, the function gives the transaction back
    and returns 1, not that status. *)
Theorem SetDisplayActiveMode_add_property_failure display mode w o w'
    pre c post :
  SetDisplayActiveMode display mode w = (o, w') →
  calls w' = calls w ++ pre ++ c :: post →
  is_add_property c = true →
  k_ret (kernel w) (calls w ++ pre ++ [c]) < 0 →
  o = Return 1 ∧
  post = [drmModeAtomicFree (k_out (kernel w)
                                   (calls w ++ [drmModeAtomicAlloc]))].
Proof.
  intros H Hcalls Hc Hneg. run H.
  all: repeat match goal with
         | E : context [if ?b then 1 else 0] |- _ =>
             destruct b eqn:?; cbn [pset_ptr pset_items] in *;
             try discriminate E
         end.
  all: simplify_eq; cbn [calls] in Hcalls.
  all: split_calls Hcalls.
  all: cbn [is_add_property] in Hc; try discriminate Hc.
  all: cbn [app] in Hneg.
  all: try match goal with
         | A : (?x <? 0) = false, B : ?x < 0 |- _ =>
             exfalso; exact (add_failed_absurd x A B)
         end.
  all: split; reflexivity.
Qed.

Lemma SetDisplayActiveMode_add_property_failure_witness :
  ∃ w', SetDisplayActiveMode 0 (ex_mode 2) add_fails_world = (Return 1, w') ∧
        calls w'
        = [ drmModeAtomicAlloc; DRM_IOCTL_MODE_CREATEPROPBLOB (ex_mode 2);
            drmModeAtomicAddProperty 1 10 110 2; drmModeAtomicFree 1 ] ∧
        k_ret (kernel add_fails_world)
          [ drmModeAtomicAlloc; DRM_IOCTL_MODE_CREATEPROPBLOB (ex_mode 2);
            drmModeAtomicAddProperty 1 10 110 2 ] = -12.
Proof.
  exists (SetDisplayActiveMode 0 (ex_mode 2) add_fails_world).2.
  assert (E : ∃ o, SetDisplayActiveMode 0 (ex_mode 2) add_fails_world
              = (o, (SetDisplayActiveMode 0 (ex_mode 2) add_fails_world).2))
    by (eexists; vm_compute; reflexivity).
  assert (Hc : calls (SetDisplayActiveMode 0 (ex_mode 2) add_fails_world).2
               = calls add_fails_world
                 ++ [ drmModeAtomicAlloc;
                      DRM_IOCTL_MODE_CREATEPROPBLOB (ex_mode 2) ]
                 ++ drmModeAtomicAddProperty 1 10 110 2
                    :: [drmModeAtomicFree 1])
    by (vm_compute; reflexivity).
  assert (Hr : k_ret (kernel add_fails_world)
                 (calls add_fails_world
                  ++ [ drmModeAtomicAlloc;
                       DRM_IOCTL_MODE_CREATEPROPBLOB (ex_mode 2) ]
                  ++ [drmModeAtomicAddProperty 1 10 110 2]) < 0)
    by (vm_compute; reflexivity).
  remember (SetDisplayActiveMode 0 (ex_mode 2) add_fails_world).2
    as w' eqn:Hw'. clear Hw'.
  destruct E as [o E].
  destruct (SetDisplayActiveMode_add_property_failure 0 (ex_mode 2)
              add_fails_world o w' _ _ _ E Hc eq_refl Hr) as (-> & _).
  split; [exact E|]. split; [exact Hc|vm_compute; reflexivity].
Defined.

(** ** The deferred mode set *)

Lemma hwc_set_display_active_mode_effect N display mode w o w' :
  hwc_set_display_active_mode N display mode w = (o, w') →
  (o ≠ Return 0 →
   drm w' = drm w ∧ display_at N w' display = display_at N w display ∧
   Forall (λ c, is_commit c = false) (drop (length (calls w)) (calls w'))) ∧
  (o = Return 0 →
   ∃ ki, GetConnectorForDisplay (drm w) display = Some ki ∧
     calls w' = calls w ++ [DRM_IOCTL_MODE_CREATEPROPBLOB mode] ∧
     display_at N w' display
     = hd_request_modeset
         (k_out (kernel w) (calls w ++ [DRM_IOCTL_MODE_CREATEPROPBLOB mode]))
         mode (display_at N w display) ∧
     drm w' = set_active_mode ki mode (drm w)).
Proof.
  intros H. run H.
  all: simplify_eq; cbn [displays drm calls].
  all: rewrite ?display_at_insert.
  all: split;
    [ first [ intros Hne; by destruct Hne
            | intros _; split; [reflexivity|]; split; [reflexivity|];
              rewrite ?drop_app_length, ?drop_all;
              repeat constructor ]
    | first [ intros Ho; not_zero Ho
            | intros _; eexists; split; [reflexivity|];
              split; [reflexivity|]; split; reflexivity ] ].
Qed.

(** X8.  [hwc_set_display_active_mode] commits nothing.  When it returns 0
    it has created one blob for [mode], the display has a modeset pending
    for that blob and [mode], with the previously activated blob kept for
    the frame path to destroy, and [mode] is the active mode of the
    connector.  With any other result neither the graph nor the state of
    the display has changed. *)
Theorem hwc_set_display_active_mode_spec N display mode w o w' :
  hwc_set_display_active_mode N display mode w = (o, w') →
  (o ≠ Return 0 →
   drm w' = drm w ∧ display_at N w' display = display_at N w display ∧
   Forall (λ c, is_commit c = false) (drop (length (calls w)) (calls w'))) ∧
  (o = Return 0 →
   ∃ ki, GetConnectorForDisplay (drm w) display = Some ki ∧
     calls w' = calls w ++ [DRM_IOCTL_MODE_CREATEPROPBLOB mode] ∧
     display_at N w' display
     = hd_request_modeset
         (k_out (kernel w) (calls w ++ [DRM_IOCTL_MODE_CREATEPROPBLOB mode]))
         mode (display_at N w display) ∧
     drm w' = set_active_mode ki mode (drm w)).
Proof. apply hwc_set_display_active_mode_effect. Qed.

Lemma hwc_set_display_active_mode_spec_witness :
  ∃ w', hwc_set_display_active_mode 3 0 (ex_mode 2) (ex_world kernel_ok ∅)
        = (Return 0, w') ∧
        ∃ ki, GetConnectorForDisplay ex_graph 0 = Some ki ∧
              calls w' = [DRM_IOCTL_MODE_CREATEPROPBLOB (ex_mode 2)] ∧
              drm w' = set_active_mode ki (ex_mode 2) ex_graph.
Proof.
  exists (hwc_set_display_active_mode 3 0 (ex_mode 2)
            (ex_world kernel_ok ∅)).2.
  assert (E : hwc_set_display_active_mode 3 0 (ex_mode 2)
                (ex_world kernel_ok ∅)
              = (Return 0,
                 (hwc_set_display_active_mode 3 0 (ex_mode 2)
                    (ex_world kernel_ok ∅)).2))
    by (vm_compute; reflexivity).
  split; [exact E|].
  remember (hwc_set_display_active_mode 3 0 (ex_mode 2)
              (ex_world kernel_ok ∅)).2 as w' eqn:Hw'. clear Hw'.
  destruct (hwc_set_display_active_mode_spec 3 0 (ex_mode 2)
              (ex_world kernel_ok ∅) (Return 0) w' E) as (_ & H).
  destruct (H eq_refl) as (ki & Hk & Hc & _ & Hg).
  exists ki. split; [exact Hk|]. split; [exact Hc|exact Hg].
Defined.

(** ** Power mode *)

Lemma GetConnectorForDisplay_valid st display ki :
  GetConnectorForDisplay st display = Some ki →
  ∃ c, connectors_ st !! ki = Some c ∧ conn_display c = display.
Proof.
  unfold GetConnectorForDisplay. intros H.
  apply find_index_Some in H as (k & c & -> & Hk & Hp & _).
  exists c. split; [done|]. by apply bool_decide_eq_true in Hp.
Qed.

Lemma SetDpmsMode_eq display mode w :
  SetDpmsMode display mode w =
  match GetConnectorForDisplay (drm w) display with
  | None => (Return (- ENODEV), w)
  | Some ki =>
      match connectors_ (drm w) !! ki with
      | None => (Undefined, w)
      | Some conn =>
          let c := drmModeConnectorSetProperty (conn_id conn)
                     (conn_dpms_property conn) mode in
          (Return (k_ret (kernel w) (calls w ++ [c])),
           set_calls (calls w ++ [c]) w)
      end
  end.
Proof.
  unfold SetDpmsMode, mbind, M_bind, bind, get_drm, or_return, return_,
    when, call, deref, mret, M_ret, pure.
  destruct (GetConnectorForDisplay (drm w) display) as [ki|]; [|done].
  destruct (connectors_ (drm w) !! ki) as [conn|]; [|done]. simpl.
  destruct (negb _) eqn:E; [done|].
  apply negb_false_iff, Z.eqb_eq in E. by rewrite E.
Qed.

(** X9.  [hwc_set_power_mode] acts on the primary display only: for any
    other display it returns 0 and does nothing.  For display 0 it sets
    the DPMS property of the connector of the display once, to OFF for
    HWC_POWER_MODE_OFF and to ON for every other mode value, and returns
    the status of that call; it is -ENODEV, with no call, when no
    connector has display 0.  The graph and the state of the displays are
    not changed. *)
Theorem hwc_set_power_mode_spec display mode w :
  (display ≠ 0 → hwc_set_power_mode display mode w = (Return 0, w)) ∧
  (display = 0 →
   match GetConnectorForDisplay (drm w) 0 with
   | None => hwc_set_power_mode display mode w = (Return (- ENODEV), w)
   | Some ki =>
       ∃ conn, connectors_ (drm w) !! ki = Some conn ∧
         let c := drmModeConnectorSetProperty (conn_id conn)
                    (conn_dpms_property conn)
                    (if mode =? HWC_POWER_MODE_OFF then DRM_MODE_DPMS_OFF
                     else DRM_MODE_DPMS_ON) in
         hwc_set_power_mode display mode w
         = (Return (k_ret (kernel w) (calls w ++ [c])),
            set_calls (calls w ++ [c]) w)
   end).
Proof.
  split.
  - intros Hd. unfold hwc_set_power_mode, HWC_DISPLAY_PRIMARY.
    apply Z.eqb_neq in Hd. by rewrite Hd.
  - intros ->. unfold hwc_set_power_mode, HWC_DISPLAY_PRIMARY.
    change (0 =? 0) with true. cbv iota.
    assert (Hv : (if mode =? HWC_POWER_MODE_OFF then DRM_MODE_DPMS_OFF
                  else if (mode =? HWC_POWER_MODE_DOZE)
                          || (mode =? HWC_POWER_MODE_DOZE_SUSPEND)
                          || (mode =? HWC_POWER_MODE_NORMAL)
                  then DRM_MODE_DPMS_ON else 0)
                 = (if mode =? HWC_POWER_MODE_OFF then DRM_MODE_DPMS_OFF
                    else DRM_MODE_DPMS_ON)).
    { destruct (mode =? HWC_POWER_MODE_OFF); [done|].
      by destruct (_ || _). }
    rewrite Hv. clear Hv.
    unfold mbind, M_bind, bind, invoke, return_. rewrite SetDpmsMode_eq.
    destruct (GetConnectorForDisplay (drm w) 0) as [ki|] eqn:Hk; [|done].
    destruct (GetConnectorForDisplay_valid _ _ _ Hk) as (conn & Hc & _).
    exists conn. split; [done|]. by rewrite Hc.
Qed.

(** ** The frame-buffer cache *)

Lemma cached_released (bo : list (option hwc_drm_bo)) :
  cached ((λ _, None) <$> bo) = [].
Proof. by induction bo. Qed.

Lemma display_at_insert_ne N k c m d id id' hd :
  id ≠ id' →
  display_at N {| kernel := k; calls := c; displays := <[id := hd]> m;
                  drm := d |} id'
  = display_at N {| kernel := k; calls := c; displays := m; drm := d |} id'.
Proof. intros Hne. unfold display_at. simpl. by rewrite lookup_insert_ne. Qed.

(** X10.  [hwc_release_display] hands every buffer in the cache of the
    display to the importer once, in slot order, and leaves every slot
    empty; the caches of the other displays and the graph are as before.
    Released again, the display has nothing left to release. *)
Theorem hwc_release_display_empties N display w :
  ∃ w1,
    hwc_release_display N display w = (Return (), w1) ∧
    calls w1 = calls w
               ++ (ReleaseBuffer <$> cached (hd_bo (display_at N w display))) ∧
    hd_bo (display_at N w1 display)
    = replicate (length (hd_bo (display_at N w display))) None ∧
    (∀ other, other ≠ display →
       display_at N w1 other = display_at N w other) ∧
    drm w1 = drm w ∧
    ∃ w2, hwc_release_display N display w1 = (Return (), w2) ∧
          calls w2 = calls w1.
Proof.
  destruct (hwc_release_display_spec N display w) as (w1 & H1 & Hc1 & Hb1).
  exists w1. split; [done|]. split; [done|]. split.
  { rewrite Hb1. generalize (hd_bo (display_at N w display)).
    intros l. induction l as [|x l IH]; [done|].
    rewrite fmap_cons. cbn [length replicate]. by f_equal. }
  split.
  { intros other Hne. revert H1.
    unfold hwc_release_display, mbind, M_bind, bind, get_hd.
    rewrite release_all_spec. unfold put_hd, return_. intros H1.
    simplify_eq. unfold set_calls, set_displays. simpl.
    unfold display_at. simpl. by rewrite !lookup_insert_ne. }
  split.
  { revert H1. unfold hwc_release_display, mbind, M_bind, bind, get_hd.
    rewrite release_all_spec. unfold put_hd, return_. intros H1.
    by simplify_eq. }
  destruct (hwc_release_display_spec N display w1) as (w2 & H2 & Hc2 & _).
  exists w2. split; [done|]. rewrite Hc2, Hb1, cached_released.
  by rewrite app_nil_r.
Qed.

Ltac hit_leaf :=
  cbn [calls]; rewrite ?display_at_insert; cbn [hd_bo hd_modeset_done];
  split; [reflexivity|];
  eexists; split; [first [reflexivity | symmetry; apply app_nil_r]|];
  split;
  [ repeat (constructor; [reflexivity|]); constructor
  | intros p items flags Hin;
    repeat match type of Hin with
           | _ ∈ [] => by apply elem_of_nil in Hin
           | _ ∈ _ :: _ => apply elem_of_cons in Hin as [Hin|Hin]
           end;
    try discriminate Hin;
    injection Hin as -> -> ->; do 2 eexists; reflexivity ].

Lemma Render_cache_hit N id frame handle bo w :
  find_bo (hd_bo (display_at N w id)) handle = Some bo →
  cache_hit_spec N id bo (Render N id frame handle) w.
Proof.
  intros Hhit o w' H. run H.
  all: simplify_eq.
  all: hit_leaf.
Qed.

Lemma render_fb_cache_hit N display fb_layer bo w :
  find_bo (hd_bo (display_at N w display)) (layer_handle fb_layer) = Some bo →
  cache_hit_spec N display bo (render_fb N display fb_layer) w.
Proof.
  intros Hhit o w' H. run H.
  all: simplify_eq.
  all: hit_leaf.
Qed.

(** X11.  A presentation of a buffer that is in the cache of the display
    imports nothing: [ImportBuffer] is not called, the cache is as it was,
    and the framebuffer of the commit, its last property, is the cached
    one. *)
Theorem frame_cache_hit N display handle bo w :
  find_bo (hd_bo (display_at N w display)) handle = Some bo →
  (∀ frame,
     cache_hit_spec N display bo (Render N display frame handle) w) ∧
  (∀ fb_layer, layer_handle fb_layer = handle →
     cache_hit_spec N display bo (render_fb N display fb_layer) w).
Proof.
  intros Hhit. split.
  - intros frame. by apply Render_cache_hit.
  - intros fb_layer <-. by apply render_fb_cache_hit.
Qed.

Lemma frame_cache_hit_witness :
  find_bo (hd_bo (display_at 3 full_cache_world 0)) 12
  = Some {| bo_fb_id := 2; bo_priv := 12 |} ∧
  (∀ frame,
     cache_hit_spec 3 0 {| bo_fb_id := 2; bo_priv := 12 |}
       (Render 3 0 frame 12) full_cache_world) ∧
  (∀ fb_layer, layer_handle fb_layer = 12 →
     cache_hit_spec 3 0 {| bo_fb_id := 2; bo_priv := 12 |}
       (render_fb 3 0 fb_layer) full_cache_world).
Proof.
  assert (H : find_bo (hd_bo (display_at 3 full_cache_world 0)) 12
              = Some {| bo_fb_id := 2; bo_priv := 12 |})
    by (vm_compute; reflexivity).
  split; [exact H|].
  exact (frame_cache_hit 3 0 12 {| bo_fb_id := 2; bo_priv := 12 |}
           full_cache_world H).
Defined.

Lemma find_bo_insert bo b :
  find_bo bo (bo_priv b) = None → ¬ Forall is_Some bo →
  find_bo (insert_bo bo b) (bo_priv b) = Some b.
Proof.
  induction bo as [|[x|] bo IH]; simpl.
  - intros _ H. destruct H. constructor.
  - destruct (bo_priv x =? bo_priv b) eqn:E; [done|]. intros Hm Hf.
    apply IH; [done|]. intros Hall. apply Hf.
    constructor; [by eexists|done].
  - intros _ _. by rewrite Z.eqb_refl.
Qed.

Lemma find_bo_insert_kept bo b h x :
  find_bo bo (bo_priv b) = None → find_bo bo h = Some x →
  find_bo (insert_bo bo b) h = Some x.
Proof.
  induction bo as [|[y|] bo IH]; simpl; [done| |].
  - destruct (bo_priv y =? bo_priv b) eqn:E; [done|]. intros Hm.
    destruct (bo_priv y =? h) eqn:Eh; [done|]. by apply IH.
  - intros Hm Hh. destruct (bo_priv b =? h) eqn:E; [|done].
    apply Z.eqb_eq in E. rewrite E in Hm. congruence.
Qed.

Ltac insert_leaf :=
  cbv zeta; cbn [calls]; rewrite ?display_at_insert;
  cbn [hd_bo hd_modeset_done];
  match goal with
  | Hmiss : find_bo ?l ?h = None, Hfree : ¬ Forall is_Some ?l |- _ =>
      split; [reflexivity|]; split;
      [ exact (find_bo_insert l {| bo_fb_id := _; bo_priv := h |}
                 Hmiss Hfree)
      | intros h' b Hb;
        exact (find_bo_insert_kept l {| bo_fb_id := _; bo_priv := h |} h' b
                 Hmiss Hb) ]
  end.

Ltac import_failed Hok :=
  match goal with
  | E : negb (?x =? 0) = true |- _ =>
      exfalso; rewrite Hok in E; discriminate E
  end.

Lemma Render_cache_insert N id frame handle w :
  find_bo (hd_bo (display_at N w id)) handle = None →
  ¬ Forall is_Some (hd_bo (display_at N w id)) →
  k_ret (kernel w) (calls w ++ [ImportBuffer handle]) = 0 →
  cache_insert_spec N id handle (Render N id frame handle) w.
Proof.
  intros Hmiss Hfree Hok o w' H. run H.
  all: simplify_eq.
  all: first [import_failed Hok | insert_leaf].
Qed.

Lemma render_fb_cache_insert N display fb_layer w :
  layer_handle fb_layer ≠ 0 →
  find_bo (hd_bo (display_at N w display)) (layer_handle fb_layer) = None →
  ¬ Forall is_Some (hd_bo (display_at N w display)) →
  k_ret (kernel w) (calls w ++ [ImportBuffer (layer_handle fb_layer)]) = 0 →
  cache_insert_spec N display (layer_handle fb_layer)
    (render_fb N display fb_layer) w.
Proof.
  intros Hnull Hmiss Hfree Hok o w' H. apply Z.eqb_neq in Hnull. run H.
  all: simplify_eq.
  all: first [import_failed Hok | insert_leaf].
Qed.

(** X12.  A presentation of a buffer that is not in the cache, while a
    slot is free and the import succeeds, puts the imported buffer into
    the first free slot, whatever the presentation returns afterwards;
    the buffers that were cached stay cached.  The next presentation of
    the handle by [Render] finds it and imports nothing. *)
Theorem frame_cache_miss_inserts N display handle w :
  find_bo (hd_bo (display_at N w display)) handle = None →
  ¬ Forall is_Some (hd_bo (display_at N w display)) →
  k_ret (kernel w) (calls w ++ [ImportBuffer handle]) = 0 →
  (∀ frame,
     cache_insert_spec N display handle (Render N display frame handle) w) ∧
  (∀ fb_layer, layer_handle fb_layer = handle → handle ≠ 0 →
     cache_insert_spec N display handle (render_fb N display fb_layer) w) ∧
  (∀ frame frame',
     cache_hit_spec N display
       {| bo_fb_id := k_out (kernel w) (calls w ++ [ImportBuffer handle]);
          bo_priv := handle |}
       (Render N display frame' handle)
       (Render N display frame handle w).2).
Proof.
  intros Hmiss Hfree Hok. split; [|split].
  - intros frame. by apply Render_cache_insert.
  - intros fb_layer <- Hnull. by apply render_fb_cache_insert.
  - intros frame frame'.
    destruct (Render N display frame handle w) as [o w1] eqn:H1.
    apply Render_cache_hit.
    by destruct (Render_cache_insert N display frame handle w
                   Hmiss Hfree Hok o w1 H1) as (_ & Hf & _).
Qed.

Lemma frame_cache_miss_inserts_witness :
  find_bo (hd_bo (display_at 3 (ex_world kernel_ok ∅) 0)) 77 = None ∧
  hd_bo (display_at 3 (ex_world kernel_ok ∅) 0) = [None; None; None] ∧
  (∀ frame,
     cache_insert_spec 3 0 77 (Render 3 0 frame 77) (ex_world kernel_ok ∅)).
Proof.
  assert (H1 : find_bo (hd_bo (display_at 3 (ex_world kernel_ok ∅) 0)) 77
               = None) by (vm_compute; reflexivity).
  assert (H2 : ¬ Forall is_Some
                   (hd_bo (display_at 3 (ex_world kernel_ok ∅) 0))).
  { intros H. vm_compute in H. inversion H as [|? ? [x Hx] _].
    discriminate Hx. }
  assert (H3 : k_ret (kernel (ex_world kernel_ok ∅))
                 (calls (ex_world kernel_ok ∅) ++ [ImportBuffer 77]) = 0)
    by (vm_compute; reflexivity).
  split; [exact H1|]. split; [vm_compute; reflexivity|].
  exact (proj1 (frame_cache_miss_inserts 3 0 77 (ex_world kernel_ok ∅)
                  H1 H2 H3)).
Defined.

(** ** The pending modeset is applied by the next frame *)

Lemma find_index_ext {A} (p q : A → bool) (l l' : list A) : ∀ i,
  Forall2 (λ x y, p x = q y) l l' → find_index p l i = find_index q l' i.
Proof.
  intros i H. revert i. induction H as [|x y l l' Hxy _ IH]; intros i; simpl;
    [done|]. rewrite Hxy. destruct (q y); [done|]. apply IH.
Qed.

Lemma GetConnectorForDisplay_set_active_mode ki m st display :
  GetConnectorForDisplay (set_active_mode ki m st) display
  = GetConnectorForDisplay st display.
Proof.
  unfold GetConnectorForDisplay, set_active_mode. simpl.
  apply find_index_ext. apply Forall2_same_length_lookup.
  split; [by rewrite length_alter|].
  intros i x y Hx Hy. rewrite list_lookup_alter in Hx.
  case_decide; subst.
  - rewrite Hy in Hx. by simplify_eq/=.
  - by simplify_eq.
Qed.

Ltac same_connector :=
  match goal with
  | E : GetConnectorForDisplay
          {| crtcs_ := _; encoders_ := _;
             connectors_ := alter (DrmConnector_set_active_mode ?m) ?k
                                  (connectors_ ?st);
             planes_ := _ |} ?d = Some ?k',
    E0 : GetConnectorForDisplay ?st ?d = Some ?k |- _ =>
      change (GetConnectorForDisplay (set_active_mode k m st) d = Some k')
        in E;
      rewrite GetConnectorForDisplay_set_active_mode, E0 in E;
      injection E as <-
  end.

Ltac applied_leaf :=
  same_connector;
  cbv zeta; cbn [calls drm connectors_]; rewrite ?display_at_insert;
  cbn [hd_bo hd_active_mode hd_needs_modeset hd_blob_id hd_old_blob_id
       hd_modeset_done];
  repeat (split; [reflexivity|]);
  match goal with
  | Hc : alter _ ?ki _ !! ?ki = Some ?conn |- _ =>
      exists ki, conn;
      match goal with
      | E : (hd_old_blob_id _ =? 0) = true
        |- context [@eq (list Call) (_ ++ ?l)] =>
          rewrite E; exists (List.removelast l)
      | E : (hd_old_blob_id _ =? 0) = false
        |- context [@eq (list Call) (_ ++ ?l)] =>
          rewrite E; exists (List.removelast (List.removelast l))
      end;
      cbn [List.removelast]; do 2 eexists;
      split; [reflexivity|]; split; [reflexivity|]; split; [exact Hc|];
      split; [reflexivity|]; split;
      [ repeat first [apply list_elem_of_here | apply list_elem_of_further]
      | repeat (constructor; [split; reflexivity|]); constructor ]
  end.

Lemma Render_modeset_applied N id frame handle w1 :
  hd_needs_modeset (display_at N w1 id) = true →
  modeset_applied_spec N id (Render N id frame handle) w1.
Proof.
  intros Hneeds w2 H. run H.
  all: try (exfalso; not_success H).
  all: simplify_eq.
  all: applied_leaf.
Qed.

Lemma render_fb_modeset_applied N display fb_layer w1 :
  hd_needs_modeset (display_at N w1 display) = true →
  modeset_applied_spec N display (render_fb N display fb_layer) w1.
Proof.
  intros Hneeds w2 H. run H.
  all: try (exfalso; not_success H).
  all: simplify_eq.
  all: applied_leaf.
Qed.

(** X13.  After [hwc_set_display_active_mode] returned 0, the display has
    the new blob and [mode] pending, and the next frame that [Render] or
    [render_fb] presents with result 0 applies them: the commit is
    followed by the destruction of the previously activated blob, if
    there was one, and by DPMS ON for the connector; the new blob is then
    the activated one, no modeset is pending, and [mode] is the active
    mode of the connector. *)
Theorem deferred_modeset_round_trip N display mode w w1 :
  hwc_set_display_active_mode N display mode w = (Return 0, w1) →
  hd_blob_id (display_at N w1 display)
  = k_out (kernel w) (calls w ++ [DRM_IOCTL_MODE_CREATEPROPBLOB mode]) ∧
  hd_active_mode (display_at N w1 display) = mode ∧
  hd_old_blob_id (display_at N w1 display)
  = hd_old_blob_id (display_at N w display) ∧
  (∀ frame handle,
     modeset_applied_spec N display (Render N display frame handle) w1) ∧
  (∀ fb_layer,
     modeset_applied_spec N display (render_fb N display fb_layer) w1).
Proof.
  intros H.
  destruct (hwc_set_display_active_mode_effect N display mode w _ w1 H)
    as [_ Hok].
  destruct (Hok eq_refl) as (ki & Hk & Hcalls & Hd & Hdrm).
  assert (Hneeds : hd_needs_modeset (display_at N w1 display) = true)
    by by rewrite Hd.
  rewrite Hd. split; [done|]. split; [done|]. split; [done|]. split.
  - intros frame handle. by apply Render_modeset_applied.
  - intros fb_layer. by apply render_fb_modeset_applied.
Qed.

Lemma deferred_modeset_round_trip_witness :
  ∃ w1 w2,
    hwc_set_display_active_mode 3 0 (ex_mode 2) (ex_world kernel_ok ∅)
    = (Return 0, w1) ∧
    Render 3 0 ex_frame 77 w1 = (Return 0, w2) ∧
    hd_active_mode (display_at 3 w1 0) = ex_mode 2 ∧
    hd_needs_modeset (display_at 3 w2 0) = false ∧
    hd_old_blob_id (display_at 3 w2 0) = hd_blob_id (display_at 3 w1 0) ∧
    hd_active_mode (display_at 3 w2 0) = ex_mode 2.
Proof.
  exists (hwc_set_display_active_mode 3 0 (ex_mode 2)
            (ex_world kernel_ok ∅)).2.
  exists (Render 3 0 ex_frame 77
            (hwc_set_display_active_mode 3 0 (ex_mode 2)
               (ex_world kernel_ok ∅)).2).2.
  assert (E1 : hwc_set_display_active_mode 3 0 (ex_mode 2)
                 (ex_world kernel_ok ∅)
               = (Return 0,
                  (hwc_set_display_active_mode 3 0 (ex_mode 2)
                     (ex_world kernel_ok ∅)).2))
    by (vm_compute; reflexivity).
  assert (E2 : Render 3 0 ex_frame 77
                 (hwc_set_display_active_mode 3 0 (ex_mode 2)
                    (ex_world kernel_ok ∅)).2
               = (Return 0,
                  (Render 3 0 ex_frame 77
                     (hwc_set_display_active_mode 3 0 (ex_mode 2)
                        (ex_world kernel_ok ∅)).2).2))
    by (vm_compute; reflexivity).
  remember (Render 3 0 ex_frame 77
              (hwc_set_display_active_mode 3 0 (ex_mode 2)
                 (ex_world kernel_ok ∅)).2).2 as w2 eqn:Hw2. clear Hw2.
  remember (hwc_set_display_active_mode 3 0 (ex_mode 2)
              (ex_world kernel_ok ∅)).2 as w1 eqn:Hw1. clear Hw1.
  split; [exact E1|]. split; [exact E2|].
  destruct (deferred_modeset_round_trip 3 0 (ex_mode 2)
              (ex_world kernel_ok ∅) w1 E1) as (_ & Hm & _ & HR & _).
  destruct (HR ex_frame 77 w2 E2) as (H1 & _ & H3 & H4 & _).
  split; [exact Hm|]. split; [exact H1|]. split; [exact H3|].
  rewrite <- Hm. exact H4.
Defined.

(** ** [hwc_set] *)

Lemma GetCrtcForDisplay_valid st display ci :
  GetCrtcForDisplay st display = Some ci → is_Some (crtcs_ st !! ci).
Proof.
  unfold GetCrtcForDisplay. intros H.
  apply find_index_Some in H as (k & c & -> & Hk & _). by eexists.
Qed.

Lemma GetPrimaryPlaneForCrtc_valid st crtc pi :
  GetPrimaryPlaneForCrtc st crtc = Some pi → is_Some (planes_ st !! pi).
Proof.
  unfold GetPrimaryPlaneForCrtc. intros H.
  pose proof (primary_plane_loop_spec crtc (planes_ st) 0 None) as Hs.
  rewrite H in Hs. destruct Hs as [(p & _ & Hp & _)|[? _]]; [|done].
  rewrite Nat.sub_0_r in Hp. by eexists.
Qed.

Ltac dangling :=
  match goal with
  | E : GetCrtcForDisplay ?st ?d = Some ?n, E' : crtcs_ ?st !! ?n = None
    |- _ =>
      destruct (GetCrtcForDisplay_valid _ _ _ E) as [? ?]; congruence
  | E : GetPrimaryPlaneForCrtc ?st ?c = Some ?n, E' : planes_ ?st !! ?n = None
    |- _ =>
      destruct (GetPrimaryPlaneForCrtc_valid _ _ _ E) as [? ?]; congruence
  | E : GetConnectorForDisplay ?st ?d = Some ?n,
    E' : connectors_ ?st !! ?n = None |- _ =>
      destruct (GetConnectorForDisplay_valid _ _ _ E) as (? & ? & _);
      congruence
  | E : alter _ ?k ?l !! ?k = None, E' : ?l !! ?k = Some _ |- _ =>
      rewrite list_lookup_alter_eq, E' in E; discriminate E
  end.

(** The frame path follows no dangling pointer. *)
Lemma render_fb_defined N display fb_layer w :
  (render_fb N display fb_layer w).1 ≠ Undefined.
Proof.
  destruct (render_fb N display fb_layer w) as [o w'] eqn:H. simpl.
  run H.
  all: simplify_eq; try discriminate.
  all: try (exfalso; dangling).
  all: try (exfalso; same_connector; dangling).
Qed.

Lemma hwc_set_loop_cons N i dc rest w :
  hwc_set_loop N i (dc :: rest) w =
  match dc with
  | None => hwc_set_loop N (S i) rest w
  | Some hwLayers =>
      if Nat.eqb i HWC_DISPLAY_VIRTUAL then hwc_set_loop N (S i) rest w
      else match last hwLayers with
           | Some fb_layer =>
               hwc_set_loop N (S i) rest
                 (render_fb N (Z.of_nat i) fb_layer w).2
           | None => (Undefined, w)
           end
  end.
Proof.
  cbn [hwc_set_loop]. destruct dc as [hwLayers|]; [|done].
  destruct (Nat.eqb i HWC_DISPLAY_VIRTUAL); [done|].
  destruct (last hwLayers) as [fb_layer|]; [|done].
  unfold mbind, M_bind, bind, mret, M_ret, pure, invoke.
  pose proof (render_fb_defined N (Z.of_nat i) fb_layer w) as Hd.
  destruct (render_fb N (Z.of_nat i) fb_layer w) as [[r|r|] w1]; done.
Qed.

Lemma set_frames_elem dcs : ∀ i d fb_layer,
  (d, fb_layer) ∈ set_frames i dcs ↔
  ∃ k hwLayers, d = (i + k)%nat ∧ d ≠ HWC_DISPLAY_VIRTUAL ∧
    dcs !! k = Some (Some hwLayers) ∧ last hwLayers = Some fb_layer.
Proof.
  induction dcs as [|dc rest IH]; intros i d fb_layer; simpl.
  - split; [by intros ?%elem_of_nil|]. by intros (k & l & _ & _ & ? & _).
  - rewrite elem_of_app, IH. split.
    + intros [H|(k & l & -> & Hd & Hk & Hl)].
      * destruct dc as [hwLayers|]; simpl in H; [|by apply elem_of_nil in H].
        destruct (last hwLayers) as [x|] eqn:Hl;
          [|by apply elem_of_nil in H].
        destruct (Nat.eqb i HWC_DISPLAY_VIRTUAL) eqn:E;
          [by apply elem_of_nil in H|].
        apply list_elem_of_singleton in H. simplify_eq.
        apply Nat.eqb_neq in E. exists 0%nat, hwLayers.
        split; [lia|]. done.
      * exists (S k), l. split; [lia|]. split; [lia|]. done.
    + intros ([|k] & l & -> & Hd & Hk & Hl); simpl in Hk.
      * left. simplify_eq. simpl. rewrite Hl.
        rewrite Nat.add_0_r in Hd. apply Nat.eqb_neq in Hd. rewrite Hd.
        rewrite Nat.add_0_r. by apply list_elem_of_singleton.
      * right. exists k, l. split; [lia|]. split; [lia|]. done.
Qed.

Lemma set_frames_from dcs : ∀ i,
  Forall (λ x, (i ≤ x.1)%nat) (set_frames i dcs).
Proof.
  induction dcs as [|dc rest IH]; intros i; simpl; [constructor|].
  apply Forall_app. split.
  - destruct (dc ≫= last) as [fb_layer|]; [|constructor].
    destruct (Nat.eqb i HWC_DISPLAY_VIRTUAL); constructor; [simpl; lia|].
    constructor.
  - eapply Forall_impl; [apply (IH (S i))|]. simpl. intros x Hx. lia.
Qed.

Lemma set_frames_sorted dcs : ∀ i j k x y,
  (j < k)%nat → set_frames i dcs !! j = Some x →
  set_frames i dcs !! k = Some y → (x.1 < y.1)%nat.
Proof.
  induction dcs as [|dc rest IH]; intros i j k x y Hjk; simpl; [done|].
  destruct (dc ≫= last) as [fb_layer|]; [|apply IH; done].
  destruct (Nat.eqb i HWC_DISPLAY_VIRTUAL); [apply IH; done|]. simpl.
  destruct k as [|k]; [lia|]. simpl. destruct j as [|j]; simpl.
  - intros Hx Hy. simplify_eq. simpl.
    pose proof (set_frames_from rest (S i)) as Hf.
    rewrite Forall_lookup in Hf. specialize (Hf _ _ Hy). simpl in Hf. lia.
  - apply IH. lia.
Qed.

Lemma hwc_set_loop_frames N dcs : ∀ i w,
  (∀ k, (i + k)%nat ≠ HWC_DISPLAY_VIRTUAL → dcs !! k ≠ Some (Some [])) →
  hwc_set_loop N i dcs w
  = (Next (),
     foldl (λ w x, (render_fb N (Z.of_nat x.1) x.2 w).2) w
           (set_frames i dcs)).
Proof.
  induction dcs as [|dc rest IH]; intros i w Hdef; [done|].
  assert (Hrest : ∀ k, (S i + k)%nat ≠ HWC_DISPLAY_VIRTUAL →
                       rest !! k ≠ Some (Some [])).
  { intros k Hk. apply (Hdef (S k)). lia. }
  rewrite hwc_set_loop_cons. cbn [set_frames].
  destruct dc as [hwLayers|]; simpl; [|by apply IH].
  destruct (Nat.eqb i HWC_DISPLAY_VIRTUAL) eqn:E.
  - rewrite IH by done. by destruct (last hwLayers).
  - destruct (last hwLayers) as [fb_layer|] eqn:Hl.
    + rewrite IH by done. done.
    + apply last_None in Hl. subst. apply Nat.eqb_neq in E.
      exfalso. apply (Hdef 0%nat); [by rewrite Nat.add_0_r|done].
Qed.

Lemma hwc_set_loop_undefined N dcs : ∀ i w k,
  (i + k)%nat ≠ HWC_DISPLAY_VIRTUAL → dcs !! k = Some (Some []) →
  (hwc_set_loop N i dcs w).1 = Undefined.
Proof.
  induction dcs as [|dc rest IH]; intros i w k Hk Hl; [done|].
  rewrite hwc_set_loop_cons. destruct k as [|k]; simpl in Hl.
  - simplify_eq. rewrite Nat.add_0_r in Hk. apply Nat.eqb_neq in Hk.
    by rewrite Hk.
  - assert (Hk' : (S i + k)%nat ≠ HWC_DISPLAY_VIRTUAL) by lia.
    destruct dc as [hwLayers|]; [|by apply (IH _ _ k)].
    destruct (Nat.eqb i HWC_DISPLAY_VIRTUAL); [by apply (IH _ _ k)|].
    destruct (last hwLayers); [by apply (IH _ _ k)|done].
Qed.

(** X14.  [hwc_set] presents the last layer of each display that has
    contents, the virtual display (index 2) left out, one display after
    the other in the order of their indices, each presentation starting
    from what the one before left, and returns 0 whatever the
    presentations returned.  Its behaviour is undefined exactly when a
    display other than the virtual one has contents without a layer. *)
Theorem hwc_set_spec N sf_display_contents w :
  (set_defined sf_display_contents →
   hwc_set N sf_display_contents w
   = (Return 0,
      foldl (λ w x, (render_fb N (Z.of_nat x.1) x.2 w).2) w
            (set_frames 0 sf_display_contents))) ∧
  (∀ d, d ≠ HWC_DISPLAY_VIRTUAL →
     sf_display_contents !! d = Some (Some []) →
     (hwc_set N sf_display_contents w).1 = Undefined) ∧
  (∀ d fb_layer,
     (d, fb_layer) ∈ set_frames 0 sf_display_contents ↔
     d ≠ HWC_DISPLAY_VIRTUAL ∧
     ∃ hwLayers, sf_display_contents !! d = Some (Some hwLayers) ∧
                 last hwLayers = Some fb_layer) ∧
  (∀ j k x y, (j < k)%nat →
     set_frames 0 sf_display_contents !! j = Some x →
     set_frames 0 sf_display_contents !! k = Some y → (x.1 < y.1)%nat).
Proof.
  split; [|split; [|split]].
  - intros Hdef. unfold hwc_set, mbind, M_bind, bind.
    rewrite hwc_set_loop_frames; [done|]. intros k Hk. by apply Hdef.
  - intros k Hk Hl. unfold hwc_set, mbind, M_bind, bind.
    pose proof (hwc_set_loop_undefined N sf_display_contents 0 w k Hk Hl)
      as Hu.
    destruct (hwc_set_loop N 0 sf_display_contents w) as [[a|r|] w1];
      simpl in *; done.
  - intros d fb_layer. rewrite set_frames_elem. split.
    + intros (k & l & -> & Hd & Hk & Hl). split; [done|]. by exists l.
    + intros (Hd & l & Hk & Hl). exists d, l. done.
  - apply set_frames_sorted.
Qed.

(** ** Display configurations *)

Ltac by_path :=
  repeat match goal with
         | E : (_ <=? _) = true |- _ => apply Z.leb_le in E
         | E : (_ <=? _) = false |- _ => apply Z.leb_gt in E
         | E : (_ <? _) = true |- _ => apply Z.ltb_lt in E
         | E : (_ <? _) = false |- _ => apply Z.ltb_ge in E
         | E : negb (bool_decide _) = true |- _ =>
             apply negb_true_iff, bool_decide_eq_false in E
         | E : negb (bool_decide _) = false |- _ =>
             apply negb_false_iff, bool_decide_eq_true in E
         end.

(** X15.  [hwc_set_active_config] rejects an index at or past the end of
    the configuration list with -EINVAL and a display whose connector is
    not connected with -ENODEV, in both cases without a call.  Whenever
    it does not return 0, the graph and the state of the display are as
    before.  It never issues a call other than the creation of one mode
    blob. *)
Theorem hwc_set_active_config_errors N display index config_ids w o w' :
  hwc_set_active_config N display index config_ids w = (o, w') →
  (Z.of_nat (length config_ids) ≤ index →
   o = Return (- EINVAL) ∧ calls w' = calls w) ∧
  (∀ ki conn, index < Z.of_nat (length config_ids) →
     GetConnectorForDisplay (drm w) display = Some ki →
     connectors_ (drm w) !! ki = Some conn →
     conn_state conn ≠ DRM_MODE_CONNECTED →
     o = Return (- ENODEV) ∧ calls w' = calls w) ∧
  (o ≠ Return 0 →
   drm w' = drm w ∧ display_at N w' display = display_at N w display) ∧
  (calls w' = calls w
   ∨ ∃ mode, calls w' = calls w ++ [DRM_IOCTL_MODE_CREATEPROPBLOB mode]).
Proof.
  intros H. unfold hwc_set_active_config in H. run H.
  all: simplify_eq; by_path.
  all: cbn [calls drm]; rewrite ?display_at_insert.
  all: split; [intros Hi; first [lia | by split]|].
  all: split;
    [ intros ki conn Hi Hk Hc Hs; simplify_eq;
      first [ lia | by split | done | by destruct Hs ] |].
  all: split;
    [ first [ by intros _ | intros Hne; by destruct Hne ] |].
  all: first [ by left | right; by eexists ].
Qed.

Lemma hwc_set_active_config_errors_witness :
  ∃ w', hwc_set_active_config 3 0 1 [1] (ex_world kernel_ok ∅)
        = (Return (- EINVAL), w') ∧ calls w' = [].
Proof.
  exists (hwc_set_active_config 3 0 1 [1] (ex_world kernel_ok ∅)).2.
  assert (E : ∃ o, hwc_set_active_config 3 0 1 [1] (ex_world kernel_ok ∅)
              = (o, (hwc_set_active_config 3 0 1 [1]
                       (ex_world kernel_ok ∅)).2))
    by (eexists; vm_compute; reflexivity).
  remember (hwc_set_active_config 3 0 1 [1] (ex_world kernel_ok ∅)).2
    as w' eqn:Hw'. clear Hw'.
  destruct E as [o E].
  destruct (hwc_set_active_config_errors 3 0 1 [1] (ex_world kernel_ok ∅)
              o w' E) as (H & _).
  destruct H as [-> Hc]; [simpl; lia|].
  split; [exact E|exact Hc].
Defined.

Lemma find_index_eqb (config : Z) (l : list Z) k :
  l !! k = Some config →
  ∃ j, find_index (λ id, id =? config) l 0 = Some j ∧ (j ≤ k)%nat ∧
       l !! j = Some config ∧ (NoDup l → j = k).
Proof.
  intros Hk.
  destruct (find_index (λ id, id =? config) l 0) as [j|] eqn:E.
  - apply find_index_Some in E as (j' & x & -> & Hj & Hx & Hfirst).
    simpl. apply Z.eqb_eq in Hx. subst x. exists j'. split; [done|].
    assert (Hle : (j' ≤ k)%nat).
    { destruct (decide (j' ≤ k)%nat) as [?|Hgt]; [done|].
      assert (Hlt : (k < j')%nat) by lia.
      pose proof (Hfirst _ _ Hlt Hk) as Hf. by rewrite Z.eqb_refl in Hf. }
    split; [done|]. split; [done|].
    intros Hnd. by apply (NoDup_lookup l j' k config).
  - rewrite find_index_None in E. specialize (E _ _ Hk).
    by rewrite Z.eqb_refl in E.
Qed.

Lemma find_mode_id (config : Z) (modes : list DrmMode) :
  mode_id (default DrmMode_default
             (List.find (λ m, mode_id m =? config) modes)) = config →
  (∃ m, List.find (λ m, mode_id m =? config) modes = Some m ∧ m ∈ modes ∧
        mode_id m = config)
  ∨ (config = 0 ∧ List.find (λ m, mode_id m =? config) modes = None).
Proof.
  destruct (List.find _ modes) as [m|] eqn:E; simpl.
  - intros _. left. exists m. apply List.find_some in E as [Hin Hm].
    split; [done|]. split; [by apply list_elem_of_In|by apply Z.eqb_eq].
  - intros <-. by right.
Qed.

(** X16.  After [hwc_set_active_config] returned 0 for [index], the index
    is within the configuration list and the mode pending for the display
    has the configuration id at that index: it is the first mode of the
    connector with this id, or, when the id is 0 and no mode of the
    connector has it, the empty mode, which is no mode of the connector.
    [hwc_get_active_config] then returns the first index of the list that
    holds this id: [index] itself when the ids of the list are distinct. *)
Theorem active_config_round_trip N display index config_ids w w2 :
  hwc_set_active_config N display index config_ids w = (Return 0, w2) →
  ∃ config j ki conn,
    0 ≤ index ∧ config_ids !! Z.to_nat index = Some config ∧
    GetConnectorForDisplay (drm w) display = Some ki ∧
    connectors_ (drm w) !! ki = Some conn ∧
    hd_needs_modeset (display_at N w2 display) = true ∧
    mode_id (hd_active_mode (display_at N w2 display)) = config ∧
    ((List.find (λ m, mode_id m =? config) (conn_modes conn)
      = Some (hd_active_mode (display_at N w2 display)) ∧
      hd_active_mode (display_at N w2 display) ∈ conn_modes conn)
     ∨ (config = 0 ∧
        Forall (λ m, mode_id m ≠ 0) (conn_modes conn) ∧
        hd_active_mode (display_at N w2 display) = DrmMode_default)) ∧
    (config ≠ 0 →
     hd_active_mode (display_at N w2 display) ∈ conn_modes conn) ∧
    (hwc_get_active_config N display config_ids w2).1
    = Return (Z.of_nat j) ∧
    config_ids !! j = Some config ∧ (j ≤ Z.to_nat index)%nat ∧
    (NoDup config_ids → Z.of_nat j = index).
Proof.
  intros H. unfold hwc_set_active_config in H. run H.
  all: try (exfalso; not_success H).
  simplify_eq; by_path.
  match goal with
  | Hk : GetConnectorForDisplay _ _ = Some ?k,
    Hc : connectors_ _ !! ?k = Some ?c,
    Hi : config_ids !! _ = Some ?z,
    Hm : negb (mode_id ?m =? ?z) = false |- _ =>
      set (mode := m) in *;
      rename Hk into Hki, Hc into Hconn, Hi into Hcfg, Hm into Hmode;
      rename k into ki, c into conn, z into config
  end.
  apply negb_false_iff, Z.eqb_eq in Hmode.
  destruct (find_index_eqb config config_ids _ Hcfg)
    as (j & Hj & Hle & Hjz & Hnd).
  exists config, j, ki, conn. split; [done|]. split; [done|].
  split; [done|]. split; [done|]. rewrite display_at_insert.
  cbn [hd_needs_modeset hd_active_mode]. split; [done|]. split; [done|].
  assert (Hcases :
    (List.find (λ m, mode_id m =? config) (conn_modes conn) = Some mode ∧
     mode ∈ conn_modes conn)
    ∨ (config = 0 ∧ Forall (λ m, mode_id m ≠ 0) (conn_modes conn) ∧
       mode = DrmMode_default)).
  { destruct (find_mode_id _ _ Hmode) as [(m & Hm & Hin & _)|[-> Hm]];
      unfold mode; rewrite Hm; [by left|right].
    split; [done|]. split; [|done]. apply Forall_forall. intros m Hin Hid.
    apply list_elem_of_In in Hin.
    apply (List.find_none _ _ Hm) in Hin. simpl in Hin.
    rewrite Hid in Hin. done. }
  split; [exact Hcases|]. split.
  { intros Hne. by destruct Hcases as [[_ Hin]|[-> _]]. }
  split.
  { unfold hwc_get_active_config, mbind, M_bind, bind, get_drm, or_return,
      deref, get_hd, return_, mret, M_ret, pure. cbn [drm].
    rewrite <- (GetConnectorForDisplay_set_active_mode ki mode (drm w)
                  display) in Hki.
    unfold set_active_mode in Hki. rewrite Hki.
    cbn [connectors_]. rewrite list_lookup_alter_eq, Hconn.
    cbn [fmap option_fmap option_map conn_active_mode
         DrmConnector_set_active_mode fst]. rewrite Hmode, Hj. done. }
  split; [done|]. split; [done|]. intros Hn. rewrite (Hnd Hn). lia.
Qed.

Lemma active_config_round_trip_witness :
  ∃ w2, hwc_set_active_config 3 0 1 [7; 1] (ex_world kernel_ok ∅)
        = (Return 0, w2) ∧
        NoDup [7; 1] ∧
        hd_needs_modeset (display_at 3 w2 0) = true ∧
        mode_id (hd_active_mode (display_at 3 w2 0)) = 1 ∧
        (hwc_get_active_config 3 0 [7; 1] w2).1 = Return 1.
Proof.
  assert (Hnd : NoDup [7; 1]).
  { apply NoDup_cons. split.
    - intros H. inversion H as [|? ? ? H']. inversion H'.
    - apply NoDup_singleton. }
  exists (hwc_set_active_config 3 0 1 [7; 1] (ex_world kernel_ok ∅)).2.
  assert (E : hwc_set_active_config 3 0 1 [7; 1] (ex_world kernel_ok ∅)
              = (Return 0,
                 (hwc_set_active_config 3 0 1 [7; 1]
                    (ex_world kernel_ok ∅)).2))
    by (vm_compute; reflexivity).
  remember (hwc_set_active_config 3 0 1 [7; 1] (ex_world kernel_ok ∅)).2
    as w2 eqn:Hw2. clear Hw2.
  split; [exact E|]. split; [exact Hnd|].
  destruct (active_config_round_trip 3 0 1 [7; 1] (ex_world kernel_ok ∅)
              w2 E)
    as (config & j & ki & conn & _ & Hc & _ & _ & Hn & Hm & _ & _ & Hg & _
        & _ & Hj).
  assert (config = 1) as ->.
  { change ([7; 1] !! Z.to_nat 1) with (Some 1) in Hc. congruence. }
  split; [exact Hn|]. split; [exact Hm|]. rewrite Hg, (Hj Hnd). reflexivity.
Defined.

(** X17.  [hwc_get_display_configs] asked for no configuration returns 0
    and changes nothing.  Asked for at least one, it reads the connector of
    the display again; when it returns 0 the configuration list of the
    display, the ids written to [configs] and [*num_configs] are the ids
    of the first modes of the connector, at most as many as asked for and
    at least one; when it returns anything else, -1 for a connector
    without modes, the configuration list of the display is empty,
    whatever it held before. *)
Theorem hwc_get_display_configs_spec N display num_configs config_ids w
    o w' :
  hwc_get_display_configs N display num_configs config_ids w = (o, w') →
  (num_configs = 0%nat →
   o = Return {| dc_ret := 0; dc_config_ids := config_ids;
                 dc_configs := []; dc_num_configs := 0 |} ∧ w' = w) ∧
  (num_configs ≠ 0%nat → ∀ r, o = Return r →
   dc_configs r = dc_config_ids r ∧
   (dc_ret r ≠ 0 → dc_config_ids r = []) ∧
   (dc_ret r = 0 →
    dc_num_configs r = length (dc_config_ids r) ∧
    dc_config_ids r ≠ [] ∧
    (length (dc_config_ids r) ≤ num_configs)%nat ∧
    ∃ ki conn, GetConnectorForDisplay (drm w) display = Some ki ∧
      connectors_ (drm w') !! ki = Some conn ∧
      dc_config_ids r = take num_configs (mode_id <$> conn_modes conn))).
Proof.
  intros H. unfold hwc_get_display_configs in H. run H.
  all: simplify_eq.
  all: repeat match goal with
         | E : (_ =? _)%nat = true |- _ => apply Nat.eqb_eq in E
         | E : (_ =? _)%nat = false |- _ => apply Nat.eqb_neq in E
         end.
  all: split; [intros Hn; first [done | by subst]|].
  all: intros Hn r Hr; try done; simplify_eq; cbn [dc_ret dc_config_ids
         dc_configs dc_num_configs drm connectors_].
  all: split; [reflexivity|].
  all: split;
    [ first [ by intros _
            | intros Hne;
              destruct (take num_configs _) eqn:Htake; [done|];
              by destruct Hne ] |].
  all: first
    [ intros Hr; exfalso; unfold ENODEV in Hr; lia
    | intros Hr; exfalso;
      match goal with
      | E : negb (?x =? 0) = true |- _ =>
          rewrite Hr in E; discriminate E
      end
    | idtac ].
  intros Hr. split; [reflexivity|]. split.
  { intros Htake. rewrite Htake in Hr. discriminate Hr. }
  split; [rewrite length_take; lia|].
  match goal with
  | Hc : connectors_ (drm w) !! ?k = Some ?c,
    Hp : k_conn _ _ = (?state, ?modes) |- _ =>
      exists k, (DrmConnector_update state modes c);
      split; [reflexivity|]; split; [|reflexivity];
      by rewrite list_lookup_alter_eq, Hc
  end.
Qed.

Lemma hwc_get_display_configs_spec_witness :
  ∃ r w', hwc_get_display_configs 3 0 4 [9; 9] (ex_world kernel_ok ∅)
          = (Return r, w') ∧
          dc_ret r = 0 ∧ dc_configs r = dc_config_ids r ∧
          dc_num_configs r = length (dc_config_ids r) ∧
          (length (dc_config_ids r) ≤ 4)%nat.
Proof.
  assert (E : ∃ r, hwc_get_display_configs 3 0 4 [9; 9]
                     (ex_world kernel_ok ∅)
              = (Return r,
                 (hwc_get_display_configs 3 0 4 [9; 9]
                    (ex_world kernel_ok ∅)).2) ∧ dc_ret r = 0)
    by (eexists; split; vm_compute; reflexivity).
  remember (hwc_get_display_configs 3 0 4 [9; 9] (ex_world kernel_ok ∅)).2
    as w' eqn:Hw'. clear Hw'.
  destruct E as (r & E & Hr).
  exists r, w'. split; [exact E|]. split; [exact Hr|].
  destruct (hwc_get_display_configs_spec 3 0 4 [9; 9] (ex_world kernel_ok ∅)
              (Return r) w' E) as (_ & H).
  destruct (H ltac:(discriminate) r eq_refl) as (Hc & _ & H0).
  destruct (H0 Hr) as (Hn & _ & Hl & _).
  split; [exact Hc|]. split; [exact Hn|exact Hl].
Defined.

(** [run] for the entry points. *)
Ltac reduce_entry H :=
  match type of H with
  | ?l = ?r =>
      let l' := eval lazy head beta iota zeta delta
        [mbind mret M_bind M_ret bind pure return_ undefined when invoke call
         call_out get_drm put_drm deref or_return
         CreatePropertyBlob DestroyPropertyBlob AddProperty AtomicAlloc
         AtomicCommit AtomicFree SetDpmsMode SetDisplayActiveMode
         get_hd put_hd Render render_fb hwc_set_display_active_mode
         hwc_release_display UpdateModes read_connector
         hwc_get_display_configs hwc_set_active_config
         hwc_set_initial_config hwc_get_active_config hwc_set_power_mode]
        in l in
      change (l' = r) in H
  end.

Ltac whnf_entry H :=
  repeat (progress (reduce_entry H; normalize_world H;
                    cbn [dc_ret dc_config_ids dc_configs dc_num_configs]
                      in H)).

Ltac run_entry H :=
  whnf_entry H;
  lazymatch type of H with
  | (_, _) = _ => idtac
  | _ => case_step H; try congruence; run_entry H
  end.

Lemma GetConnectorForDisplay_update ki state modes st display :
  GetConnectorForDisplay (update_connector ki state modes st) display
  = GetConnectorForDisplay st display.
Proof.
  unfold GetConnectorForDisplay, update_connector. simpl.
  apply find_index_ext. apply Forall2_same_length_lookup.
  split; [by rewrite length_alter|].
  intros i x y Hx Hy. rewrite list_lookup_alter in Hx.
  case_decide; subst.
  - rewrite Hy in Hx. by simplify_eq/=.
  - by simplify_eq.
Qed.

(** X18.  [hwc_set_initial_config] hides a failing query: when the
    display has no connector, its connector cannot be read or has no
    mode, it returns 0 with an empty configuration list, having created
    no blob and left the state of the display as it was.  When it returns
    0 with a configuration, the connector is connected, the list is the id
    of the first mode of the connector, and this first mode, preferred or
    not, is the mode pending for the display and the active mode of the
    connector. *)
Theorem hwc_set_initial_config_spec N display config_ids w ret ids w' :
  hwc_set_initial_config N display config_ids w = (Return (ret, ids), w') →
  (ids = [] →
   ret = 0 ∧ display_at N w' display = display_at N w display ∧
   Forall (λ c, is_create_blob c = false)
          (drop (length (calls w)) (calls w'))) ∧
  (ids ≠ [] → ret = 0 →
   ∃ ki conn m,
     GetConnectorForDisplay (drm w) display = Some ki ∧
     connectors_ (drm w') !! ki = Some conn ∧
     head (conn_modes conn) = Some m ∧ ids = [mode_id m] ∧
     conn_state conn = DRM_MODE_CONNECTED ∧
     conn_active_mode conn = m ∧
     hd_active_mode (display_at N w' display) = m ∧
     hd_needs_modeset (display_at N w' display) = true).
Proof.
  intros H. run_entry H.
  all: repeat match goal with
         | E : context [(1 =? 0)%nat] |- _ =>
             change (1 =? 0)%nat with false in E; cbn [orb] in E
         end.
  all: try discriminate.
  all: simplify_eq; by_path.
  all: cbn [calls drm connectors_]; rewrite ?display_at_insert.
  all: split;
    [ intros Hnil;
      try first
        [ split; [reflexivity|]; split; [reflexivity|];
          rewrite ?drop_app_length, ?drop_all;
          repeat constructor
        | exfalso;
          match goal with
          | E : context [take 1 _] |- _ =>
              rewrite Hnil in E; cbn in E; discriminate E
          end ]
    | ].
  all: intros Hne Hret.
  all: try done.
  all: try (exfalso; unfold EINVAL, ENODEV, ENOENT in Hret; lia).
  all: try (exfalso;
            match goal with
            | E : negb (?x =? 0) = true |- _ => rewrite Hret in E;
                                                 discriminate E
            end).
  { exfalso.
    match goal with
    | E : _ || _ = true |- _ =>
        destruct l; [done|]; cbn in E; discriminate E
    end. }
  match goal with
  | Hk : GetConnectorForDisplay (drm w) display = Some ?k,
    Hk' : GetConnectorForDisplay _ display = Some ?k',
    Hc : connectors_ (drm w) !! ?k = Some ?c,
    Hc' : alter (DrmConnector_update ?state ?modes) ?k _ !! ?k' = Some ?c',
    Hz : take 1 _ !! _ = Some ?z,
    Hm : negb (mode_id _ =? ?z) = false |- _ =>
      change (GetConnectorForDisplay (update_connector k state modes (drm w))
                display = Some k') in Hk';
      rewrite GetConnectorForDisplay_update, Hk in Hk';
      injection Hk' as <-;
      rewrite list_lookup_alter_eq, Hc in Hc';
      injection Hc' as <-;
      cbn [conn_modes conn_state DrmConnector_update] in *;
      destruct modes as [|m rest]; [done|];
      cbn in Hz; injection Hz as <-;
      cbn [find] in *; rewrite Z.eqb_refl in *; cbn [default] in *;
      exists k, (DrmConnector_set_active_mode m
                   (DrmConnector_update state (m :: rest) c)), m;
      split; [reflexivity|]; split;
      [by rewrite list_lookup_alter_eq, list_lookup_alter_eq, Hc|];
      repeat split; done
  end.
Qed.

Lemma hwc_set_initial_config_spec_witness :
  ∃ w', hwc_set_initial_config 3 0 [] (ex_world kernel_ok ∅)
        = (Return (0, [1]), w') ∧
        mode_id (hd_active_mode (display_at 3 w' 0)) = 1 ∧
        hd_needs_modeset (display_at 3 w' 0) = true.
Proof.
  exists (hwc_set_initial_config 3 0 [] (ex_world kernel_ok ∅)).2.
  assert (E : hwc_set_initial_config 3 0 [] (ex_world kernel_ok ∅)
              = (Return (0, [1]),
                 (hwc_set_initial_config 3 0 [] (ex_world kernel_ok ∅)).2))
    by (vm_compute; reflexivity).
  remember (hwc_set_initial_config 3 0 [] (ex_world kernel_ok ∅)).2
    as w' eqn:Hw'. clear Hw'.
  split; [exact E|].
  destruct (hwc_set_initial_config_spec 3 0 [] (ex_world kernel_ok ∅)
              0 [1] w' E) as (_ & H).
  destruct (H ltac:(discriminate) eq_refl)
    as (ki & conn & m & _ & _ & _ & Hi & _ & _ & Ha & Hn).
  injection Hi as Hi. split; [|exact Hn]. rewrite Ha. symmetry. exact Hi.
Defined.

(** ** [hwc_prepare] *)

Lemma prepare_layer_spec layer :
  layer_rest (prepare_layer layer) = layer_rest layer ∧
  ¬ device_composed (compositionType (prepare_layer layer)) ∧
  (device_composed (compositionType layer) →
   compositionType (prepare_layer layer) = HWC_FRAMEBUFFER) ∧
  (¬ device_composed (compositionType layer) → prepare_layer layer = layer).
Proof.
  unfold prepare_layer, device_composed.
  destruct (compositionType layer =? HWC_OVERLAY) eqn:E1;
  destruct (compositionType layer =? HWC_BACKGROUND) eqn:E2;
  destruct (compositionType layer =? HWC_SIDEBAND) eqn:E3;
  destruct (compositionType layer =? HWC_CURSOR_OVERLAY) eqn:E4;
  cbn [orb compositionType layer_rest];
  rewrite ?Z.eqb_eq, ?Z.eqb_neq in *;
  unfold HWC_OVERLAY, HWC_BACKGROUND, HWC_SIDEBAND, HWC_CURSOR_OVERLAY,
    HWC_FRAMEBUFFER in *;
  (split; [reflexivity|]); (split; [lia|]);
  (split; [first [reflexivity | lia | intros; reflexivity]
          |first [intros; reflexivity | intros Hn; exfalso; apply Hn; lia]]).
Qed.

Lemma prepare_layer_idem layer :
  prepare_layer (prepare_layer layer) = prepare_layer layer.
Proof.
  destruct (prepare_layer_spec (prepare_layer layer)) as (_ & _ & _ & H).
  apply H. apply prepare_layer_spec.
Qed.

(** X19.  [hwc_prepare] returns 0 and leaves no layer for the display
    hardware to compose: every layer of type OVERLAY, BACKGROUND, SIDEBAND
    or CURSOR_OVERLAY becomes a FRAMEBUFFER layer, and every other layer,
    the FRAMEBUFFER_TARGET among them, is as it was.  The displays keep
    their layers, a display without contents stays without, and
    preparing again changes nothing. *)
Theorem hwc_prepare_spec display_contents :
  (hwc_prepare display_contents).1 = 0 ∧
  hwc_prepare (hwc_prepare display_contents).2 = hwc_prepare display_contents ∧
  ∀ i,
    match display_contents !! i, (hwc_prepare display_contents).2 !! i with
    | Some (Some hwLayers), Some (Some hwLayers') =>
        length hwLayers' = length hwLayers ∧
        ∀ j layer, hwLayers !! j = Some layer →
          ∃ layer', hwLayers' !! j = Some layer' ∧
            layer_rest layer' = layer_rest layer ∧
            ¬ device_composed (compositionType layer') ∧
            (device_composed (compositionType layer) →
             compositionType layer' = HWC_FRAMEBUFFER) ∧
            (¬ device_composed (compositionType layer) → layer' = layer)
    | Some None, Some None | None, None => True
    | _, _ => False
    end.
Proof.
  unfold hwc_prepare. cbn [fst snd]. split; [done|]. split.
  - f_equal. rewrite <- list_fmap_compose. apply list_fmap_ext.
    intros _ [hwLayers|] _; [|done]. cbn [compose prepare_display]. f_equal.
    rewrite <- list_fmap_compose. apply list_fmap_ext.
    intros _ layer _. apply prepare_layer_idem.
  - intros i. rewrite list_lookup_fmap.
    destruct (display_contents !! i) as [[hwLayers|]|]; cbn; [|done..].
    split; [by rewrite length_fmap|].
    intros j layer Hj. exists (prepare_layer layer).
    rewrite list_lookup_fmap, Hj. split; [done|]. apply prepare_layer_spec.
Qed.

(** ** [GetProperty] *)

Lemma GetProperty_loop_spec props prop_name :
  match GetProperty_loop props prop_name with
  | Some (Some (p, value)) =>
      p_name p = prop_name ∧
      ∃ k, props !! k = Some (Some p, value) ∧
           no_match_before props prop_name k
  | Some None => no_match_before props prop_name (length props)
  | None =>
      ∃ k value, props !! k = Some (None, value) ∧
                 no_match_before props prop_name k
  end.
Proof.
  induction props as [|[[p|] value] rest IH]; cbn [GetProperty_loop].
  - intros j q v Hj. simpl in Hj. lia.
  - destruct (String.eqb (p_name p) prop_name) eqn:E.
    + apply String.eqb_eq in E. split; [done|]. exists 0%nat.
      split; [done|]. intros j q v Hj. lia.
    + apply String.eqb_neq in E.
      assert (Hshift : ∀ k, no_match_before rest prop_name k →
                no_match_before ((Some p, value) :: rest) prop_name (S k)).
      { intros k Hk [|j] q v Hj Hq; simpl in Hq.
        - simplify_eq. by exists p.
        - apply (Hk j q v); [lia|done]. }
      destruct (GetProperty_loop rest prop_name) as [[[p' value']|]|].
      * destruct IH as (Hn & k & Hk & Hb). split; [done|].
        exists (S k). split; [done|]. by apply Hshift.
      * by apply Hshift.
      * destruct IH as (k & value' & Hk & Hb). exists (S k), value'.
        split; [done|]. by apply Hshift.
  - exists 0%nat, value. split; [done|]. intros j q v Hj. lia.
Qed.

(** X20.  [GetProperty] returns -ENODEV when the object has no property
    list.  Otherwise it hands to [property->Init] the first property
    called [prop_name], with its value, and returns 0; it returns -ENOENT
    when no property has that name.  Its behaviour is undefined exactly
    when a property that it reaches before a match cannot be read. *)
Theorem GetProperty_spec props prop_name :
  match props, GetProperty props prop_name with
  | None, r => r = Some (- ENODEV, None)
  | Some props, Some (ret, Some (p, value)) =>
      ret = 0 ∧ p_name p = prop_name ∧
      ∃ k, props !! k = Some (Some p, value) ∧
           no_match_before props prop_name k
  | Some props, Some (ret, None) =>
      ret = - ENOENT ∧ no_match_before props prop_name (length props)
  | Some props, None =>
      ∃ k value, props !! k = Some (None, value) ∧
                 no_match_before props prop_name k
  end.
Proof.
  destruct props as [props|]; [|done]. cbn [GetProperty].
  pose proof (GetProperty_loop_spec props prop_name) as H.
  destruct (GetProperty_loop props prop_name) as [[[p value]|]|]; cbn.
  - destruct H as [Hn Hk]. by split.
  - by split.
  - done.
Qed.

(** ** More on the frame queue *)

Lemma renderworker_h_run_app ops1 ops2 rw :
  renderworker_h.run (ops1 ++ ops2) rw
  = renderworker_h.run ops1 rw ≫= renderworker_h.run ops2.
Proof.
  revert rw. induction ops1 as [|op ops1 IH]; intros rw; [done|].
  destruct op; cbn [app renderworker_h.run]; try apply IH.
  destruct (renderworker_h.QueueFB buffer rw) as [rw1|]; [|done].
  cbn. apply IH.
Qed.

(** X21.  In renderworker.h a frame that is still pending when the next
    one is queued is dropped: queued on a queue that holds at most one
    buffer, [buffer] is the only one pending afterwards and the one
    [DequeueFB] returns; so after any run of queue operations from the
    empty queue that ends with [QueueFB buffer], exactly [buffer] is
    pending. *)
Theorem QueueFB_keeps_newest buffer :
  (∀ rw, (length (renderworker_h.queue_ rw) ≤ 1)%nat →
     renderworker_h.QueueFB buffer rw
     = Some (renderworker_h.set_queue [buffer] rw) ∧
     renderworker_h.DequeueFB (renderworker_h.set_queue [buffer] rw)
     = (buffer, renderworker_h.set_queue [] rw)) ∧
  (∀ ops rw, renderworker_h.queue_ rw = [] →
     renderworker_h.queue_
       <$> renderworker_h.run (ops ++ [OpQueueFB buffer]) rw
     = Some [buffer]).
Proof.
  assert (H1 : ∀ rw, (length (renderworker_h.queue_ rw) ≤ 1)%nat →
            renderworker_h.QueueFB buffer rw
            = Some (renderworker_h.set_queue [buffer] rw)).
  { intros rw Hlen. rewrite renderworker_h_QueueFB_eq.
    destruct (renderworker_h.queue_ rw) as [|x [|y q]]; simpl in *;
      [done|done|lia]. }
  split.
  - intros rw Hlen. split; [by apply H1|done].
  - intros ops rw Hq. rewrite renderworker_h_run_app.
    destruct (renderworker_h_run_bounded 1 ops rw) as (rw1 & Hrun & Hlen);
      [lia|rewrite Hq; simpl; lia|].
    rewrite Hrun. cbn. by rewrite (H1 rw1 Hlen).
Qed.

(** X22.  In the variant with [queue_fd_], [QueueFB] is undefined (it
    pops the empty fd queue) exactly for display 1 with a buffer pending
    and no fd queued. *)
Theorem part_000_QueueFB_undefined buffer rw :
  part_000.QueueFB buffer rw = None ↔
  part_000.id_ rw = 1 ∧ part_000.queue_ rw ≠ [] ∧ part_000.queue_fd_ rw = [].
Proof.
  unfold part_000.QueueFB, NXQueue_queue, NXQueue_size, NXQueue_pop.
  destruct (part_000.id_ rw =? 1) eqn:Hid; simpl.
  - apply Z.eqb_eq in Hid.
    destruct (part_000.queue_ rw) as [|x q] eqn:Hq; simpl.
    + split; [done|]. by intros (_ & ? & _).
    + destruct (2 <=? _) eqn:E.
      * simpl. destruct (part_000.queue_fd_ rw) as [|f fds]; simpl.
        -- split; [done|done].
        -- split; [done|]. by intros (_ & _ & ?).
      * apply Z.leb_gt in E. rewrite length_app in E. simpl in E. lia.
  - apply Z.eqb_neq in Hid. split; [done|]. by intros (? & _).
Qed.

(** X23.  In the variant with [queue_fd_], when the two queues of display
    1 hold at most one entry each and as many as each other, [QueueFD fd]
    followed by [QueueFB buffer] is defined and leaves exactly [buffer]
    and [fd] pending: the fence of a dropped frame is dropped with it.
    [DequeueFB] and [DequeueFD] then return [buffer] and [fd] and leave
    both queues empty. *)
Theorem part_000_fd_follows_buffer fd buffer rw :
  part_000.id_ rw = 1 →
  (length (part_000.queue_ rw) ≤ 1)%nat →
  length (part_000.queue_fd_ rw) = length (part_000.queue_ rw) →
  ∃ rw', part_000.QueueFB buffer (part_000.QueueFD fd rw) = Some rw' ∧
    part_000.id_ rw' = 1 ∧
    part_000.queue_ rw' = [buffer] ∧ part_000.queue_fd_ rw' = [fd] ∧
    (part_000.DequeueFB rw').1 = buffer ∧
    (part_000.DequeueFD (part_000.DequeueFB rw').2).1 = fd ∧
    part_000.queue_ (part_000.DequeueFD (part_000.DequeueFB rw').2).2 = [] ∧
    part_000.queue_fd_ (part_000.DequeueFD (part_000.DequeueFB rw').2).2
    = [].
Proof.
  intros Hid Hlen Hfd.
  unfold part_000.QueueFB, part_000.QueueFD, part_000.DequeueFB,
    part_000.DequeueFD, NXQueue_queue, NXQueue_size, NXQueue_pop.
  destruct rw as [id q fds]. simpl in *. subst id. simpl.
  destruct q as [|x [|y q]]; simpl in *; [| |lia].
  - destruct fds; [|done]. simpl. eexists. split; [reflexivity|]. done.
  - destruct fds as [|f [|g fds]]; [done| |done]. simpl.
    eexists. split; [reflexivity|]. done.
Qed.

Lemma part_000_fd_follows_buffer_witness :
  part_000.id_ (fd_queue_of 1 [5] [6]) = 1 ∧
  ∃ rw', part_000.QueueFB 7 (part_000.QueueFD 8 (fd_queue_of 1 [5] [6]))
         = Some rw' ∧
         part_000.queue_ rw' = [7] ∧ part_000.queue_fd_ rw' = [8].
Proof.
  split; [reflexivity|].
  destruct (part_000_fd_follows_buffer 8 7 (fd_queue_of 1 [5] [6]))
    as (rw' & H & _ & Hq & Hf & _).
  - reflexivity.
  - simpl; lia.
  - reflexivity.
  - exists rw'. split; [exact H|]. split; [exact Hq|exact Hf].
Defined.

(** ** The importer *)

(** X24.  [ConvertHalFormatToDrm] and [GetBytePerPixel] know the same six
    formats: both give their error value, [2^32 - 22], for any other
    format and only then; for a known format the bytes per pixel are
    between 1 and 4. *)
Theorem formats_agree hal_format :
  (nexellimporter.supported hal_format ↔
   nexellimporter.ConvertHalFormatToDrm hal_format
   ≠ nexellimporter.to_u32 (- EINVAL)) ∧
  (nexellimporter.supported hal_format ↔
   nexellimporter.GetBytePerPixel hal_format
   ≠ nexellimporter.to_u32 (- EINVAL)) ∧
  (nexellimporter.supported hal_format →
   1 ≤ nexellimporter.GetBytePerPixel hal_format ≤ 4) ∧
  nexellimporter.to_u32 (- EINVAL) = 2 ^ 32 - 22.
Proof.
  unfold nexellimporter.supported, nexellimporter.ConvertHalFormatToDrm,
    nexellimporter.GetBytePerPixel.
  rewrite !elem_of_cons, elem_of_nil.
  destruct (hal_format =? nexellimporter.HAL_PIXEL_FORMAT_RGB_888) eqn:E1;
  destruct (hal_format =? nexellimporter.HAL_PIXEL_FORMAT_BGRA_8888) eqn:E2;
  destruct (hal_format =? nexellimporter.HAL_PIXEL_FORMAT_RGBX_8888) eqn:E3;
  destruct (hal_format =? nexellimporter.HAL_PIXEL_FORMAT_RGBA_8888) eqn:E4;
  destruct (hal_format =? nexellimporter.HAL_PIXEL_FORMAT_RGB_565) eqn:E5;
  destruct (hal_format =? nexellimporter.HAL_PIXEL_FORMAT_YV12) eqn:E6;
  cbn [orb];
  rewrite ?Z.eqb_eq, ?Z.eqb_neq in *;
  (split; [|split; [|split]]);
  try (vm_compute; reflexivity);
  try (split; [intros _; vm_compute; discriminate|intros _; tauto]);
  try (split; [intros H; exfalso; tauto|intros H; by destruct H]);
  try lia; try (intros H; exfalso; tauto).
Qed.

Lemma close_gem_handles_spec k gem_handles : ∀ h,
  (nexellimporter.close_gem_handles k gem_handles h).2
  = h ++ (nexellimporter.DRM_IOCTL_GEM_CLOSE
            <$> filter (λ handle, handle ≠ 0) gem_handles) ∧
  length (nexellimporter.close_gem_handles k gem_handles h).1
  = length gem_handles ∧
  ((∀ hist, nexellimporter.ret k hist = 0) →
   (nexellimporter.close_gem_handles k gem_handles h).1
   = replicate (length gem_handles) 0).
Proof.
  induction gem_handles as [|g rest IH]; intros h;
    cbn [nexellimporter.close_gem_handles].
  - split; [by rewrite app_nil_r|done].
  - destruct (g =? 0) eqn:E.
    + apply Z.eqb_eq in E. subst g. destruct (IH h) as (Hc & Hl & Hz).
      destruct (nexellimporter.close_gem_handles k rest h) as [r h'].
      cbn [fst snd] in *. rewrite filter_cons_False by (intros Hn; done).
      split; [done|]. split; [simpl; lia|].
      intros Hok. cbn [length replicate]. by rewrite Hz.
    + apply Z.eqb_neq in E.
      destruct (IH (h ++ [nexellimporter.DRM_IOCTL_GEM_CLOSE g]))
        as (Hc & Hl & Hz).
      destruct (nexellimporter.close_gem_handles k rest _) as [r h'].
      cbn [fst snd] in *. rewrite filter_cons_True by done.
      split; [rewrite Hc, <- app_assoc; done|]. split; [simpl; lia|].
      intros Hok. rewrite Hok. cbn [negb Z.eqb length replicate].
      by rewrite Hz.
Qed.

Lemma filter_zeros n : filter (λ handle : Z, handle ≠ 0) (replicate n 0) = [].
Proof.
  induction n as [|n IH]; [done|]. cbn [replicate].
  by rewrite filter_cons_False by (intros Hn; done).
Qed.

Lemma ReleaseBuffer_calls k bo h :
  (nexellimporter.ReleaseBuffer k bo h).2 = h ++ nexellimporter.releases bo.
Proof.
  unfold nexellimporter.ReleaseBuffer, nexellimporter.releases.
  set (h1 := if nexellimporter.bo_fb_id bo =? 0 then h
             else h ++ [nexellimporter.drmModeRmFB
                          (nexellimporter.bo_fb_id bo)]).
  destruct (close_gem_handles_spec k (nexellimporter.bo_gem_handles bo) h1)
    as (Hc & _).
  destruct (nexellimporter.close_gem_handles k
              (nexellimporter.bo_gem_handles bo) h1) as [r h2].
  cbn [fst snd] in *. rewrite Hc. unfold h1.
  destruct (nexellimporter.bo_fb_id bo =? 0); [done|].
  by rewrite <- app_assoc.
Qed.

(** X25.  [ReleaseBuffer] always returns 0.  It removes the framebuffer
    of the buffer object, unless its id is 0, and closes each gem handle
    that is not 0, in the order of the array, whatever these calls
    return; the framebuffer id is kept.  When the calls succeed all gem
    handles are 0 afterwards, so releasing the object once more closes
    no handle, but removes the framebuffer a second time. *)
Theorem ReleaseBuffer_spec k bo h :
  (nexellimporter.ReleaseBuffer k bo h).1.1 = 0 ∧
  (nexellimporter.ReleaseBuffer k bo h).2
  = h ++ nexellimporter.releases bo ∧
  nexellimporter.bo_fb_id (nexellimporter.ReleaseBuffer k bo h).1.2
  = nexellimporter.bo_fb_id bo ∧
  ((∀ hist, nexellimporter.ret k hist = 0) →
   nexellimporter.bo_gem_handles (nexellimporter.ReleaseBuffer k bo h).1.2
   = replicate (length (nexellimporter.bo_gem_handles bo)) 0 ∧
   ∀ h', (nexellimporter.ReleaseBuffer k
            (nexellimporter.ReleaseBuffer k bo h).1.2 h').2
         = h' ++ (if nexellimporter.bo_fb_id bo =? 0 then []
                  else [nexellimporter.drmModeRmFB
                          (nexellimporter.bo_fb_id bo)])).
Proof.
  unfold nexellimporter.ReleaseBuffer, nexellimporter.releases.
  set (h1 := if nexellimporter.bo_fb_id bo =? 0 then h
             else h ++ [nexellimporter.drmModeRmFB
                          (nexellimporter.bo_fb_id bo)]).
  destruct (close_gem_handles_spec k (nexellimporter.bo_gem_handles bo) h1)
    as (Hc & Hl & Hz).
  destruct (nexellimporter.close_gem_handles k
              (nexellimporter.bo_gem_handles bo) h1) as [r h2].
  cbn [fst snd nexellimporter.bo_fb_id nexellimporter.bo_gem_handles] in *.
  split; [done|]. split.
  { rewrite Hc. unfold h1.
    destruct (nexellimporter.bo_fb_id bo =? 0); [done|].
    by rewrite <- app_assoc. }
  split; [done|]. intros Hok. rewrite (Hz Hok). split; [done|].
  intros h'.
  set (h1' := if nexellimporter.bo_fb_id bo =? 0 then h'
              else h' ++ [nexellimporter.drmModeRmFB
                            (nexellimporter.bo_fb_id bo)]).
  destruct (close_gem_handles_spec k
              (replicate (length (nexellimporter.bo_gem_handles bo)) 0) h1')
    as (Hc' & _).
  destruct (nexellimporter.close_gem_handles k _ h1') as [r' h2'].
  cbn [fst snd] in *. rewrite Hc', filter_zeros. cbn [fmap list_fmap].
  rewrite app_nil_r. unfold h1'.
  destruct (nexellimporter.bo_fb_id bo =? 0); [by rewrite app_nil_r|done].
Qed.

(** X26.  [ImportBuffer] of a handle that is no [private_handle_t]
    returns [-EINVAL] without a call.  Otherwise it issues
    [drmPrimeFDToHandle] and [drmModeAddFB2], these two and in this
    order, and its status is the one of [drmModeAddFB2]: a failure of
    [drmPrimeFDToHandle] is not returned.  The object it fills holds the
    gem handle in its element 0 and the framebuffer if one was made, and
    [ReleaseBuffer] gives back just these. *)
Theorem ImportBuffer_spec (n : nat) flag k handle gr h :
  (1 ≤ n)%nat →
  nexellimporter.ImportBuffer n flag k handle None h = (- EINVAL, None, h) ∧
  ∃ bo add,
    let prime := h ++ [nexellimporter.drmPrimeFDToHandle
                         (nexellimporter.share_fd gr)] in
    let gem := nexellimporter.out k prime in
    let fb := nexellimporter.out k (prime ++ [add]) in
    let status := nexellimporter.ret k (prime ++ [add]) in
    nexellimporter.ImportBuffer n flag k handle (Some gr) h
    = (status, Some bo, prime ++ [add]) ∧
    add = nexellimporter.drmModeAddFB2
            (nexellimporter.to_u32 (nexellimporter.width gr))
            (nexellimporter.to_u32 (nexellimporter.height gr))
            (nexellimporter.ConvertHalFormatToDrm
               (nexellimporter.to_u32 (nexellimporter.format gr)))
            (gem :: replicate (n - 1) 0)
            (nexellimporter.bo_pitches bo) (nexellimporter.bo_offsets bo) ∧
    nexellimporter.bo_priv bo = handle ∧
    nexellimporter.bo_gem_handles bo = gem :: replicate (n - 1) 0 ∧
    nexellimporter.bo_fb_id bo = (if status =? 0 then fb else 0) ∧
    (nexellimporter.ReleaseBuffer k bo (prime ++ [add])).2
    = (prime ++ [add])
      ++ (if (status =? 0) && negb (fb =? 0)
          then [nexellimporter.drmModeRmFB fb] else [])
      ++ (if gem =? 0 then [] else [nexellimporter.DRM_IOCTL_GEM_CLOSE gem]).
Proof.
  intros Hn. split; [done|].
  destruct n as [|n]; [lia|].
  unfold nexellimporter.ImportBuffer, nexellimporter.first_of.
  cbn [replicate]. change (<[0%nat:=?v]> (?x :: ?l)) with (v :: l).
  cbn [nexellimporter.bo_width nexellimporter.bo_height
       nexellimporter.bo_format nexellimporter.bo_gem_handles
       nexellimporter.bo_pitches nexellimporter.bo_offsets
       nexellimporter.bo_priv nexellimporter.bo_fb_id].
  replace (S n - 1)%nat with n by lia.
  set (prime := h ++ [nexellimporter.drmPrimeFDToHandle _]).
  set (gem := nexellimporter.out k prime).
  set (add := nexellimporter.drmModeAddFB2 _ _ _ _ _ _).
  assert (Hrel : ∀ bo, nexellimporter.bo_gem_handles bo = gem :: replicate n 0 →
    (nexellimporter.ReleaseBuffer k bo (prime ++ [add])).2
    = (prime ++ [add])
      ++ (if nexellimporter.bo_fb_id bo =? 0 then []
          else [nexellimporter.drmModeRmFB (nexellimporter.bo_fb_id bo)])
      ++ (if gem =? 0 then [] else [nexellimporter.DRM_IOCTL_GEM_CLOSE gem])).
  { intros bo Hg.
    rewrite ReleaseBuffer_calls.
    unfold nexellimporter.releases. rewrite Hg. f_equal. f_equal.
    destruct (gem =? 0) eqn:E.
    - apply Z.eqb_eq in E. rewrite E.
      rewrite filter_cons_False by (intros Hne; done).
      by rewrite filter_zeros.
    - apply Z.eqb_neq in E. rewrite filter_cons_True by exact E.
      by rewrite filter_zeros. }
  destruct (nexellimporter.ret k (prime ++ [add]) =? 0) eqn:E; cbn [negb].
  - eexists _, add. cbv zeta. rewrite E.
    split; [apply Z.eqb_eq in E; rewrite E; reflexivity|].
    cbn [nexellimporter.bo_priv nexellimporter.bo_gem_handles
         nexellimporter.bo_fb_id nexellimporter.bo_pitches
         nexellimporter.bo_offsets].
    split; [reflexivity|]. split; [done|]. split; [done|]. split; [done|].
    rewrite Hrel by done. cbn [nexellimporter.bo_fb_id andb].
    by destruct (nexellimporter.out k (prime ++ [add]) =? 0).
  - eexists _, add. cbv zeta. rewrite E. split; [reflexivity|].
    cbn [nexellimporter.bo_priv nexellimporter.bo_gem_handles
         nexellimporter.bo_fb_id nexellimporter.bo_pitches
         nexellimporter.bo_offsets].
    split; [reflexivity|]. split; [done|]. split; [done|]. split; [done|].
    rewrite Hrel by done. done.
Qed.

Lemma ImportBuffer_spec_witness :
  ∃ bo, nexellimporter.ImportBuffer 4 1 nexellimporter.kernel_ok 77
          (Some nexellimporter.ex_handle) []
        = (0, Some bo,
           [nexellimporter.drmPrimeFDToHandle 9;
            nexellimporter.drmModeAddFB2 1920 1080
              nexellimporter.DRM_FORMAT_ABGR8888 [1; 0; 0; 0]
              [7680; 0; 0; 0] [0; 0; 0; 0]]) ∧
        (nexellimporter.ReleaseBuffer nexellimporter.kernel_ok bo []).2
        = [nexellimporter.drmModeRmFB 2;
           nexellimporter.DRM_IOCTL_GEM_CLOSE 1].
Proof.
  destruct (ImportBuffer_spec 4 1 nexellimporter.kernel_ok 77
              nexellimporter.ex_handle [] ltac:(lia))
    as (_ & bo & add & Hi & Ha & _).
  exists bo. vm_compute in Hi. vm_compute.
  injection Hi as <- <-. split; reflexivity.
Defined.
